(** * SquareRun: player, collectibles, camera and game-state core

    A shallow embedding of the simulation core of the SquareRun platformer
    (player.js, collectibles.js, camera.js, game-state.js) together with the
    properties its specification states about it.

    Numbers.  JavaScript numbers are modelled as mathematical reals [R]:
    arithmetic is exact, [NaN] and the infinities do not exist, and the
    [Math] functions are their real counterparts.  Counters and platform
    ids, which the code only ever increments or compares, are integers [Z].

    Objects.  A [Player], a [Camera] and a [GameState] are single objects and
    are modelled by state passing.  Collectibles are shared: the manager keeps
    references to them, hands them to the player, and returns them to its
    callers.  They therefore live in a heap addressed by allocation index. *)

From Stdlib Require Import Reals Lra ZArith Lia List String Ascii Bool.
Import ListNotations.

Open Scope R_scope.

(** ** JavaScript primitives *)

Module Js.

(** [a < b] and [a <= b] as the booleans a JavaScript test yields. *)
Definition ltb (a b : R) : bool := if Rlt_dec a b then true else false.
Definition leb (a b : R) : bool := if Rle_dec a b then true else false.
Definition gtb (a b : R) : bool := ltb b a.
Definition geb (a b : R) : bool := leb b a.

(** [Math.hypot(a, b)]. *)
Definition hypot (a b : R) : R := sqrt (a * a + b * b).

(** [Math.round(r)]: the nearest integer, halves rounded up. *)
Definition round (r : R) : R := IZR (Int_part (r + / 2)).

(** [Math.pow(b, e)] for a base [b >= 0]: [0] to a positive power is [0],
    anything to the power [0] is [1], and a positive base is raised through
    [exp] and [ln].  ([0] to a negative power is [Infinity] in JavaScript
    and a negative base gives [NaN] or a signed power; neither has a real
    value, and the camera never reaches them with a smoothness in [0,1]
    and a positive time step.) *)
Definition pow (b e : R) : R :=
  if Req_dec_T e 0 then 1
  else if Req_dec_T b 0 then 0
  else Rpower b e.

(** Strings.  A JavaScript string is modelled by a Rocq [string] when all
    its characters are ASCII; [isAscii] says that a [string] is such a
    model.  Strings with other characters are outside the model, and what
    is stated of a string-consuming function is stated of ASCII strings. *)
Definition isAsciiChar (c : ascii) : bool := Nat.ltb (nat_of_ascii c) 128.

Fixpoint isAscii (s : string) : bool :=
  match s with
  | EmptyString => true
  | String c s' => (isAsciiChar c && isAscii s')%bool
  end.

(** [s.toUpperCase()] on an ASCII string: the letters a-z are mapped to
    A-Z and every other ASCII character is kept.  (On other characters
    JavaScript applies the Unicode case mapping, under which a few
    non-ASCII letters become ASCII capitals, the long s for one; they are
    not modelled.) *)
Definition upper_char (c : ascii) : ascii :=
  let n := nat_of_ascii c in
  if (Nat.leb 97 n && Nat.leb n 122)%bool then ascii_of_nat (n - 32) else c.

Fixpoint toUpperCase (s : string) : string :=
  match s with
  | EmptyString => EmptyString
  | String c s' => String (upper_char c) (toUpperCase s')
  end.

(** A property read from an object literal: the first binding of the key. *)
Fixpoint get {A : Type} (o : list (string * A)) (k : string) : option A :=
  match o with
  | [] => None
  | (k', v) :: o' => if String.eqb k k' then Some v else get o' k
  end.

(** The property names every object literal inherits.  Reading one of
    them from a table finds the inherited member, not a table entry, so
    the tables below are only ever read at other keys. *)
Definition inherited : list string :=
  [ "constructor"; "hasOwnProperty"; "isPrototypeOf";
    "propertyIsEnumerable"; "toLocaleString"; "toString"; "valueOf";
    "__proto__"; "__defineGetter__"; "__defineSetter__";
    "__lookupGetter__"; "__lookupSetter__" ]%string.

End Js.

(** ** Rectangles

    An object with [x], [y], [width] and [height]: what the [getBounds] of a
    player or a collectible returns, a teleport, and anything handed to the
    camera's [isVisible]. *)

Module Rect.

Record t : Type := mk
  { x : R; y : R; width : R; height : R }.

(** The open box of the rectangle contains the point [(px, py)]. *)
Definition inside (r : t) (px py : R) : Prop :=
  x r < px < x r + width r /\ y r < py < y r + height r.

End Rect.

(** What the camera's [getBounds] returns. *)

Module CameraBounds.

Record t : Type := mk
  { left : R; right : R; top : R; bottom : R }.

(** The open box of the bounds contains the point [(px, py)]. *)
Definition inside (b : t) (px py : R) : Prop :=
  left b < px < right b /\ top b < py < bottom b.

End CameraBounds.

(** ** Platforms (level geometry, read only) *)

Module Platform.

Record t : Type := mk
  { x : R; y : R; width : R; height : R; id : Z }.

End Platform.

(** ** Explosion particles *)

Module Particle.

Record t : Type := mk
  { x : R; y : R; width : R; height : R;
    dx : R; dy : R; angle : R; angleV : R; life : R }.

End Particle.

(** ** Collectibles *)

Module Collectible.

(** The effect descriptors of the type catalogue. *)
Inductive EffectParam : Type :=
| SpeedBoost (factor : R)
| Form (form : string)
| HealthBoost (amount : R)
| JumpBoost (factor : R)
| Invincible
| Magnet.

Record Effect : Type := mkEffect
  { effType : string; effParam : EffectParam; effDuration : option R }.

Record Config : Type := mkConfig
  { cfgName : string; cfgSize : R; cfgValue : R; cfgColor : string;
    cfgRotationSpeed : R; cfgEffects : list Effect }.

Definition typeConfigs : list (string * Config) :=
  [ ("pixel"%string, mkConfig "Pixel" 8 10 "#f1c40f" 0 []);
    ("gem"%string, mkConfig "Gem" 12 50 "#e74c3c" 2 []);
    ("star"%string, mkConfig "Star" 15 100 "#f39c12" 3 []);
    ("powerUp"%string,
      mkConfig "Power-Up" 14 25 "#9b59b6" (15 / 10)
        [mkEffect "powerUp" (SpeedBoost (15 / 10)) (Some 5000)]);
    ("formChange"%string,
      mkConfig "Form Change" 16 75 "#3498db" (25 / 10)
        [mkEffect "formChange" (Form "circle") None]);
    ("health"%string,
      mkConfig "Health" 10 30 "#2ecc71" 1
        [mkEffect "powerUp" (HealthBoost 1) (Some 0)]);
    ("speedBoost"%string,
      mkConfig "Speed Boost" 11 40 "#e67e22" 2
        [mkEffect "powerUp" (SpeedBoost 2) (Some 8000)]);
    ("jumpBoost"%string,
      mkConfig "Jump Boost" 11 35 "#8e44ad" (18 / 10)
        [mkEffect "powerUp" (JumpBoost (18 / 10)) (Some 6000)]);
    ("invincibility"%string,
      mkConfig "Invincibility" 13 60 "#f1c40f" 4
        [mkEffect "powerUp" Invincible (Some 4000)]);
    ("magnet"%string,
      mkConfig "Magnet" 12 45 "#34495e" (22 / 10)
        [mkEffect "powerUp" Magnet (Some 7000)]) ].

Definition pixelConfig : Config := mkConfig "Pixel" 8 10 "#f1c40f" 0 [].

Record t : Type := mk
  { x : R; y : R;
    active : bool; collected : bool; collectionTime : R;
    type : string; size : R; value : R;
    animationFrame : R; animationSpeed : R;
    bobOffset : R; bobSpeed : R;
    rotation : R; rotationSpeed : R;
    color : string; glowIntensity : R; pulseEffect : R;
    effects : list Effect; name : string }.

(** [new Collectible(x, y, type)]: the constructor's defaults, overwritten
    by [initializeType] from the catalogue entry of [type], or from the
    pixel entry when the tag is not in the catalogue. *)
Definition new (x0 y0 : R) (ty : string) : t :=
  let config :=
    match Js.get typeConfigs ty with
    | Some c => c
    | None => pixelConfig
    end in
  {| x := x0; y := y0;
     active := true; collected := false; collectionTime := 0;
     type := ty; size := cfgSize config; value := cfgValue config;
     animationFrame := 0;
     animationSpeed := 1 / 10 + cfgRotationSpeed config * (5 / 100);
     bobOffset := 0; bobSpeed := 2;
     rotation := 0; rotationSpeed := cfgRotationSpeed config;
     color := cfgColor config; glowIntensity := 0; pulseEffect := 0;
     effects := cfgEffects config; name := cfgName config |}.

Definition set_active (b : bool) (c : t) : t :=
  {| x := x c; y := y c;
     active := b; collected := collected c;
     collectionTime := collectionTime c;
     type := type c; size := size c; value := value c;
     animationFrame := animationFrame c;
     animationSpeed := animationSpeed c;
     bobOffset := bobOffset c; bobSpeed := bobSpeed c;
     rotation := rotation c; rotationSpeed := rotationSpeed c;
     color := color c; glowIntensity := glowIntensity c;
     pulseEffect := pulseEffect c;
     effects := effects c; name := name c |}.

Definition set_collected (b : bool) (c : t) : t :=
  {| x := x c; y := y c;
     active := active c; collected := b;
     collectionTime := collectionTime c;
     type := type c; size := size c; value := value c;
     animationFrame := animationFrame c;
     animationSpeed := animationSpeed c;
     bobOffset := bobOffset c; bobSpeed := bobSpeed c;
     rotation := rotation c; rotationSpeed := rotationSpeed c;
     color := color c; glowIntensity := glowIntensity c;
     pulseEffect := pulseEffect c;
     effects := effects c; name := name c |}.

(** [update(dt)]: animation only, and only while active. *)
Definition update (dt : R) (c : t) : t :=
  if negb (active c) then c
  else
    let frame := animationFrame c + dt * animationSpeed c in
    {| x := x c; y := y c;
       active := active c; collected := collected c;
       collectionTime := collectionTime c;
       type := type c; size := size c; value := value c;
       animationFrame := frame;
       animationSpeed := animationSpeed c;
       bobOffset := sin (frame * bobSpeed c) * 2;
       bobSpeed := bobSpeed c;
       rotation := rotation c + rotationSpeed c * dt;
       rotationSpeed := rotationSpeed c;
       color := color c;
       glowIntensity := 5 / 10 + sin (frame * 3) * (3 / 10);
       pulseEffect :=
         if Js.gtb (pulseEffect c) 0 then pulseEffect c - dt * 3
         else pulseEffect c;
       effects := effects c; name := name c |}.

(** [collect()], with [now] the reading of [performance.now()]. *)
Definition collect (now : R) (c : t) : bool * t :=
  if (negb (active c) || collected c)%bool then (false, c)
  else
    (true,
     {| x := x c; y := y c;
        active := false; collected := true; collectionTime := now;
        type := type c; size := size c; value := value c;
        animationFrame := animationFrame c;
        animationSpeed := animationSpeed c;
        bobOffset := bobOffset c; bobSpeed := bobSpeed c;
        rotation := rotation c; rotationSpeed := rotationSpeed c;
        color := color c; glowIntensity := glowIntensity c;
        pulseEffect := 1;
        effects := effects c; name := name c |}).

(** [getBounds()]: the square of side [size] centred on the position. *)
Definition getBounds (c : t) : Rect.t :=
  {| Rect.x := x c - size c / 2; Rect.y := y c - size c / 2;
     Rect.width := size c; Rect.height := size c |}.

(** [isVisible(cameraBounds)]. *)
Definition isVisible (cameraBounds : CameraBounds.t) (c : t) : bool :=
  let bounds := getBounds c in
  (Js.gtb (Rect.x bounds + Rect.width bounds) (CameraBounds.left cameraBounds)
   && Js.ltb (Rect.x bounds) (CameraBounds.right cameraBounds)
   && Js.gtb (Rect.y bounds + Rect.height bounds)
        (CameraBounds.top cameraBounds)
   && Js.ltb (Rect.y bounds) (CameraBounds.bottom cameraBounds))%bool.

(** [getRenderData()]. *)
Record RenderData : Type := mkRenderData
  { rdX : R; rdY : R; rdSize : R; rdColor : string; rdRotation : R;
    rdGlowIntensity : R; rdPulseEffect : R; rdType : string;
    rdActive : bool }.

Definition getRenderData (c : t) : RenderData :=
  {| rdX := x c; rdY := y c + bobOffset c; rdSize := size c;
     rdColor := color c; rdRotation := rotation c;
     rdGlowIntensity := glowIntensity c; rdPulseEffect := pulseEffect c;
     rdType := type c; rdActive := active c |}.

End Collectible.

(** ** The player *)

Module Player.

Record t : Type := mk
  { x : R;
    y : R;
    width : R;
    height : R;
    dx : R;
    dy : R;
    gravity : R;
    jumpForce : R;
    maxSpeed : R;
    rotationSpeed : R;
    onGround : bool;
    wasOnGround : bool;
    angle : R;
    flashTime : R;
    isDead : bool;
    isRespawning : bool;
    particles : list Particle.t;
    lastSafePlatform : option Platform.t;
    respawnX : R;
    respawnY : R;
    consecutiveDeaths : Z;
    lastDeathPlatformId : Z }.

(** Field assignments, one per field the methods below write. *)

Definition set_x (v : R) (p : t) : t :=
  {| x := v; y := y p; width := width p; height := height p; dx := dx p;
     dy := dy p; gravity := gravity p; jumpForce := jumpForce p;
     maxSpeed := maxSpeed p; rotationSpeed := rotationSpeed p;
     onGround := onGround p; wasOnGround := wasOnGround p;
     angle := angle p; flashTime := flashTime p; isDead := isDead p;
     isRespawning := isRespawning p; particles := particles p;
     lastSafePlatform := lastSafePlatform p; respawnX := respawnX p;
     respawnY := respawnY p; consecutiveDeaths := consecutiveDeaths p;
     lastDeathPlatformId := lastDeathPlatformId p |}.

Definition set_y (v : R) (p : t) : t :=
  {| x := x p; y := v; width := width p; height := height p; dx := dx p;
     dy := dy p; gravity := gravity p; jumpForce := jumpForce p;
     maxSpeed := maxSpeed p; rotationSpeed := rotationSpeed p;
     onGround := onGround p; wasOnGround := wasOnGround p;
     angle := angle p; flashTime := flashTime p; isDead := isDead p;
     isRespawning := isRespawning p; particles := particles p;
     lastSafePlatform := lastSafePlatform p; respawnX := respawnX p;
     respawnY := respawnY p; consecutiveDeaths := consecutiveDeaths p;
     lastDeathPlatformId := lastDeathPlatformId p |}.

Definition set_dy (v : R) (p : t) : t :=
  {| x := x p; y := y p; width := width p; height := height p;
     dx := dx p; dy := v; gravity := gravity p; jumpForce := jumpForce p;
     maxSpeed := maxSpeed p; rotationSpeed := rotationSpeed p;
     onGround := onGround p; wasOnGround := wasOnGround p;
     angle := angle p; flashTime := flashTime p; isDead := isDead p;
     isRespawning := isRespawning p; particles := particles p;
     lastSafePlatform := lastSafePlatform p; respawnX := respawnX p;
     respawnY := respawnY p; consecutiveDeaths := consecutiveDeaths p;
     lastDeathPlatformId := lastDeathPlatformId p |}.

Definition set_angle (v : R) (p : t) : t :=
  {| x := x p; y := y p; width := width p; height := height p;
     dx := dx p; dy := dy p; gravity := gravity p;
     jumpForce := jumpForce p; maxSpeed := maxSpeed p;
     rotationSpeed := rotationSpeed p; onGround := onGround p;
     wasOnGround := wasOnGround p; angle := v; flashTime := flashTime p;
     isDead := isDead p; isRespawning := isRespawning p;
     particles := particles p; lastSafePlatform := lastSafePlatform p;
     respawnX := respawnX p; respawnY := respawnY p;
     consecutiveDeaths := consecutiveDeaths p;
     lastDeathPlatformId := lastDeathPlatformId p |}.

Definition set_flashTime (v : R) (p : t) : t :=
  {| x := x p; y := y p; width := width p; height := height p;
     dx := dx p; dy := dy p; gravity := gravity p;
     jumpForce := jumpForce p; maxSpeed := maxSpeed p;
     rotationSpeed := rotationSpeed p; onGround := onGround p;
     wasOnGround := wasOnGround p; angle := angle p; flashTime := v;
     isDead := isDead p; isRespawning := isRespawning p;
     particles := particles p; lastSafePlatform := lastSafePlatform p;
     respawnX := respawnX p; respawnY := respawnY p;
     consecutiveDeaths := consecutiveDeaths p;
     lastDeathPlatformId := lastDeathPlatformId p |}.

Definition set_onGround (v : bool) (p : t) : t :=
  {| x := x p; y := y p; width := width p; height := height p;
     dx := dx p; dy := dy p; gravity := gravity p;
     jumpForce := jumpForce p; maxSpeed := maxSpeed p;
     rotationSpeed := rotationSpeed p; onGround := v;
     wasOnGround := wasOnGround p; angle := angle p;
     flashTime := flashTime p; isDead := isDead p;
     isRespawning := isRespawning p; particles := particles p;
     lastSafePlatform := lastSafePlatform p; respawnX := respawnX p;
     respawnY := respawnY p; consecutiveDeaths := consecutiveDeaths p;
     lastDeathPlatformId := lastDeathPlatformId p |}.

Definition set_wasOnGround (v : bool) (p : t) : t :=
  {| x := x p; y := y p; width := width p; height := height p;
     dx := dx p; dy := dy p; gravity := gravity p;
     jumpForce := jumpForce p; maxSpeed := maxSpeed p;
     rotationSpeed := rotationSpeed p; onGround := onGround p;
     wasOnGround := v; angle := angle p; flashTime := flashTime p;
     isDead := isDead p; isRespawning := isRespawning p;
     particles := particles p; lastSafePlatform := lastSafePlatform p;
     respawnX := respawnX p; respawnY := respawnY p;
     consecutiveDeaths := consecutiveDeaths p;
     lastDeathPlatformId := lastDeathPlatformId p |}.

Definition set_isDead (v : bool) (p : t) : t :=
  {| x := x p; y := y p; width := width p; height := height p;
     dx := dx p; dy := dy p; gravity := gravity p;
     jumpForce := jumpForce p; maxSpeed := maxSpeed p;
     rotationSpeed := rotationSpeed p; onGround := onGround p;
     wasOnGround := wasOnGround p; angle := angle p;
     flashTime := flashTime p; isDead := v;
     isRespawning := isRespawning p; particles := particles p;
     lastSafePlatform := lastSafePlatform p; respawnX := respawnX p;
     respawnY := respawnY p; consecutiveDeaths := consecutiveDeaths p;
     lastDeathPlatformId := lastDeathPlatformId p |}.

Definition set_particles (v : list Particle.t) (p : t) : t :=
  {| x := x p; y := y p; width := width p; height := height p;
     dx := dx p; dy := dy p; gravity := gravity p;
     jumpForce := jumpForce p; maxSpeed := maxSpeed p;
     rotationSpeed := rotationSpeed p; onGround := onGround p;
     wasOnGround := wasOnGround p; angle := angle p;
     flashTime := flashTime p; isDead := isDead p;
     isRespawning := isRespawning p; particles := v;
     lastSafePlatform := lastSafePlatform p; respawnX := respawnX p;
     respawnY := respawnY p; consecutiveDeaths := consecutiveDeaths p;
     lastDeathPlatformId := lastDeathPlatformId p |}.

Definition set_lastSafePlatform (v : option Platform.t) (p : t) : t :=
  {| x := x p; y := y p; width := width p; height := height p;
     dx := dx p; dy := dy p; gravity := gravity p;
     jumpForce := jumpForce p; maxSpeed := maxSpeed p;
     rotationSpeed := rotationSpeed p; onGround := onGround p;
     wasOnGround := wasOnGround p; angle := angle p;
     flashTime := flashTime p; isDead := isDead p;
     isRespawning := isRespawning p; particles := particles p;
     lastSafePlatform := v; respawnX := respawnX p;
     respawnY := respawnY p; consecutiveDeaths := consecutiveDeaths p;
     lastDeathPlatformId := lastDeathPlatformId p |}.

Definition set_consecutiveDeaths (v : Z) (p : t) : t :=
  {| x := x p; y := y p; width := width p; height := height p;
     dx := dx p; dy := dy p; gravity := gravity p;
     jumpForce := jumpForce p; maxSpeed := maxSpeed p;
     rotationSpeed := rotationSpeed p; onGround := onGround p;
     wasOnGround := wasOnGround p; angle := angle p;
     flashTime := flashTime p; isDead := isDead p;
     isRespawning := isRespawning p; particles := particles p;
     lastSafePlatform := lastSafePlatform p; respawnX := respawnX p;
     respawnY := respawnY p; consecutiveDeaths := v;
     lastDeathPlatformId := lastDeathPlatformId p |}.

Definition set_lastDeathPlatformId (v : Z) (p : t) : t :=
  {| x := x p; y := y p; width := width p; height := height p;
     dx := dx p; dy := dy p; gravity := gravity p;
     jumpForce := jumpForce p; maxSpeed := maxSpeed p;
     rotationSpeed := rotationSpeed p; onGround := onGround p;
     wasOnGround := wasOnGround p; angle := angle p;
     flashTime := flashTime p; isDead := isDead p;
     isRespawning := isRespawning p; particles := particles p;
     lastSafePlatform := lastSafePlatform p; respawnX := respawnX p;
     respawnY := respawnY p; consecutiveDeaths := consecutiveDeaths p;
     lastDeathPlatformId := v |}.

(** [new Player()]. *)
Definition new : t :=
  {| x := 150; y := 100; width := 40; height := 40; dx := 300; dy := 0;
     gravity := 1800; jumpForce := -700; maxSpeed := 300;
     rotationSpeed := 6;
     onGround := false; wasOnGround := false; angle := 0; flashTime := 0;
     isDead := false; isRespawning := false;
     particles := []; lastSafePlatform := None;
     respawnX := 150; respawnY := 100;
     consecutiveDeaths := 0; lastDeathPlatformId := (-1) |}.

(** One particle of [updateParticles]'s [forEach]; [dy] is read for the
    position before gravity is added to it. *)
Definition stepParticle (g dt : R) (q : Particle.t) : Particle.t :=
  {| Particle.x := Particle.x q + Particle.dx q * dt;
     Particle.y := Particle.y q + Particle.dy q * dt;
     Particle.width := Particle.width q;
     Particle.height := Particle.height q;
     Particle.dx := Particle.dx q;
     Particle.dy := Particle.dy q + g * (8 / 10) * dt;
     Particle.angle := Particle.angle q + Particle.angleV q * dt;
     Particle.angleV := Particle.angleV q;
     Particle.life := Particle.life q - dt |}.

(** [updateParticles(dt)]: move every particle, keep those still alive. *)
Definition updateParticles (dt : R) (p : t) : t :=
  set_particles
    (filter (fun q => Js.gtb (Particle.life q) 0)
       (map (stepParticle (gravity p) dt) (particles p)))
    p.

(** [update(dt)]. *)
Definition update (dt : R) (p : t) : t :=
  if (isDead p || isRespawning p)%bool then updateParticles dt p
  else
    let p := set_dy (dy p + gravity p * dt) p in
    let p := set_x (x p + dx p * dt) p in
    let p := set_y (y p + dy p * dt) p in
    let p :=
      if onGround p
      then set_angle (Js.round (angle p / (PI / 2)) * (PI / 2)) p
      else set_angle (angle p + rotationSpeed p * dt) p in
    let p :=
      if Js.gtb (flashTime p) 0
      then set_flashTime (flashTime p - dt * 60) p
      else p in
    let p := set_wasOnGround (onGround p) p in
    let p := set_onGround false p in
    updateParticles dt p.

(** [jump()]: the returned flag and the player afterwards. *)
Definition jump (p : t) : bool * t :=
  if (onGround p && negb (isDead p) && negb (isRespawning p))%bool
  then (true, set_onGround false (set_dy (jumpForce p) p))
  else (false, p).

(** [createExplosion()].  [rnd] is the sequence of values the successive
    calls of [Math.random()] return; the particle of grid cell [(i, j)] is
    the [3 i + j]-th pushed and draws three of them, for [dx], [dy] and
    [angleV] in that order. *)
Definition explosionParticle (rnd : nat -> R) (p : t) (i j : nat)
  : Particle.t :=
  let particleSize := width p / 3 in
  let k := (3 * (3 * i + j))%nat in
  {| Particle.x := x p + INR i * particleSize;
     Particle.y := y p + INR j * particleSize;
     Particle.width := particleSize;
     Particle.height := particleSize;
     Particle.dx := (INR i - 1) * 200 + (rnd k - 5 / 10) * 150;
     Particle.dy :=
       (INR j - 1) * 200 + (rnd (k + 1)%nat - 5 / 10) * 150 - 250;
     Particle.angle := 0;
     Particle.angleV := (rnd (k + 2)%nat - 5 / 10) * 20;
     Particle.life := 1 |}.

Definition createExplosion (rnd : nat -> R) (p : t) : t :=
  set_particles
    (flat_map
       (fun i => map (fun j => explosionParticle rnd p i j) [0; 1; 2]%nat)
       [0; 1; 2]%nat)
    p.

(** [die()]. *)
Definition die (rnd : nat -> R) (p : t) : t :=
  if isDead p then p
  else
    let p := set_isDead true p in
    let p := createExplosion rnd p in
    let samePlatform :=
      match lastSafePlatform p with
      | Some pl => (Platform.id pl =? lastDeathPlatformId p)%Z
      | None => false
      end in
    if samePlatform
    then set_consecutiveDeaths (consecutiveDeaths p + 1)%Z p
    else
      let p := set_consecutiveDeaths 1%Z p in
      set_lastDeathPlatformId
        match lastSafePlatform p with
        | Some pl => Platform.id pl
        | None => (-1)%Z
        end
        p.

(** The three guards of [handlePlatformCollision], as written. *)
Definition landing (p : t) (pl : Platform.t) : bool :=
  (Js.geb (dy p) 0
   && Js.geb (y p + height p) (Platform.y pl)
   && Js.ltb (y p + height p) (Platform.y pl + Platform.height pl))%bool.

Definition ceiling (p : t) (pl : Platform.t) : bool :=
  (Js.ltb (dy p) 0
   && Js.ltb (y p) (Platform.y pl + Platform.height pl)
   && Js.gtb (y p) (Platform.y pl))%bool.

Definition horizontalOverlap (p : t) (pl : Platform.t) : bool :=
  (Js.gtb (x p + width p) (Platform.x pl)
   && Js.ltb (x p) (Platform.x pl + Platform.width pl))%bool.

Definition sideContact (p : t) (pl : Platform.t) : bool :=
  (Js.gtb (dx p) 0
   && Js.geb (x p + width p) (Platform.x pl)
   && Js.gtb (y p + height p) (Platform.y pl)
   && Js.ltb (y p) (Platform.y pl + Platform.height pl))%bool.

(** [handlePlatformCollision(platform)]; [rnd] feeds the explosion of a
    lethal contact. *)
Definition handlePlatformCollision
    (rnd : nat -> R) (pl : Platform.t) (p : t) : bool * t :=
  if landing p pl then
    let p := set_y (Platform.y pl - height p) p in
    let p := set_dy 0 p in
    let p := set_onGround true p in
    let p := set_lastSafePlatform (Some pl) p in
    (true, p)
  else if ceiling p pl then
    let p := set_y (Platform.y pl + Platform.height pl) p in
    let p := set_dy 0 p in
    (true, p)
  else if (horizontalOverlap p pl && sideContact p pl)%bool then
    let ledgeHeight := (y p + height p) - Platform.y pl in
    if (Js.gtb ledgeHeight 0
        && Js.ltb ledgeHeight (height p / 2)
        && Js.geb (dy p) 0)%bool
    then
      let p := set_y (Platform.y pl - height p) p in
      let p := set_dy (-120) p in
      let p := set_onGround true p in
      let p := set_lastSafePlatform (Some pl) p in
      (true, p)
    else (false, die rnd p)
  else (false, p).

(** [handleCollectibleCollision(collectible)]: the flag, the player and
    the collectible afterwards. *)
Definition handleCollectibleCollision (c : Collectible.t) (p : t)
  : bool * t * Collectible.t :=
  if negb (Collectible.active c) then (false, p, c)
  else
    let dist :=
      Js.hypot (x p + width p / 2 - Collectible.x c)
               (y p + height p / 2 - Collectible.y c) in
    if Js.ltb dist (width p / 2 + Collectible.size c)
    then (true, set_flashTime 10 p, Collectible.set_active false c)
    else (false, p, c).

(** *** The remaining methods *)

Definition set_dx (v : R) (p : t) : t :=
  {| x := x p; y := y p; width := width p; height := height p; dx := v;
     dy := dy p; gravity := gravity p; jumpForce := jumpForce p;
     maxSpeed := maxSpeed p; rotationSpeed := rotationSpeed p;
     onGround := onGround p; wasOnGround := wasOnGround p;
     angle := angle p; flashTime := flashTime p; isDead := isDead p;
     isRespawning := isRespawning p; particles := particles p;
     lastSafePlatform := lastSafePlatform p; respawnX := respawnX p;
     respawnY := respawnY p; consecutiveDeaths := consecutiveDeaths p;
     lastDeathPlatformId := lastDeathPlatformId p |}.

Definition set_maxSpeed (v : R) (p : t) : t :=
  {| x := x p; y := y p; width := width p; height := height p; dx := dx p;
     dy := dy p; gravity := gravity p; jumpForce := jumpForce p;
     maxSpeed := v; rotationSpeed := rotationSpeed p;
     onGround := onGround p; wasOnGround := wasOnGround p;
     angle := angle p; flashTime := flashTime p; isDead := isDead p;
     isRespawning := isRespawning p; particles := particles p;
     lastSafePlatform := lastSafePlatform p; respawnX := respawnX p;
     respawnY := respawnY p; consecutiveDeaths := consecutiveDeaths p;
     lastDeathPlatformId := lastDeathPlatformId p |}.

Definition set_isRespawning (v : bool) (p : t) : t :=
  {| x := x p; y := y p; width := width p; height := height p; dx := dx p;
     dy := dy p; gravity := gravity p; jumpForce := jumpForce p;
     maxSpeed := maxSpeed p; rotationSpeed := rotationSpeed p;
     onGround := onGround p; wasOnGround := wasOnGround p;
     angle := angle p; flashTime := flashTime p; isDead := isDead p;
     isRespawning := v; particles := particles p;
     lastSafePlatform := lastSafePlatform p; respawnX := respawnX p;
     respawnY := respawnY p; consecutiveDeaths := consecutiveDeaths p;
     lastDeathPlatformId := lastDeathPlatformId p |}.

Definition set_respawnX (v : R) (p : t) : t :=
  {| x := x p; y := y p; width := width p; height := height p; dx := dx p;
     dy := dy p; gravity := gravity p; jumpForce := jumpForce p;
     maxSpeed := maxSpeed p; rotationSpeed := rotationSpeed p;
     onGround := onGround p; wasOnGround := wasOnGround p;
     angle := angle p; flashTime := flashTime p; isDead := isDead p;
     isRespawning := isRespawning p; particles := particles p;
     lastSafePlatform := lastSafePlatform p; respawnX := v;
     respawnY := respawnY p; consecutiveDeaths := consecutiveDeaths p;
     lastDeathPlatformId := lastDeathPlatformId p |}.

Definition set_respawnY (v : R) (p : t) : t :=
  {| x := x p; y := y p; width := width p; height := height p; dx := dx p;
     dy := dy p; gravity := gravity p; jumpForce := jumpForce p;
     maxSpeed := maxSpeed p; rotationSpeed := rotationSpeed p;
     onGround := onGround p; wasOnGround := wasOnGround p;
     angle := angle p; flashTime := flashTime p; isDead := isDead p;
     isRespawning := isRespawning p; particles := particles p;
     lastSafePlatform := lastSafePlatform p; respawnX := respawnX p;
     respawnY := v; consecutiveDeaths := consecutiveDeaths p;
     lastDeathPlatformId := lastDeathPlatformId p |}.

(** [handleTeleportCollision(teleport)]: an overlap test, nothing is
    written. *)
Definition handleTeleportCollision (tp : Rect.t) (p : t) : bool :=
  (Js.gtb (x p + width p) (Rect.x tp)
   && Js.ltb (x p) (Rect.x tp + Rect.width tp)
   && Js.gtb (y p + height p) (Rect.y tp)
   && Js.ltb (y p) (Rect.y tp + Rect.height tp))%bool.

(** [respawn()]. *)
Definition respawn (p : t) : t :=
  let p := set_isDead false p in
  let p := set_isRespawning false p in
  let p := set_particles [] p in
  let respawnPlatform := lastSafePlatform p in
  let p :=
    if (6 <? consecutiveDeaths p)%Z then set_consecutiveDeaths 0%Z p
    else p in
  let p :=
    match respawnPlatform with
    | None =>
        let p := set_x (respawnX p) p in
        set_y (respawnY p) p
    | Some pl =>
        let p := set_x (Platform.x pl + 20) p in
        set_y (Platform.y pl - height p - 20) p
    end in
  let p := set_dx (maxSpeed p) p in
  let p := set_dy 0 p in
  let p := set_angle 0 p in
  let p := set_onGround false p in
  let p := set_wasOnGround false p in
  set_flashTime 0 p.

(** [reset()]. *)
Definition reset (p : t) : t :=
  let p := set_x (respawnX p) p in
  let p := set_y (respawnY p) p in
  let p := set_dx (maxSpeed p) p in
  let p := set_dy 0 p in
  let p := set_angle 0 p in
  let p := set_onGround false p in
  let p := set_wasOnGround false p in
  let p := set_flashTime 0 p in
  let p := set_isDead false p in
  let p := set_isRespawning false p in
  let p := set_particles [] p in
  let p := set_lastSafePlatform None p in
  let p := set_consecutiveDeaths 0%Z p in
  set_lastDeathPlatformId (-1)%Z p.

(** [setRespawnPosition(x, y)]. *)
Definition setRespawnPosition (x0 y0 : R) (p : t) : t :=
  set_respawnY y0 (set_respawnX x0 p).

(** [setLastSafePlatform(platform)]; [None] stands for [null]. *)
Definition setLastSafePlatform (pl : option Platform.t) (p : t) : t :=
  set_lastSafePlatform pl p.

(** [getBounds()]. *)
Definition getBounds (p : t) : Rect.t :=
  {| Rect.x := x p; Rect.y := y p;
     Rect.width := width p; Rect.height := height p |}.

(** [getCenter()]. *)
Definition getCenter (p : t) : R * R :=
  (x p + width p / 2, y p + height p / 2).

(** [isOnGround()]. *)
Definition isOnGround (p : t) : bool := onGround p.

(** [justLanded()]. *)
Definition justLanded (p : t) : bool :=
  (onGround p && negb (wasOnGround p))%bool.

(** [increaseSpeed(amount)]. *)
Definition increaseSpeed (amount : R) (p : t) : t :=
  let p := set_maxSpeed (maxSpeed p + amount) p in
  set_dx (maxSpeed p) p.

(** [setSpeed(speed)]. *)
Definition setSpeed (speed : R) (p : t) : t :=
  set_dx speed (set_maxSpeed speed p).

(** *** Histories of calls

    A call of one of the player's methods that write to it, with its
    arguments and, where the method draws random numbers, the numbers
    drawn. *)
Inductive call : Type :=
| Update (dt : R)
| Jump
| HandlePlatformCollision (rnd : nat -> R) (pl : Platform.t)
| HandleCollectibleCollision (c : Collectible.t)
| Die (rnd : nat -> R)
| Respawn
| Reset
| SetRespawnPosition (x0 y0 : R)
| SetLastSafePlatform (pl : option Platform.t)
| IncreaseSpeed (amount : R)
| SetSpeed (speed : R).

Definition exec (c : call) (p : t) : t :=
  match c with
  | Update dt => update dt p
  | Jump => snd (jump p)
  | HandlePlatformCollision rnd pl => snd (handlePlatformCollision rnd pl p)
  | HandleCollectibleCollision c => snd (fst (handleCollectibleCollision c p))
  | Die rnd => die rnd p
  | Respawn => respawn p
  | Reset => reset p
  | SetRespawnPosition x0 y0 => setRespawnPosition x0 y0 p
  | SetLastSafePlatform pl => setLastSafePlatform pl p
  | IncreaseSpeed amount => increaseSpeed amount p
  | SetSpeed speed => setSpeed speed p
  end.

Definition run (cs : list call) (p : t) : t :=
  fold_left (fun p c => exec c p) cs p.

(** Frames: [update] once per time step, in order. *)
Definition updates (dts : list R) (p : t) : t :=
  fold_left (fun p dt => update dt p) dts p.

(** The bound the methods keep on the consecutive-death counter. *)
Definition deathsBounded (p : t) : Prop :=
  (0 <= consecutiveDeaths p <= 7)%Z /\
  (isDead p = false -> (consecutiveDeaths p <= 6)%Z).

(** The time a list of steps adds up to. *)
Definition elapsed (dts : list R) : R := fold_right Rplus 0 dts.

End Player.

(** ** The collectible manager *)

Module CollectibleManager.

(** Collectible objects are allocated once and never freed; a reference is
    the allocation index.  A reference held by JavaScript code always
    points at an object, so the out-of-range cases below are never taken
    by a reference that came out of [alloc]. *)
Definition ref : Type := nat.
Definition heap : Type := list Collectible.t.

Definition deref (h : heap) (a : ref) : option Collectible.t :=
  nth_error h a.

Fixpoint store (h : heap) (a : ref) (c : Collectible.t) : heap :=
  match h, a with
  | [], _ => []
  | _ :: h', O => c :: h'
  | c0 :: h', S a' => c0 :: store h' a' c
  end.

Definition alloc (h : heap) (c : Collectible.t) : ref * heap :=
  (List.length h, h ++ [c]).

(** The transient record pushed by [collectItem]. *)
Record CollectionEffect : Type := mkEffect
  { x : R; y : R; value : R; life : R; type : string }.

Record t : Type := mk
  { collectibles : list ref;
    collectedCount : Z;
    totalCount : Z;
    collectionEffects : list CollectionEffect }.

(** A manager together with the heap its references point into. *)
Definition world : Type := (heap * t)%type.

(** [new CollectibleManager()]. *)
Definition new : t :=
  {| collectibles := []; collectedCount := 0; totalCount := 0;
     collectionEffects := [] |}.

(** [addCollectible(x, y, type)]; the new reference is returned. *)
Definition addCollectible (x0 y0 : R) (ty : string) (w : world)
  : ref * world :=
  let '(h, m) := w in
  let '(a, h) := alloc h (Collectible.new x0 y0 ty) in
  (a,
   (h,
    {| collectibles := collectibles m ++ [a];
       collectedCount := collectedCount m;
       totalCount := (totalCount m + 1)%Z;
       collectionEffects := collectionEffects m |})).

(** [addCollectibles(positions, type)]. *)
Definition addCollectibles (positions : list (R * R)) (ty : string)
    (w : world) : world :=
  fold_left
    (fun w pos => snd (addCollectible (fst pos) (snd pos) ty w))
    positions w.

(** [forEach] over references, with a body that only writes to the
    collectible it is handed: [f] is applied in place, in order. *)
Definition forEach (f : Collectible.t -> Collectible.t)
    (l : list ref) (h : heap) : heap :=
  fold_left
    (fun h a =>
       match deref h a with
       | Some c => store h a (f c)
       | None => h
       end)
    l h.

(** [update(dt)]: every collectible is updated in place, then every effect
    ages by [dt] and the expired ones are dropped. *)
Definition update (dt : R) (w : world) : world :=
  let '(h, m) := w in
  let h := forEach (Collectible.update dt) (collectibles m) h in
  (h,
   {| collectibles := collectibles m;
      collectedCount := collectedCount m;
      totalCount := totalCount m;
      collectionEffects :=
        filter (fun e => Js.gtb (life e) 0)
          (map (fun e =>
                  {| x := x e; y := y e; value := value e;
                     life := life e - dt; type := type e |})
             (collectionEffects m)) |}).

(** [collectItem(collectible)]; [now] is the clock read by [collect]. *)
Definition collectItem (now : R) (a : ref) (w : world) : world :=
  let '(h, m) := w in
  match deref h a with
  | None => w
  | Some c =>
      let '(ok, c') := Collectible.collect now c in
      let h := store h a c' in
      if ok then
        (h,
         {| collectibles := collectibles m;
            collectedCount := (collectedCount m + 1)%Z;
            totalCount := totalCount m;
            collectionEffects :=
              collectionEffects m ++
              [ {| x := Collectible.x c'; y := Collectible.y c';
                   value := Collectible.value c'; life := 1;
                   type := Collectible.type c' |} ] |})
      else (h, m)
  end.

(** The body of [checkPlayerCollision]'s [forEach] for one reference.
    The player's check writes to the collectible it is handed, which is
    the very object the manager then passes to [collectItem]. *)
Definition checkOne (now : R) (s : world * Player.t) (a : ref)
  : world * Player.t :=
  let '((h, m), p) := s in
  match deref h a with
  | None => s
  | Some c =>
      if Collectible.active c then
        let '(hit, p, c') := Player.handleCollectibleCollision c p in
        let h := store h a c' in
        if hit then (collectItem now a (h, m), p) else ((h, m), p)
      else s
  end.

(** [checkPlayerCollision(player)]. *)
Definition checkPlayerCollision (now : R) (p : Player.t) (w : world)
  : world * Player.t :=
  fold_left (checkOne now) (collectibles (snd w)) (w, p).

(** [reset()]. *)
Definition reset (w : world) : world :=
  let '(h, m) := w in
  let h :=
    forEach
      (fun c => Collectible.set_collected false
                  (Collectible.set_active true c))
      (collectibles m) h in
  (h,
   {| collectibles := collectibles m;
      collectedCount := 0;
      totalCount := totalCount m;
      collectionEffects := [] |}).

(** [clear()]. *)
Definition clear (w : world) : world :=
  let '(h, m) := w in
  (h, new).

(** [getCollectionProgress()]. *)
Record Progress : Type := mkProgress
  { collected : Z; total : Z; percentage : R }.

Definition getCollectionProgress (m : t) : Progress :=
  {| collected := collectedCount m;
     total := totalCount m;
     percentage :=
       if (0 <? totalCount m)%Z
       then IZR (collectedCount m) / IZR (totalCount m) * 100
       else 0 |}.

(** *** Histories of calls

    A call of one of the manager's methods.  [Collect] takes a reference
    to any collectible that exists, as [collectItem] does. *)
Inductive call : Type :=
| AddCollectible (x0 y0 : R) (ty : string)
| AddCollectibles (positions : list (R * R)) (ty : string)
| Update (dt : R)
| CheckPlayerCollision (now : R) (p : Player.t)
| CollectItem (now : R) (a : ref)
| Reset
| Clear.

Definition exec (c : call) (w : world) : world :=
  match c with
  | AddCollectible x0 y0 ty => snd (addCollectible x0 y0 ty w)
  | AddCollectibles positions ty => addCollectibles positions ty w
  | Update dt => update dt w
  | CheckPlayerCollision now p => fst (checkPlayerCollision now p w)
  | CollectItem now a => collectItem now a w
  | Reset => reset w
  | Clear => clear w
  end.

Definition run (cs : list call) (w : world) : world :=
  fold_left (fun w c => exec c w) cs w.

(** The state right after the constructor: nothing allocated yet. *)
Definition initial : world := ([], new).

(** Every [collectItem] of the history is handed a collectible that the
    manager owns at that moment. *)
Fixpoint collectsOwned (cs : list call) (w : world) : Prop :=
  match cs with
  | [] => True
  | c :: cs' =>
      match c with
      | CollectItem _ a => In a (collectibles (snd w))
      | _ => True
      end /\ collectsOwned cs' (exec c w)
  end.

(** Every [collectItem] of the history is handed a collectible that
    exists. *)
Fixpoint collectsAllocated (cs : list call) (w : world) : Prop :=
  match cs with
  | [] => True
  | c :: cs' =>
      match c with
      | CollectItem _ a => (a < List.length (fst w))%nat
      | _ => True
      end /\ collectsAllocated cs' (exec c w)
  end.

(** The number of owned collectibles whose [collected] flag is set. *)
Definition isCollected (h : heap) (a : ref) : bool :=
  match deref h a with
  | Some c => Collectible.collected c
  | None => false
  end.

Definition ownedCollected (w : world) : Z :=
  Z.of_nat (List.length (filter (isCollected (fst w)) (collectibles (snd w)))).

Definition owned (w : world) : Z :=
  Z.of_nat (List.length (collectibles (snd w))).

(** The bookkeeping invariant of the counters. *)
Definition countsAgree (w : world) : Prop :=
  collectedCount (snd w) = ownedCollected w /\
  totalCount (snd w) = owned w.

(** The owned references are distinct and point into the heap, and the
    counters agree with them. *)
Definition wellFormed (w : world) : Prop :=
  NoDup (collectibles (snd w)) /\
  (forall a, In a (collectibles (snd w)) -> (a < List.length (fst w))%nat) /\
  countsAgree w.

(** [getVisibleCollectibles(cameraBounds)]: the references, in order, of
    the owned collectibles that [isVisible] accepts. *)
Definition getVisibleCollectibles (cameraBounds : CameraBounds.t)
    (w : world) : list ref :=
  filter
    (fun a =>
       match deref (fst w) a with
       | Some c => Collectible.isVisible cameraBounds c
       | None => false
       end)
    (collectibles (snd w)).

(** [generateRandomType()], with [random] the value of [Math.random()].
    The loop walks the two arrays in step, adding each weight to the
    running sum and returning the first type whose running sum reaches
    [random]. *)
Definition randomTypes : list string :=
  [ "pixel"; "gem"; "star"; "powerUp"; "formChange"; "health";
    "speedBoost"; "jumpBoost" ]%string.

Definition randomWeights : list R :=
  [ 4 / 10; 2 / 10; 1 / 10; 1 / 10; 5 / 100; 5 / 100; 5 / 100; 5 / 100 ].

Fixpoint pickType (random cumulativeWeight : R)
    (types : list string) (weights : list R) : string :=
  match types, weights with
  | ty :: types', wt :: weights' =>
      let cumulativeWeight := cumulativeWeight + wt in
      if Js.leb random cumulativeWeight then ty
      else pickType random cumulativeWeight types' weights'
  | _, _ => "pixel"%string
  end.

Definition generateRandomType (random : R) : string :=
  pickType random 0 randomTypes randomWeights.

(** Every [update] of the history has a time step that is not negative. *)
Fixpoint stepsForward (cs : list call) : Prop :=
  match cs with
  | [] => True
  | c :: cs' =>
      match c with
      | Update dt => 0 <= dt
      | _ => True
      end /\ stepsForward cs'
  end.

End CollectibleManager.

(** ** The camera *)

Module Camera.

Record t : Type := mk
  { x : R; y : R; targetX : R; targetY : R;
    smoothness : R; offsetX : R; offsetY : R;
    width : R; height : R; renderBuffer : R }.

(** The parallax table of the constructor. *)
Definition parallaxLayers : list (string * R) :=
  [ ("sky"%string, 0);
    ("clouds"%string, 2 / 100);
    ("distantMountains"%string, 3 / 100);
    ("mountains"%string, 5 / 100);
    ("treesAndBushes"%string, (1 / 10) / 3) ].

(** [new Camera()]. *)
Definition new : t :=
  {| x := 0; y := 0; targetX := 0; targetY := 0;
     smoothness := 5 / 100; offsetX := 0; offsetY := 0;
     width := 0; height := 0; renderBuffer := 0 |}.

(** [update(dt)]. *)
Definition update (dt : R) (c : t) : t :=
  let smoothFactor := 1 - Js.pow (1 - smoothness c) (dt * 60) in
  {| x := x c + (targetX c - x c) * smoothFactor;
     y := y c + (targetY c - y c) * smoothFactor;
     targetX := targetX c; targetY := targetY c;
     smoothness := smoothness c;
     offsetX := offsetX c; offsetY := offsetY c;
     width := width c; height := height c;
     renderBuffer := renderBuffer c |}.

(** [follow(target)], for a target at [(tx, ty)]. *)
Definition follow (tx ty : R) (c : t) : t :=
  {| x := x c; y := y c;
     targetX := tx - offsetX c; targetY := ty - offsetY c;
     smoothness := smoothness c;
     offsetX := offsetX c; offsetY := offsetY c;
     width := width c; height := height c;
     renderBuffer := renderBuffer c |}.

(** [setSmoothness(smoothness)]. *)
Definition setSmoothness (s : R) (c : t) : t :=
  {| x := x c; y := y c; targetX := targetX c; targetY := targetY c;
     smoothness := Rmax 0 (Rmin 1 s);
     offsetX := offsetX c; offsetY := offsetY c;
     width := width c; height := height c;
     renderBuffer := renderBuffer c |}.

(** [getParallaxOffset(layerName)]. *)
Definition getParallaxOffset (layerName : string) (c : t) : R * R :=
  match Js.get parallaxLayers layerName with
  | Some speed => (x c * speed, y c * speed)
  | None => (0, 0)
  end.

(** Successive frames: [update] once per time step, in order. *)
Definition updates (dts : list R) (c : t) : t :=
  fold_left (fun c dt => update dt c) dts c.

(** The camera after the first [k] frames of an unending run whose
    [i]-th frame lasts [dts i]. *)
Definition frames (dts : nat -> R) (k : nat) (c : t) : t :=
  updates (map dts (seq 0 k)) c.

(** [m] lies between [a] and [b], whichever side [b] is on. *)
Definition between (a m b : R) : Prop :=
  (a <= m <= b) \/ (b <= m <= a).

(** [init(canvasWidth, canvasHeight)], for a canvas of non-zero height. *)
Definition init (canvasWidth canvasHeight : R) (c : t) : t :=
  let aspectRatio := canvasWidth / canvasHeight in
  let portrait := Js.ltb aspectRatio 1 in
  {| x := x c; y := y c; targetX := targetX c; targetY := targetY c;
     smoothness := smoothness c;
     offsetX :=
       if portrait then canvasWidth / (28 / 10)
       else canvasWidth / (35 / 10);
     offsetY :=
       if portrait then canvasHeight / (16 / 10)
       else canvasHeight / (18 / 10);
     width := canvasWidth; height := canvasHeight;
     renderBuffer := canvasWidth * (5 / 10) |}.

(** [setPosition(x, y)]. *)
Definition setPosition (x0 y0 : R) (c : t) : t :=
  {| x := x0; y := y0; targetX := x0; targetY := y0;
     smoothness := smoothness c;
     offsetX := offsetX c; offsetY := offsetY c;
     width := width c; height := height c;
     renderBuffer := renderBuffer c |}.

(** [reset()]. *)
Definition reset (c : t) : t := setPosition 0 0 c.

(** [getBounds()]. *)
Definition getBounds (c : t) : CameraBounds.t :=
  {| CameraBounds.left := x c - renderBuffer c;
     CameraBounds.right := x c + width c + renderBuffer c;
     CameraBounds.top := y c - renderBuffer c;
     CameraBounds.bottom := y c + height c + renderBuffer c |}.

(** [isVisible(object)]. *)
Definition isVisible (object : Rect.t) (c : t) : bool :=
  let bounds := getBounds c in
  (Js.gtb (Rect.x object + Rect.width object) (CameraBounds.left bounds)
   && Js.ltb (Rect.x object) (CameraBounds.right bounds)
   && Js.gtb (Rect.y object + Rect.height object) (CameraBounds.top bounds)
   && Js.ltb (Rect.y object) (CameraBounds.bottom bounds))%bool.

(** [screenToWorld(screenX, screenY)] and
    [worldToScreen(worldX, worldY)]. *)
Definition screenToWorld (screenX screenY : R) (c : t) : R * R :=
  (screenX + x c, screenY + y c).

Definition worldToScreen (worldX worldY : R) (c : t) : R * R :=
  (worldX - x c, worldY - y c).

(** [getCenter()]. *)
Definition getCenter (c : t) : R * R :=
  (x c + width c / 2, y c + height c / 2).

(** [getTransform()]. *)
Definition getTransform (c : t) : R * R := (- x c, - y c).

(** [setOffset(offsetX, offsetY)] and [setRenderBuffer(buffer)]. *)
Definition setOffset (ox oy : R) (c : t) : t :=
  {| x := x c; y := y c; targetX := targetX c; targetY := targetY c;
     smoothness := smoothness c;
     offsetX := ox; offsetY := oy;
     width := width c; height := height c;
     renderBuffer := renderBuffer c |}.

Definition setRenderBuffer (buffer : R) (c : t) : t :=
  {| x := x c; y := y c; targetX := targetX c; targetY := targetY c;
     smoothness := smoothness c;
     offsetX := offsetX c; offsetY := offsetY c;
     width := width c; height := height c;
     renderBuffer := buffer |}.

(** The viewport itself: what is on screen. *)
Definition viewport (c : t) : Rect.t :=
  {| Rect.x := x c; Rect.y := y c;
     Rect.width := width c; Rect.height := height c |}.

End Camera.

(** ** The game state machine *)

Module GameState.

(** The values of the enumeration. *)
Definition MAIN_MENU : string := "mainMenu".
Definition PLAYING : string := "playing".
Definition PAUSED : string := "paused".
Definition DEAD : string := "dead".
Definition LEVEL_COMPLETE : string := "levelComplete".
Definition LEVEL_READY : string := "levelReady".
Definition ENTERING_PORTAL : string := "enteringPortal".
Definition EXITING : string := "exiting".

(** [this.states]: enumeration name to value. *)
Definition states : list (string * string) :=
  [ ("MAIN_MENU"%string, MAIN_MENU);
    ("PLAYING"%string, PLAYING);
    ("PAUSED"%string, PAUSED);
    ("DEAD"%string, DEAD);
    ("LEVEL_COMPLETE"%string, LEVEL_COMPLETE);
    ("LEVEL_READY"%string, LEVEL_READY);
    ("ENTERING_PORTAL"%string, ENTERING_PORTAL);
    ("EXITING"%string, EXITING) ].

Record Stats : Type := mkStats
  { score : R; currentLevel : Z; totalDeaths : Z; levelDeaths : Z;
    pixelsCollected : Z; totalPixelsInLevel : Z; levelStartTime : R;
    consecutiveDeaths : Z }.

Record t : Type := mk
  { currentState : string; stats : Stats;
    timeScale : R; timeScaleTarget : R }.

(** [new GameState()]. *)
Definition new : t :=
  {| currentState := MAIN_MENU;
     stats :=
       {| score := 0; currentLevel := 1; totalDeaths := 0;
          levelDeaths := 0; pixelsCollected := 0;
          totalPixelsInLevel := 0; levelStartTime := 0;
          consecutiveDeaths := 0 |};
     timeScale := 1; timeScaleTarget := 1 |}.

Definition set_currentState (s : string) (g : t) : t :=
  {| currentState := s; stats := stats g;
     timeScale := timeScale g; timeScaleTarget := timeScaleTarget g |}.

Definition set_timeScaleTarget (v : R) (g : t) : t :=
  {| currentState := currentState g; stats := stats g;
     timeScale := timeScale g; timeScaleTarget := v |}.

Definition set_timeScale (v : R) (g : t) : t :=
  {| currentState := currentState g; stats := stats g;
     timeScale := v; timeScaleTarget := timeScaleTarget g |}.

Definition set_stats (s : Stats) (g : t) : t :=
  {| currentState := currentState g; stats := s;
     timeScale := timeScale g; timeScaleTarget := timeScaleTarget g |}.

(** The three increments of the [DEAD] case. *)
Definition countDeath (s : Stats) : Stats :=
  {| score := score s; currentLevel := currentLevel s;
     totalDeaths := (totalDeaths s + 1)%Z;
     levelDeaths := (levelDeaths s + 1)%Z;
     pixelsCollected := pixelsCollected s;
     totalPixelsInLevel := totalPixelsInLevel s;
     levelStartTime := levelStartTime s;
     consecutiveDeaths := (consecutiveDeaths s + 1)%Z |}.

Definition set_levelStartTime (v : R) (s : Stats) : Stats :=
  {| score := score s; currentLevel := currentLevel s;
     totalDeaths := totalDeaths s; levelDeaths := levelDeaths s;
     pixelsCollected := pixelsCollected s;
     totalPixelsInLevel := totalPixelsInLevel s;
     levelStartTime := v;
     consecutiveDeaths := consecutiveDeaths s |}.

(** [handleStateChange()]: a [switch] on [currentState], compared with
    [===]; [now] is the reading of [performance.now()]. *)
Definition handleStateChange (now : R) (g : t) : t :=
  if String.eqb (currentState g) PLAYING then set_timeScaleTarget 1 g
  else if String.eqb (currentState g) PAUSED then set_timeScaleTarget 0 g
  else if String.eqb (currentState g) DEAD
    then set_stats (countDeath (stats g)) g
  else if String.eqb (currentState g) LEVEL_COMPLETE
    then set_timeScaleTarget 0 g
  else if String.eqb (currentState g) LEVEL_READY
    then
      let g := set_timeScaleTarget 1 g in
      set_stats (set_levelStartTime now (stats g)) g
  else g.

(** A string is truthy unless it is empty. *)
Definition truthy (s : string) : bool :=
  match s with
  | EmptyString => false
  | String _ _ => true
  end.

(** [setGameState(state)].  The name is looked up in upper case; no
    property that an object literal inherits has an upper-case name, so
    only the eight own properties of [this.states] can be found. *)
Definition setGameState (now : R) (state : string) (g : t) : t :=
  let g :=
    match Js.get states (Js.toUpperCase state) with
    | Some v =>
        if truthy v then set_currentState v g
        else set_currentState state g
    | None => set_currentState state g
    end in
  handleStateChange now g.

(** [update(dt)]: ease the time scale towards its target. *)
Definition update (dt : R) (g : t) : t :=
  let timeScaleDiff := timeScaleTarget g - timeScale g in
  if Js.gtb (Rabs timeScaleDiff) (1 / 100)
  then set_timeScale (timeScale g + timeScaleDiff * (1 / 10)) g
  else if Req_dec_T (timeScale g) (timeScaleTarget g) then g
  else set_timeScale (timeScaleTarget g) g.

(** *** Letter-case variants

    Two characters are the same letter when they are equal or when one is
    a lower-case ASCII letter and the other its capital. *)
Definition isLower (c : ascii) : bool :=
  (Nat.leb 97 (nat_of_ascii c) && Nat.leb (nat_of_ascii c) 122)%bool.

Definition isUpper (c : ascii) : bool :=
  (Nat.leb 65 (nat_of_ascii c) && Nat.leb (nat_of_ascii c) 90)%bool.

Definition sameLetter (a b : ascii) : bool :=
  (Ascii.eqb a b
   || (isLower a && Nat.eqb (nat_of_ascii b) (nat_of_ascii a - 32))
   || (isUpper a && Nat.eqb (nat_of_ascii b) (nat_of_ascii a + 32)))%bool.

(** [s] spells [k] up to the case of its letters. *)
Fixpoint caseVariant (s k : string) : bool :=
  match s, k with
  | EmptyString, EmptyString => true
  | String a s', String b k' => (sameLetter a b && caseVariant s' k')%bool
  | _, _ => false
  end.

(** *** The remaining methods *)

(** [isInState(state)], [isActive()], [isPaused()], [isDead()],
    [isLevelComplete()]. *)
Definition isInState (state : string) (g : t) : bool :=
  String.eqb (currentState g) state.

Definition isActive (g : t) : bool := String.eqb (currentState g) PLAYING.
Definition isPaused (g : t) : bool := String.eqb (currentState g) PAUSED.
Definition isDead (g : t) : bool := String.eqb (currentState g) DEAD.
Definition isLevelComplete (g : t) : bool :=
  String.eqb (currentState g) LEVEL_COMPLETE.

(** [getScaledDeltaTime(dt)]. *)
Definition getScaledDeltaTime (dt : R) (g : t) : R := dt * timeScale g.

(** [resetLevelStats()]. *)
Definition resetLevelStats (g : t) : t :=
  set_stats
    {| score := score (stats g); currentLevel := currentLevel (stats g);
       totalDeaths := totalDeaths (stats g);
       levelDeaths := 0;
       pixelsCollected := 0;
       totalPixelsInLevel := totalPixelsInLevel (stats g);
       levelStartTime := 0;
       consecutiveDeaths := 0 |}
    g.

(** [addScore(points)]. *)
Definition addScore (points : R) (g : t) : t :=
  set_stats
    {| score := score (stats g) + points;
       currentLevel := currentLevel (stats g);
       totalDeaths := totalDeaths (stats g);
       levelDeaths := levelDeaths (stats g);
       pixelsCollected := pixelsCollected (stats g);
       totalPixelsInLevel := totalPixelsInLevel (stats g);
       levelStartTime := levelStartTime (stats g);
       consecutiveDeaths := consecutiveDeaths (stats g) |}
    g.

(** [setLevel(level)] and [nextLevel()]. *)
Definition setLevel (level : Z) (g : t) : t :=
  set_stats
    {| score := score (stats g);
       currentLevel := level;
       totalDeaths := totalDeaths (stats g);
       levelDeaths := levelDeaths (stats g);
       pixelsCollected := pixelsCollected (stats g);
       totalPixelsInLevel := totalPixelsInLevel (stats g);
       levelStartTime := levelStartTime (stats g);
       consecutiveDeaths := consecutiveDeaths (stats g) |}
    g.

Definition nextLevel (g : t) : t :=
  setLevel (currentLevel (stats g) + 1)%Z g.

(** [addCollectedPixel()] and [setTotalPixelsInLevel(total)]. *)
Definition addCollectedPixel (g : t) : t :=
  set_stats
    {| score := score (stats g);
       currentLevel := currentLevel (stats g);
       totalDeaths := totalDeaths (stats g);
       levelDeaths := levelDeaths (stats g);
       pixelsCollected := (pixelsCollected (stats g) + 1)%Z;
       totalPixelsInLevel := totalPixelsInLevel (stats g);
       levelStartTime := levelStartTime (stats g);
       consecutiveDeaths := consecutiveDeaths (stats g) |}
    g.

Definition setTotalPixelsInLevel (total : Z) (g : t) : t :=
  set_stats
    {| score := score (stats g);
       currentLevel := currentLevel (stats g);
       totalDeaths := totalDeaths (stats g);
       levelDeaths := levelDeaths (stats g);
       pixelsCollected := pixelsCollected (stats g);
       totalPixelsInLevel := total;
       levelStartTime := levelStartTime (stats g);
       consecutiveDeaths := consecutiveDeaths (stats g) |}
    g.

(** [getLevelCompletionPercentage()]. *)
Definition getLevelCompletionPercentage (g : t) : R :=
  if (totalPixelsInLevel (stats g) =? 0)%Z then 0
  else
    IZR (pixelsCollected (stats g)) / IZR (totalPixelsInLevel (stats g))
    * 100.

(** [getLevelTime()], with [now] the reading of [performance.now()]. *)
Definition getLevelTime (now : R) (g : t) : R :=
  if Req_dec_T (levelStartTime (stats g)) 0 then 0
  else (now - levelStartTime (stats g)) / 1000.

(** [isPerfectLevel()]. *)
Definition isPerfectLevel (g : t) : bool :=
  (levelDeaths (stats g) =? 0)%Z.

(** [resetConsecutiveDeaths()]. *)
Definition resetConsecutiveDeaths (g : t) : t :=
  set_stats
    {| score := score (stats g);
       currentLevel := currentLevel (stats g);
       totalDeaths := totalDeaths (stats g);
       levelDeaths := levelDeaths (stats g);
       pixelsCollected := pixelsCollected (stats g);
       totalPixelsInLevel := totalPixelsInLevel (stats g);
       levelStartTime := levelStartTime (stats g);
       consecutiveDeaths := 0 |}
    g.

(** [resetAllStats()]. *)
Definition resetAllStats (g : t) : t := set_stats (stats new) g.

(** What every reachable state satisfies: the target is 0 or 1, the time
    scale is in [0,1], and the death counters are nested. *)
Definition consistent (g : t) : Prop :=
  (timeScaleTarget g = 0 \/ timeScaleTarget g = 1) /\
  0 <= timeScale g <= 1 /\
  (0 <= consecutiveDeaths (stats g) <= levelDeaths (stats g))%Z /\
  (levelDeaths (stats g) <= totalDeaths (stats g))%Z /\
  (0 <= pixelsCollected (stats g))%Z.

(** The gap that [update] closes. *)
Definition gap (g : t) : R := timeScaleTarget g - timeScale g.

(** *** Histories of calls *)
Inductive call : Type :=
| SetGameState (now : R) (state : string)
| Update (dt : R)
| ResetLevelStats
| AddScore (points : R)
| SetLevel (level : Z)
| NextLevel
| AddCollectedPixel
| SetTotalPixelsInLevel (total : Z)
| ResetConsecutiveDeaths
| ResetAllStats.

Definition exec (c : call) (g : t) : t :=
  match c with
  | SetGameState now state => setGameState now state g
  | Update dt => update dt g
  | ResetLevelStats => resetLevelStats g
  | AddScore points => addScore points g
  | SetLevel level => setLevel level g
  | NextLevel => nextLevel g
  | AddCollectedPixel => addCollectedPixel g
  | SetTotalPixelsInLevel total => setTotalPixelsInLevel total g
  | ResetConsecutiveDeaths => resetConsecutiveDeaths g
  | ResetAllStats => resetAllStats g
  end.

Definition run (cs : list call) (g : t) : t :=
  fold_left (fun g c => exec c g) cs g.

(** Frames: [update] once per time step, in order. *)
Definition updates (dts : list R) (g : t) : t :=
  fold_left (fun g dt => update dt g) dts g.

End GameState.

(** ** Concrete situations used by the examples below *)

Module Scenario.

(** A player with a running flash timer, as two frames after a pickup. *)
Definition flashingPlayer : Player.t :=
  Player.set_flashTime 4 Player.new.

(** A player killed by a first explosion, particles still in flight. *)
Definition deadPlayer : Player.t :=
  Player.die (fun _ => 5 / 10) Player.new.

(** A standing player. *)
Definition groundedPlayer : Player.t :=
  Player.set_onGround true Player.new.

(** A thin platform ahead of the freshly constructed player. *)
Definition thinPlatform : Platform.t :=
  {| Platform.x := 180; Platform.y := 100;
     Platform.width := 100; Platform.height := 10; Platform.id := 7 |}.



(** A player who last stood on the thin platform. *)
Definition checkpointPlayer : Player.t :=
  Player.set_lastSafePlatform (Some thinPlatform) Player.new.

(** A manager owning one pixel placed at the centre of the freshly
    constructed player. *)
Definition onePixel : CollectibleManager.world :=
  snd (CollectibleManager.addCollectible 170 120 "pixel"
         CollectibleManager.initial).

(** A collectible is added and the level cleared; a second one is added;
    then both are handed to [collectItem]. *)
Definition staleCollect : list CollectibleManager.call :=
  [ CollectibleManager.AddCollectible 0 0 "pixel";
    CollectibleManager.Clear;
    CollectibleManager.AddCollectible 50 0 "pixel";
    CollectibleManager.CollectItem 0 0%nat;
    CollectibleManager.CollectItem 0 1%nat ].

(** Two collectibles are added and the first is collected. *)
Definition ownedCollect : list CollectibleManager.call :=
  [ CollectibleManager.AddCollectible 0 0 "pixel";
    CollectibleManager.AddCollectible 50 0 "gem";
    CollectibleManager.CollectItem 0 0%nat ].

(** A camera at the origin chasing a target at [(100, -40)]. *)
Definition chasingCamera : Camera.t :=
  Camera.follow 100 (-40) Camera.new.

(** A player dropping onto the thin platform, its bottom edge 4 units
    into it. *)
Definition fallingPlayer : Player.t :=
  Player.set_dy 500 (Player.set_y 64 Player.new).

(** A player whose bottom edge is exactly on the thin platform's top. *)
Definition standingPlayer : Player.t :=
  Player.set_y 60 Player.new.

(** A gem is added and collected, and a fifth of a second passes. *)
Definition collectThenWait : list CollectibleManager.call :=
  [ CollectibleManager.AddCollectible 10 20 "gem";
    CollectibleManager.CollectItem 0 0%nat;
    CollectibleManager.Update (2 / 10) ].

(** A teleport overlapping the lower right part of the new player. *)
Definition nearTeleport : Rect.t :=
  {| Rect.x := 170; Rect.y := 120; Rect.width := 50; Rect.height := 80 |}.

(** A camera initialised for an 800 by 600 canvas. *)
Definition landscapeCamera : Camera.t :=
  Camera.init 800 600 Camera.new.

(** The chasing camera with its smoothness set to 0. *)
Definition frozenCamera : Camera.t :=
  Camera.follow 100 (-40) (Camera.setSmoothness 0 Camera.new).

End Scenario.

(** * Properties *)

(** ** Comparisons *)

Lemma ltb_true_iff (a b : R) : Js.ltb a b = true <-> a < b.
Proof.
  unfold Js.ltb; destruct (Rlt_dec a b); split; intros; auto; discriminate.
Qed.

Lemma ltb_false_iff (a b : R) : Js.ltb a b = false <-> b <= a.
Proof.
  unfold Js.ltb; destruct (Rlt_dec a b); split; intros;
    auto; try discriminate; lra.
Qed.

Lemma leb_true_iff (a b : R) : Js.leb a b = true <-> a <= b.
Proof.
  unfold Js.leb; destruct (Rle_dec a b); split; intros; auto; discriminate.
Qed.

Lemma leb_false_iff (a b : R) : Js.leb a b = false <-> b < a.
Proof.
  unfold Js.leb; destruct (Rle_dec a b); split; intros;
    auto; try discriminate; lra.
Qed.

(** Settle every comparison of the goal whose outcome linear arithmetic
    decides. *)
Ltac js_compare :=
  unfold Js.gtb, Js.geb;
  repeat match goal with
    | |- context [Js.ltb ?a ?b] =>
        first [ rewrite (proj2 (ltb_true_iff a b)) by (simpl; lra)
              | rewrite (proj2 (ltb_false_iff a b)) by (simpl; lra) ]
    | |- context [Js.leb ?a ?b] =>
        first [ rewrite (proj2 (leb_true_iff a b)) by (simpl; lra)
              | rewrite (proj2 (leb_false_iff a b)) by (simpl; lra) ]
    end.

(** ** The player *)

Section PlayerProperties.

(** C3. [jump()] returns true exactly when the player is grounded, not
    dead and not respawning.  A successful jump sets [dy] to the jump
    force, clears [onGround] and writes nothing else; a failed jump leaves
    the player as it was. *)
Theorem jump_iff_ready (p : Player.t) :
  (fst (Player.jump p) = true <->
     Player.onGround p = true /\
     Player.isDead p = false /\
     Player.isRespawning p = false) /\
  (fst (Player.jump p) = true ->
     Player.dy (snd (Player.jump p)) = Player.jumpForce p /\
     Player.onGround (snd (Player.jump p)) = false /\
     snd (Player.jump p) =
       Player.set_onGround false (Player.set_dy (Player.jumpForce p) p)) /\
  (fst (Player.jump p) = false -> snd (Player.jump p) = p).
Proof.
  unfold Player.jump.
  destruct (Player.onGround p), (Player.isDead p), (Player.isRespawning p);
    simpl; repeat split; intros; try discriminate; try tauto;
    repeat match goal with H : _ /\ _ |- _ => destruct H end;
    discriminate.
Qed.

(** While the player is dead or respawning, [update] is
    [updateParticles]. *)
Lemma update_when_down (dt : R) (p : Player.t) :
  Player.isDead p = true \/ Player.isRespawning p = true ->
  Player.update dt p = Player.updateParticles dt p.
Proof.
  intros [H | H]; unfold Player.update; rewrite H; simpl;
    try reflexivity.
  destruct (Player.isDead p); reflexivity.
Qed.

(** C4. For a dead or respawning player and any [dt >= 0], [update(dt)]
    leaves position, velocity, angle, flash timer and both grounded flags
    as they were: the player afterwards is the player before with only
    its particle list replaced, by the surviving stepped particles. *)
Theorem update_down_only_particles (dt : R) (p : Player.t) :
  0 <= dt ->
  Player.isDead p = true \/ Player.isRespawning p = true ->
  let p' := Player.update dt p in
  Player.x p' = Player.x p /\ Player.y p' = Player.y p /\
  Player.dx p' = Player.dx p /\ Player.dy p' = Player.dy p /\
  Player.angle p' = Player.angle p /\
  Player.flashTime p' = Player.flashTime p /\
  Player.onGround p' = Player.onGround p /\
  Player.wasOnGround p' = Player.wasOnGround p /\
  p' = Player.set_particles (Player.particles p') p /\
  Player.particles p' =
    filter (fun q => Js.gtb (Particle.life q) 0)
      (map (Player.stepParticle (Player.gravity p) dt)
         (Player.particles p)).
Proof.
  intros _ Hdown p'; subst p'.
  rewrite (update_when_down dt p Hdown).
  unfold Player.updateParticles; simpl.
  repeat split; reflexivity.
Qed.

(** The guard of [die()]. *)
Lemma die_dead (rnd : nat -> R) (p : Player.t) :
  Player.isDead p = true -> Player.die rnd p = p.
Proof. intros H; unfold Player.die; rewrite H; reflexivity. Qed.

(** C5. [die()] on a player whose dead flag is set changes nothing: the
    player, and so its particles, its consecutive-death counter and its
    last-death platform id, are what they were. *)
Theorem die_when_dead_is_noop (rnd : nat -> R) (p : Player.t) :
  Player.isDead p = true ->
  Player.die rnd p = p /\
  Player.particles (Player.die rnd p) = Player.particles p /\
  Player.consecutiveDeaths (Player.die rnd p) =
    Player.consecutiveDeaths p /\
  Player.lastDeathPlatformId (Player.die rnd p) =
    Player.lastDeathPlatformId p.
Proof.
  intros H. rewrite (die_dead rnd p H). repeat split; reflexivity.
Qed.

(** After [die()] the dead flag is set, whatever the player was. *)
Lemma die_sets_dead (rnd : nat -> R) (p : Player.t) :
  Player.isDead (Player.die rnd p) = true.
Proof.
  unfold Player.die.
  destruct (Player.isDead p) eqn:E; [exact E |].
  simpl.
  destruct (Player.lastSafePlatform p) as [pl |]; simpl;
    [destruct (Platform.id pl =? Player.lastDeathPlatformId p)%Z |];
    reflexivity.
Qed.

(** A second [die()] right after a first does nothing, whatever random
    numbers it would have drawn. *)
Lemma die_twice (rnd rnd' : nat -> R) (p : Player.t) :
  Player.die rnd' (Player.die rnd p) = Player.die rnd p.
Proof.
  apply die_dead. apply die_sets_dead.
Qed.

(** A death that takes effect throws nine particles of unit life. *)
Lemma die_explodes (rnd : nat -> R) (p : Player.t) :
  Player.isDead p = false ->
  List.length (Player.particles (Player.die rnd p)) = 9%nat /\
  Forall (fun q => Particle.life q = 1)
    (Player.particles (Player.die rnd p)).
Proof.
  intros H; unfold Player.die; rewrite H; simpl.
  destruct (Player.lastSafePlatform p) as [pl |]; simpl;
    [destruct (Platform.id pl =? Player.lastDeathPlatformId p)%Z |];
    simpl; (split; [reflexivity | repeat constructor]).
Qed.

(** C6. When [die()] takes effect on a living player: with a last safe
    platform whose id is the recorded last-death platform id, the
    consecutive-death counter goes up by one and the recorded id stays;
    with a last safe platform of another id, the counter becomes 1 and
    that id is recorded; with no last safe platform, the counter becomes 1
    and the id -1 is recorded. *)
Theorem die_counts_consecutive (rnd : nat -> R) (p : Player.t) :
  Player.isDead p = false ->
  let p' := Player.die rnd p in
  Player.isDead p' = true /\
  (forall pl,
      Player.lastSafePlatform p = Some pl ->
      Platform.id pl = Player.lastDeathPlatformId p ->
      Player.consecutiveDeaths p' = (Player.consecutiveDeaths p + 1)%Z /\
      Player.lastDeathPlatformId p' = Player.lastDeathPlatformId p) /\
  (forall pl,
      Player.lastSafePlatform p = Some pl ->
      Platform.id pl <> Player.lastDeathPlatformId p ->
      Player.consecutiveDeaths p' = 1%Z /\
      Player.lastDeathPlatformId p' = Platform.id pl) /\
  (Player.lastSafePlatform p = None ->
      Player.consecutiveDeaths p' = 1%Z /\
      Player.lastDeathPlatformId p' = (-1)%Z).
Proof.
  intros H p'; subst p'.
  split; [apply die_sets_dead |].
  unfold Player.die; rewrite H; simpl.
  repeat split; intros; rewrite ?H0;
    try rewrite (proj2 (Z.eqb_eq _ _) H1);
    try rewrite (proj2 (Z.eqb_neq _ _) H1);
    simpl; rewrite ?H0; reflexivity.
Qed.

(** C9, as the code has it. For [dt >= 0] and a living, non-respawning
    player: a flash timer [f > 0] becomes [f - 60 dt], which is negative
    exactly when [60 dt > f], since [update] does not clamp; a flash
    timer at or below 0 is left as it is. *)
Theorem flash_decays_unclamped (dt : R) (p : Player.t) :
  0 <= dt ->
  Player.isDead p = false ->
  Player.isRespawning p = false ->
  (0 < Player.flashTime p ->
     Player.flashTime (Player.update dt p) = Player.flashTime p - 60 * dt /\
     (0 <= Player.flashTime (Player.update dt p) <->
        60 * dt <= Player.flashTime p)) /\
  (Player.flashTime p <= 0 ->
     Player.flashTime (Player.update dt p) = Player.flashTime p).
Proof.
  intros Hdt Hd Hr.
  assert (Hrun : 0 < Player.flashTime p ->
            Player.flashTime (Player.update dt p) =
            Player.flashTime p - 60 * dt).
  { intros Hf. unfold Player.update; rewrite Hd, Hr; simpl.
    destruct (Player.onGround p); simpl; js_compare; simpl; lra. }
  split; intros Hf.
  - rewrite (Hrun Hf). split; [reflexivity | lra].
  - unfold Player.update; rewrite Hd, Hr; simpl.
    destruct (Player.onGround p); simpl; js_compare; reflexivity.
Qed.


End PlayerProperties.

(** *** Instances *)

Lemma jump_iff_ready_witness :
  fst (Player.jump Scenario.groundedPlayer) = true /\
  Player.dy (snd (Player.jump Scenario.groundedPlayer)) = -700 /\
  Player.onGround (snd (Player.jump Scenario.groundedPlayer)) = false.
Proof.
  destruct (jump_iff_ready Scenario.groundedPlayer) as (Hiff & Hok & _).
  assert (Hjump : fst (Player.jump Scenario.groundedPlayer) = true)
    by (apply Hiff; repeat split; reflexivity).
  destruct (Hok Hjump) as (Hdy & Hground & _).
  split; [exact Hjump |].
  split; [exact Hdy | exact Hground].
Defined.

Lemma update_down_only_particles_witness :
  let p' := Player.update (1 / 60) Scenario.deadPlayer in
  Player.x p' = Player.x Scenario.deadPlayer /\
  Player.dy p' = Player.dy Scenario.deadPlayer /\
  p' = Player.set_particles (Player.particles p') Scenario.deadPlayer.
Proof.
  assert (Hdt : 0 <= 1 / 60) by lra.
  assert (Hdown : Player.isDead Scenario.deadPlayer = true \/
                  Player.isRespawning Scenario.deadPlayer = true)
    by (left; reflexivity).
  pose proof (update_down_only_particles (1 / 60) Scenario.deadPlayer
                Hdt Hdown) as H.
  cbv zeta in H. cbv zeta.
  repeat split; apply H.
Defined.

Lemma die_when_dead_is_noop_witness :
  Player.die (fun _ => 0) Scenario.deadPlayer = Scenario.deadPlayer.
Proof.
  apply (die_when_dead_is_noop (fun _ => 0) Scenario.deadPlayer).
  reflexivity.
Defined.

Lemma die_counts_consecutive_witness :
  Player.consecutiveDeaths
    (Player.die (fun _ => 0) Scenario.checkpointPlayer) = 1%Z /\
  Player.lastDeathPlatformId
    (Player.die (fun _ => 0) Scenario.checkpointPlayer) = 7%Z.
Proof.
  assert (Halive : Player.isDead Scenario.checkpointPlayer = false)
    by reflexivity.
  pose proof (die_counts_consecutive (fun _ => 0) Scenario.checkpointPlayer
                Halive) as H.
  cbv zeta in H.
  destruct H as [_ [_ [H _]]].
  apply (H Scenario.thinPlatform); [reflexivity |].
  simpl. lia.
Defined.

Lemma flash_decays_unclamped_witness :
  Player.flashTime (Player.update (1 / 60) Scenario.flashingPlayer) =
    Player.flashTime Scenario.flashingPlayer - 60 * (1 / 60).
Proof.
  assert (Hdt : 0 <= 1 / 60) by lra.
  apply (flash_decays_unclamped (1 / 60) Scenario.flashingPlayer Hdt);
    [reflexivity | reflexivity |].
  simpl. lra.
Defined.

(** C9, as stated, fails: a living player with a flash timer of 4 that is
    updated with [dt = 1/10] ends with a flash timer of -2. *)
Lemma flash_goes_below_zero :
  0 <= 1 / 10 /\
  Player.isDead Scenario.flashingPlayer = false /\
  Player.isRespawning Scenario.flashingPlayer = false /\
  0 < Player.flashTime Scenario.flashingPlayer /\
  Player.flashTime (Player.update (1 / 10) Scenario.flashingPlayer) = -2 /\
  ~ 0 <= Player.flashTime (Player.update (1 / 10) Scenario.flashingPlayer).
Proof.
  assert (E : Player.flashTime
                (Player.update (1 / 10) Scenario.flashingPlayer) = -2).
  { unfold Player.update; simpl. js_compare. simpl. lra. }
  rewrite E.
  repeat split; simpl; try reflexivity; lra.
Qed.


(** ** The camera *)

Section CameraProperties.

(** [setSmoothness] clamps: whatever it is given, the smoothness it stores
    lies in [0,1], as does the constructor's 0.05. *)
Lemma setSmoothness_unit_interval (s : R) (c : Camera.t) :
  0 <= Camera.smoothness (Camera.setSmoothness s c) <= 1.
Proof.
  simpl. unfold Rmax, Rmin.
  destruct (Rle_dec 1 s); destruct (Rle_dec 0 _); lra.
Qed.

(** A base in [0,1] raised to a positive power stays in [0,1]. *)
Lemma pow_unit_interval (b e : R) :
  0 <= b <= 1 -> 0 < e -> 0 <= Js.pow b e <= 1.
Proof.
  intros [Hb0 Hb1] He. unfold Js.pow.
  destruct (Req_dec_T e 0) as [E | _]; [lra |].
  destruct (Req_dec_T b 0) as [_ | Hb]; [lra |].
  assert (Hpos : 0 < b) by lra.
  unfold Rpower. split; [left; apply exp_pos |].
  assert (Hln : ln b <= 0).
  { destruct (Req_dec_T b 1) as [-> | Hne].
    - rewrite ln_1; lra.
    - left. rewrite <- ln_1. apply ln_increasing; lra. }
  rewrite <- exp_0.
  destruct (Req_dec_T (e * ln b) 0) as [-> | Hne]; [lra |].
  left. apply exp_increasing. nra.
Qed.

(** A base in [0,1) raised to a positive power stays below 1. *)
Lemma pow_below_one (b e : R) :
  0 <= b < 1 -> 0 < e -> Js.pow b e < 1.
Proof.
  intros [Hb0 Hb1] He. unfold Js.pow.
  destruct (Req_dec_T e 0) as [E | _]; [lra |].
  destruct (Req_dec_T b 0) as [_ | Hb]; [lra |].
  unfold Rpower. rewrite <- exp_0. apply exp_increasing.
  assert (ln b < 0) by (rewrite <- ln_1; apply ln_increasing; lra).
  nra.
Qed.

(** Moving a fraction [1 - q] of the way from [a] to [t], [q] in [0,1],
    ends between [a] and [t], and between any [a0] and [t] that [a] was
    between. *)
Lemma blend_between (a0 a t q : R) :
  0 <= q <= 1 ->
  Camera.between a0 a t ->
  Camera.between a (a + (t - a) * (1 - q)) t /\
  Camera.between a0 (a + (t - a) * (1 - q)) t /\
  Rabs (t - (a + (t - a) * (1 - q))) <= Rabs (t - a).
Proof.
  intros Hq Hb. unfold Camera.between in *.
  replace (t - (a + (t - a) * (1 - q))) with ((t - a) * q) by ring.
  destruct (Rle_dec a t) as [Hat | Hat].
  - assert (0 <= (t - a) * q <= t - a) by nra.
    rewrite !Rabs_pos_eq by lra.
    repeat split; [left | destruct Hb as [Hb | Hb]; [left | right] |];
      nra.
  - assert (t - a <= (t - a) * q <= 0) by nra.
    rewrite !Rabs_left1 by lra.
    repeat split; [right | destruct Hb as [Hb | Hb]; [left | right] |];
      nra.
Qed.

Lemma between_refl_left (a t : R) : Camera.between a a t.
Proof.
  unfold Camera.between. destruct (Rle_dec a t); [left | right]; lra.
Qed.

Lemma updates_snoc (dts : list R) (dt : R) (c : Camera.t) :
  Camera.updates (dts ++ [dt]) c = Camera.update dt (Camera.updates dts c).
Proof. unfold Camera.updates. rewrite fold_left_app. reflexivity. Qed.

(** Frames against a target that nobody moves: the target and the
    smoothness are kept, and the position stays between where the camera
    started and the target. *)
Lemma updates_stay_between (dts : list R) (c : Camera.t) :
  0 <= Camera.smoothness c <= 1 ->
  Forall (fun dt => 0 < dt) dts ->
  Camera.targetX (Camera.updates dts c) = Camera.targetX c /\
  Camera.targetY (Camera.updates dts c) = Camera.targetY c /\
  Camera.smoothness (Camera.updates dts c) = Camera.smoothness c /\
  Camera.between (Camera.x c) (Camera.x (Camera.updates dts c))
    (Camera.targetX c) /\
  Camera.between (Camera.y c) (Camera.y (Camera.updates dts c))
    (Camera.targetY c).
Proof.
  intros Hs. induction dts as [| dt dts IH] using rev_ind; intros Hpos.
  - simpl. repeat split; apply between_refl_left.
  - apply Forall_app in Hpos. destruct Hpos as [Hpos Hdt].
    inversion Hdt as [| ? ? Hdt0 _]; subst.
    destruct (IH Hpos) as (Htx & Hty & Hsm & Hbx & Hby).
    rewrite updates_snoc.
    set (c1 := Camera.updates dts c) in *.
    assert (Hq : 0 <= Js.pow (1 - Camera.smoothness c1) (dt * 60) <= 1)
      by (apply pow_unit_interval; [rewrite Hsm; lra | lra]).
    simpl. rewrite Htx, Hty, Hsm in *.
    repeat split; try reflexivity.
    + apply (blend_between (Camera.x c) (Camera.x c1) _ _ Hq Hbx).
    + apply (blend_between (Camera.y c) (Camera.y c1) _ _ Hq Hby).
Qed.

(** No overshoot.  With a smoothness in [0,1] and a target that is not
    moved, take the camera after any number of frames of positive duration
    and update it once more with [dt > 0].  The target is still where it
    was.  On each axis the new position lies between the previous position
    and the target, and between the starting position and the target; the
    distance to the target has not grown. *)
Lemma camera_never_overshoots
    (c : Camera.t) (dts : list R) (dt : R) :
  0 <= Camera.smoothness c <= 1 ->
  Forall (fun d => 0 < d) dts ->
  0 < dt ->
  let c1 := Camera.updates dts c in
  let c2 := Camera.update dt c1 in
  Camera.targetX c2 = Camera.targetX c /\
  Camera.targetY c2 = Camera.targetY c /\
  Camera.between (Camera.x c1) (Camera.x c2) (Camera.targetX c) /\
  Camera.between (Camera.y c1) (Camera.y c2) (Camera.targetY c) /\
  Camera.between (Camera.x c) (Camera.x c2) (Camera.targetX c) /\
  Camera.between (Camera.y c) (Camera.y c2) (Camera.targetY c) /\
  Rabs (Camera.targetX c - Camera.x c2) <=
    Rabs (Camera.targetX c - Camera.x c1) /\
  Rabs (Camera.targetY c - Camera.y c2) <=
    Rabs (Camera.targetY c - Camera.y c1).
Proof.
  intros Hs Hpos Hdt c1 c2; subst c2.
  destruct (updates_stay_between dts c Hs Hpos)
    as (Htx & Hty & Hsm & Hbx & Hby).
  fold c1 in Htx, Hty, Hsm, Hbx, Hby.
  assert (Hq : 0 <= Js.pow (1 - Camera.smoothness c1) (dt * 60) <= 1)
    by (apply pow_unit_interval; [rewrite Hsm; lra | lra]).
  simpl. rewrite Htx, Hty.
  destruct (blend_between _ _ _ _ Hq Hbx) as (Hx1 & Hx2 & Hx3).
  destruct (blend_between _ _ _ _ Hq Hby) as (Hy1 & Hy2 & Hy3).
  repeat split; assumption.
Qed.

(** After [n] frames of the same duration the remaining distance is the
    initial one scaled by the [n]-th power of the per-frame factor. *)
Lemma updates_closed_form (c : Camera.t) (dt : R) (n : nat) :
  let q := Js.pow (1 - Camera.smoothness c) (dt * 60) in
  let cn := Camera.updates (repeat dt n) c in
  Camera.smoothness cn = Camera.smoothness c /\
  Camera.targetX cn = Camera.targetX c /\
  Camera.targetY cn = Camera.targetY c /\
  Camera.targetX c - Camera.x cn = (Camera.targetX c - Camera.x c) * q ^ n /\
  Camera.targetY c - Camera.y cn = (Camera.targetY c - Camera.y c) * q ^ n.
Proof.
  intros q. induction n as [| n IH].
  - simpl. repeat split; ring.
  - cbv zeta in IH |- *.
    destruct IH as (Hsm & Htx & Hty & Hx & Hy).
    replace (repeat dt (S n)) with (repeat dt n ++ [dt])
      by (symmetry; apply (repeat_cons n dt)).
    rewrite updates_snoc.
    set (cn := Camera.updates (repeat dt n) c) in *.
    simpl. rewrite Hsm, Htx, Hty. fold q.
    repeat split; try reflexivity.
    + replace (Camera.targetX c -
               (Camera.x cn + (Camera.targetX c - Camera.x cn) * (1 - q)))
        with ((Camera.targetX c - Camera.x cn) * q) by ring.
      rewrite Hx. ring.
    + replace (Camera.targetY c -
               (Camera.y cn + (Camera.targetY c - Camera.y cn) * (1 - q)))
        with ((Camera.targetY c - Camera.y cn) * q) by ring.
      rewrite Hy. ring.
Qed.

(** With a smoothness in (0,1] and frames of one positive duration the
    camera's x position tends to the target.  (A smoothness of 0 makes
    the per-frame factor 0: such a camera stays where it is.) *)
Lemma camera_tends_to_target (c : Camera.t) (dt : R) :
  0 < Camera.smoothness c <= 1 ->
  0 < dt ->
  Un_cv (fun n => Camera.x (Camera.updates (repeat dt n) c))
    (Camera.targetX c).
Proof.
  intros Hs Hdt eps Heps.
  set (q := Js.pow (1 - Camera.smoothness c) (dt * 60)).
  assert (Hq0 : 0 <= q <= 1) by (apply pow_unit_interval; lra).
  assert (Hq1 : q < 1) by (apply pow_below_one; lra).
  set (d := Camera.targetX c - Camera.x c).
  assert (Hform : forall n,
             R_dist (Camera.x (Camera.updates (repeat dt n) c))
               (Camera.targetX c) = Rabs d * Rabs (q ^ n)).
  { intro n.
    destruct (updates_closed_form c dt n) as (_ & _ & _ & Hx & _).
    fold q in Hx. fold d in Hx.
    unfold R_dist. rewrite Rabs_minus_sym, Hx. apply Rabs_mult. }
  destruct (Req_dec_T d 0) as [Hd | Hd].
  - exists 0%nat. intros n _. rewrite Hform, Hd, Rabs_R0. lra.
  - assert (Hdpos : 0 < Rabs d) by (apply Rabs_pos_lt; exact Hd).
    assert (Hy : 0 < eps / Rabs d) by (apply Rdiv_lt_0_compat; lra).
    destruct (pow_lt_1_zero q) with (y := eps / Rabs d) as [N HN];
      [rewrite Rabs_pos_eq; lra | exact Hy |].
    exists N. intros n Hn. rewrite Hform.
    specialize (HN n Hn).
    apply (Rmult_lt_compat_l (Rabs d)) in HN; [| exact Hdpos].
    replace (Rabs d * (eps / Rabs d)) with eps in HN
      by (field; lra).
    exact HN.
Qed.

End CameraProperties.

Lemma camera_never_overshoots_witness :
  let c1 := Camera.updates [1 / 60] Scenario.chasingCamera in
  let c2 := Camera.update (1 / 60) c1 in
  Camera.targetX c2 = 100 /\
  Camera.between (Camera.x c1) (Camera.x c2) 100 /\
  Camera.between 0 (Camera.x c2) 100.
Proof.
  assert (Hs : 0 <= Camera.smoothness Scenario.chasingCamera <= 1)
    by (simpl; lra).
  assert (Hpos : Forall (fun d => 0 < d) [1 / 60])
    by (constructor; [lra | constructor]).
  assert (Hdt : 0 < 1 / 60) by lra.
  pose proof (camera_never_overshoots Scenario.chasingCamera [1 / 60]
                (1 / 60) Hs Hpos Hdt) as H.
  cbv zeta in H |- *.
  destruct H as (Htx & _ & Hb1 & _ & Hb0 & _).
  assert (E : Camera.targetX Scenario.chasingCamera = 100)
    by (simpl; lra).
  rewrite E in Htx, Hb1, Hb0.
  repeat split; assumption.
Defined.

(** ** The collectible manager *)

Import CollectibleManager.

Section HeapLemmas.

Lemma length_store (h : heap) (a : ref) (c : Collectible.t) :
  List.length (store h a c) = List.length h.
Proof.
  revert a; induction h as [| c0 h IH]; intros [| a]; simpl;
    try reflexivity.
  now rewrite IH.
Qed.

Lemma deref_store_same (h : heap) (a : ref) (c c' : Collectible.t) :
  deref h a = Some c -> deref (store h a c') a = Some c'.
Proof.
  unfold deref. revert a; induction h as [| c0 h IH]; intros [| a] H;
    simpl in *; try discriminate; try reflexivity.
  now apply IH.
Qed.

Lemma deref_store_other (h : heap) (a a' : ref) (c : Collectible.t) :
  a <> a' -> deref (store h a c) a' = deref h a'.
Proof.
  unfold deref. revert a a'; induction h as [| c0 h IH];
    intros [| a] [| a'] H; simpl; try reflexivity; try congruence.
  apply IH. congruence.
Qed.

Lemma deref_allocated (h : heap) (a : ref) :
  (a < List.length h)%nat -> exists c, deref h a = Some c.
Proof.
  intros H. unfold deref.
  destruct (nth_error h a) as [c |] eqn:E; [now exists c |].
  apply nth_error_None in E. lia.
Qed.

(** Writing back a collectible with the same [collected] flag changes no
    [collected] flag of the heap. *)
Lemma isCollected_store (h : heap) (a a' : ref) (c c' : Collectible.t) :
  deref h a = Some c ->
  Collectible.collected c' = Collectible.collected c ->
  isCollected (store h a c') a' = isCollected h a'.
Proof.
  intros Hd Hc. unfold isCollected.
  destruct (Nat.eq_dec a a') as [<- | Hne].
  - rewrite (deref_store_same h a c c' Hd), Hd. exact Hc.
  - now rewrite deref_store_other.
Qed.

End HeapLemmas.

Section CollisionProperties.

(** A successful collision check hands back the collectible
    deactivated. *)
Lemma hit_deactivates (c c' : Collectible.t) (p p' : Player.t) :
  Player.handleCollectibleCollision c p = (true, p', c') ->
  c' = Collectible.set_active false c /\ p' = Player.set_flashTime 10 p.
Proof.
  unfold Player.handleCollectibleCollision.
  destruct (negb (Collectible.active c)); [discriminate |].
  destruct (Js.ltb _ _); [| discriminate].
  intros H; inversion H; auto.
Qed.

(** A collision check never touches the [collected] flag. *)
Lemma check_keeps_collected (c : Collectible.t) (p : Player.t) :
  Collectible.collected (snd (Player.handleCollectibleCollision c p)) =
  Collectible.collected c.
Proof.
  unfold Player.handleCollectibleCollision.
  destruct (negb (Collectible.active c)); [reflexivity |].
  destruct (Js.ltb _ _); reflexivity.
Qed.

(** [collectItem] on a deactivated collectible credits nothing. *)
Lemma collectItem_inactive
    (now : R) (a : ref) (h : heap) (m : t) (c : Collectible.t) :
  deref h a = Some c ->
  Collectible.active c = false ->
  collectItem now a (h, m) = (store h a c, m).
Proof.
  intros Hd Ha. unfold collectItem, Collectible.collect.
  rewrite Hd, Ha. reflexivity.
Qed.

(** One step of [checkPlayerCollision] leaves the manager's own fields
    alone, keeps the heap's size and changes no [collected] flag. *)
Lemma checkOne_keeps_manager
    (now : R) (h : heap) (m : t) (p : Player.t) (a : ref) :
  let s' := checkOne now ((h, m), p) a in
  snd (fst s') = m /\
  List.length (fst (fst s')) = List.length h /\
  (forall a', isCollected (fst (fst s')) a' = isCollected h a').
Proof.
  unfold checkOne.
  destruct (deref h a) as [c |] eqn:Hd; [| simpl; auto].
  destruct (Collectible.active c) eqn:Ha; [| simpl; auto].
  destruct (Player.handleCollectibleCollision c p) as [[hit p'] c'] eqn:Hc.
  assert (Hk : Collectible.collected c' = Collectible.collected c)
    by (rewrite <- (check_keeps_collected c p), Hc; reflexivity).
  destruct hit.
  - destruct (hit_deactivates _ _ _ _ Hc) as [Hc' _].
    rewrite (collectItem_inactive now a _ m c');
      [| now apply (deref_store_same h a c) | now rewrite Hc'].
    simpl. repeat split.
    + now rewrite !length_store.
    + intros a'.
      rewrite (isCollected_store _ a a' c' c');
        [| now apply (deref_store_same h a c) | reflexivity].
      now apply (isCollected_store h a a' c c').
  - simpl. repeat split.
    + apply length_store.
    + intros a'. now apply (isCollected_store h a a' c c').
Qed.

Lemma fold_checkOne_keeps_manager
    (now : R) (l : list ref) (h : heap) (m : t) (p : Player.t) :
  let s' := fold_left (checkOne now) l ((h, m), p) in
  snd (fst s') = m /\
  List.length (fst (fst s')) = List.length h /\
  (forall a', isCollected (fst (fst s')) a' = isCollected h a').
Proof.
  cbv zeta. revert h p.
  induction l as [| a l IH]; intros h p; [simpl; auto |].
  cbn [fold_left].
  destruct (checkOne now (h, m, p) a) as [[h1 m1] p1] eqn:E.
  pose proof (checkOne_keeps_manager now h m p a) as H.
  rewrite E in H; simpl in H. destruct H as (-> & Hlen & Hcol).
  destruct (IH h1 p1) as (Hm & Hlen' & Hcol').
  repeat split.
  - exact Hm.
  - etransitivity; [exact Hlen' | exact Hlen].
  - intros a'. etransitivity; [apply Hcol' | apply Hcol].
Qed.

(** [checkPlayerCollision] never changes the manager's counters, its list
    of collectibles or its list of effects, whatever the player touches:
    the player's check has already deactivated the collectible when
    [collectItem] asks it to [collect()]. *)
Lemma checkPlayerCollision_keeps_manager
    (now : R) (p : Player.t) (w : world) :
  let w' := fst (checkPlayerCollision now p w) in
  snd w' = snd w /\
  List.length (fst w') = List.length (fst w) /\
  (forall a', isCollected (fst w') a' = isCollected (fst w) a').
Proof.
  destruct w as [h m]. unfold checkPlayerCollision.
  apply (fold_checkOne_keeps_manager now (collectibles m) h m p).
Qed.

End CollisionProperties.

Section PickupProperties.

Lemma store_store (h : heap) (a : ref) (c c' : Collectible.t) :
  store (store h a c) a c' = store h a c'.
Proof.
  revert a; induction h as [| c0 h IH]; intros [| a]; simpl;
    try reflexivity.
  now rewrite IH.
Qed.

(** What one step of [checkPlayerCollision] does with a collectible the
    player touches: the collectible ends up inactive and not collected,
    the player flashes, and the manager is exactly as before. *)
Lemma checkOne_hit
    (now : R) (h : heap) (m : t) (p : Player.t) (a : ref)
    (c : Collectible.t) :
  deref h a = Some c ->
  Collectible.active c = true ->
  fst (fst (Player.handleCollectibleCollision c p)) = true ->
  checkOne now ((h, m), p) a =
    ((store h a (Collectible.set_active false c), m),
     Player.set_flashTime 10 p).
Proof.
  intros Hd Ha Hhit. unfold checkOne. rewrite Hd, Ha.
  destruct (Player.handleCollectibleCollision c p) as [[hit p'] c'] eqn:E.
  simpl in Hhit; subst hit.
  destruct (hit_deactivates _ _ _ _ E) as [-> ->].
  rewrite (collectItem_inactive now a _ m (Collectible.set_active false c));
    [| now apply (deref_store_same h a c) | reflexivity].
  now rewrite store_store.
Qed.

(** The freshly constructed player is centred on the pixel of
    [Scenario.onePixel], so its collision check succeeds. *)
Lemma new_player_touches_pixel :
  fst (fst (Player.handleCollectibleCollision
              (Collectible.new 170 120 "pixel") Player.new)) = true.
Proof.
  unfold Player.handleCollectibleCollision, Js.hypot. simpl.
  replace (150 + 40 / 2 - 170) with 0 by lra.
  replace (100 + 40 / 2 - 120) with 0 by lra.
  replace (0 * 0 + 0 * 0) with 0 by lra.
  rewrite sqrt_0. js_compare. reflexivity.
Qed.

(** C1, on the code. A manager owns one active pixel and the player is
    centred on it, so the player's collision check succeeds.  After
    [checkPlayerCollision] the collected count is still 0 and no effect
    has been recorded: the check deactivated the pixel, and [collect()]
    refuses an inactive collectible.  The pixel is left inactive and not
    collected. *)
Theorem touched_pixel_is_not_credited (now : R) :
  let w := Scenario.onePixel in
  let c := Collectible.new 170 120 "pixel" in
  let w' := fst (checkPlayerCollision now Player.new w) in
  deref (fst w) 0%nat = Some c /\
  Collectible.active c = true /\
  fst (fst (Player.handleCollectibleCollision c Player.new)) = true /\
  collectedCount (snd w') = 0%Z /\
  collectionEffects (snd w') = [] /\
  deref (fst w') 0%nat = Some (Collectible.set_active false c) /\
  isCollected (fst w') 0%nat = false.
Proof.
  cbv zeta.
  assert (E : checkPlayerCollision now Player.new Scenario.onePixel =
              ((store (fst Scenario.onePixel) 0%nat
                  (Collectible.set_active false
                     (Collectible.new 170 120 "pixel")),
                snd Scenario.onePixel),
               Player.set_flashTime 10 Player.new)).
  { unfold checkPlayerCollision. cbn [Scenario.onePixel].
    change (collectibles (snd Scenario.onePixel)) with [0%nat].
    cbn [fold_left].
    apply (checkOne_hit now _ _ Player.new 0%nat
             (Collectible.new 170 120 "pixel"));
      [reflexivity | reflexivity | exact new_player_touches_pixel]. }
  rewrite E.
  repeat split; try reflexivity.
  exact new_player_touches_pixel.
Qed.

End PickupProperties.

(** *** The counters *)

Section CounterProperties.

Lemma forEach_length (f : Collectible.t -> Collectible.t)
    (l : list ref) (h : heap) :
  List.length (forEach f l h) = List.length h.
Proof.
  unfold forEach. revert h; induction l as [| a l IH]; intros h;
    [reflexivity |].
  cbn [fold_left]. rewrite IH.
  destruct (deref h a); [apply length_store | reflexivity].
Qed.

(** A loop body that keeps the [collected] flag keeps every flag. *)
Lemma forEach_keeps_collected (f : Collectible.t -> Collectible.t)
    (l : list ref) (h : heap) :
  (forall c, Collectible.collected (f c) = Collectible.collected c) ->
  forall a', isCollected (forEach f l h) a' = isCollected h a'.
Proof.
  intros Hf. unfold forEach. revert h; induction l as [| a l IH];
    intros h a'; [reflexivity |].
  cbn [fold_left]. rewrite IH.
  destruct (deref h a) as [c |] eqn:Hd; [| reflexivity].
  apply (isCollected_store h a a' c (f c) Hd (Hf c)).
Qed.

(** A loop body that clears the [collected] flag leaves it clear wherever
    it was clear, and clears it on everything it visits. *)
Lemma forEach_stays_clear (f : Collectible.t -> Collectible.t)
    (l : list ref) (h : heap) (a' : ref) :
  (forall c, Collectible.collected (f c) = false) ->
  isCollected h a' = false ->
  isCollected (forEach f l h) a' = false.
Proof.
  intros Hf. unfold forEach. revert h; induction l as [| a l IH];
    intros h Hc; [exact Hc |].
  cbn [fold_left]. apply IH.
  destruct (deref h a) as [c |] eqn:Hd; [| exact Hc].
  unfold isCollected.
  destruct (Nat.eq_dec a a') as [<- | Hne].
  - rewrite (deref_store_same h a c (f c) Hd). apply Hf.
  - rewrite deref_store_other by exact Hne. exact Hc.
Qed.

Lemma forEach_clears (f : Collectible.t -> Collectible.t)
    (l : list ref) (h : heap) (a' : ref) :
  (forall c, Collectible.collected (f c) = false) ->
  In a' l ->
  isCollected (forEach f l h) a' = false.
Proof.
  intros Hf. revert h; induction l as [| a l IH]; intros h Hin;
    [destruct Hin |].
  destruct Hin as [-> | Hin]; [| apply (IH _ Hin)].
  change (forEach f (a' :: l) h) with
    (forEach f l
       match deref h a' with
       | Some c => store h a' (f c)
       | None => h
       end).
  apply forEach_stays_clear; [exact Hf |].
  unfold isCollected.
  destruct (deref h a') as [c |] eqn:Hd.
  - rewrite (deref_store_same h a' c (f c) Hd). apply Hf.
  - rewrite Hd. reflexivity.
Qed.

(** Counting marked references. *)
Lemma count_none (A : Type) (f : A -> bool) (l : list A) :
  (forall a, In a l -> f a = false) -> filter f l = [].
Proof.
  induction l as [| a l IH]; intros H; [reflexivity |].
  simpl. rewrite (H a (or_introl eq_refl)).
  apply IH. intros b Hb. apply H. now right.
Qed.

Lemma count_one_more (f g : ref -> bool) (l : list ref) (a : ref) :
  NoDup l -> In a l ->
  f a = false -> g a = true ->
  (forall a', a' <> a -> g a' = f a') ->
  List.length (filter g l) = S (List.length (filter f l)).
Proof.
  intros Hnd Hin Hf Hg Hother.
  induction Hnd as [| b l Hb Hnd IH]; [destruct Hin |].
  destruct Hin as [-> | Hin].
  - simpl. rewrite Hf, Hg. simpl. f_equal. f_equal.
    apply filter_ext_in. intros a' Ha'. apply Hother.
    intros ->. contradiction.
  - assert (Hne : b <> a) by (intros ->; contradiction).
    simpl. rewrite (Hother b Hne).
    destruct (f b); simpl; rewrite (IH Hin); reflexivity.
Qed.

Lemma ownedCollected_ext (h h' : heap) (m m' : t) :
  collectibles m' = collectibles m ->
  (forall a, In a (collectibles m) -> isCollected h' a = isCollected h a) ->
  ownedCollected (h', m') = ownedCollected (h, m).
Proof.
  intros Hl Hc. unfold ownedCollected; simpl. rewrite Hl.
  f_equal. f_equal. apply filter_ext_in. exact Hc.
Qed.

Lemma wellFormed_initial : wellFormed initial.
Proof.
  unfold wellFormed, countsAgree; simpl.
  repeat split; [constructor | intros a [] ].
Qed.

Lemma wellFormed_addCollectible (x0 y0 : R) (ty : string) (w : world) :
  wellFormed w -> wellFormed (snd (addCollectible x0 y0 ty w)).
Proof.
  destruct w as [h m]. intros (Hnd & Hin & Hc & Ht).
  unfold ownedCollected, owned in *. simpl in *.
  assert (Hfresh : ~ In (List.length h) (collectibles m))
    by (intros Hx; apply Hin in Hx; lia).
  unfold wellFormed, countsAgree, ownedCollected, owned; simpl.
  repeat split.
  - apply NoDup_app; [exact Hnd | repeat constructor; intros [] |].
    intros a Ha [<- | []]. contradiction.
  - intros a Ha. rewrite length_app; simpl.
    apply in_app_iff in Ha. destruct Ha as [Ha | [<- | []]];
      [apply Hin in Ha |]; lia.
  - rewrite Hc, filter_app, length_app. simpl.
    assert (E : isCollected (h ++ [Collectible.new x0 y0 ty])
                  (List.length h) = false).
    { unfold isCollected, deref.
      rewrite nth_error_app2, Nat.sub_diag by lia. reflexivity. }
    rewrite E. simpl. rewrite Nat.add_0_r.
    f_equal. f_equal. apply filter_ext_in.
    intros a Ha. unfold isCollected, deref.
    rewrite nth_error_app1 by (apply Hin; exact Ha). reflexivity.
  - rewrite Ht, length_app. simpl. lia.
Qed.

Lemma wellFormed_addCollectibles
    (positions : list (R * R)) (ty : string) (w : world) :
  wellFormed w -> wellFormed (addCollectibles positions ty w).
Proof.
  unfold addCollectibles. revert w.
  induction positions as [| pos positions IH]; intros w Hw; [exact Hw |].
  cbn [fold_left]. apply IH. now apply wellFormed_addCollectible.
Qed.

Lemma wellFormed_update (dt : R) (w : world) :
  wellFormed w -> wellFormed (update dt w).
Proof.
  destruct w as [h m]. intros (Hnd & Hin & Hc & Ht).
  assert (Hk : forall c,
             Collectible.collected (Collectible.update dt c) =
             Collectible.collected c).
  { intros c. unfold Collectible.update.
    destruct (negb (Collectible.active c)); reflexivity. }
  unfold wellFormed, countsAgree, update.
  repeat split; simpl.
  - exact Hnd.
  - intros a Ha. rewrite forEach_length. now apply Hin.
  - simpl in Hc. rewrite Hc. symmetry.
    apply (ownedCollected_ext h _ m); [reflexivity |].
    intros a _. now apply forEach_keeps_collected.
  - exact Ht.
Qed.

Lemma wellFormed_checkPlayerCollision
    (now : R) (p : Player.t) (w : world) :
  wellFormed w -> wellFormed (fst (checkPlayerCollision now p w)).
Proof.
  intros (Hnd & Hin & Hc & Ht).
  destruct (checkPlayerCollision_keeps_manager now p w)
    as (Hm & Hlen & Hcol).
  destruct (fst (checkPlayerCollision now p w)) as [h' m'].
  destruct w as [h m]. simpl in *. subst m'.
  unfold wellFormed, countsAgree. simpl.
  repeat split.
  - exact Hnd.
  - intros a Ha. rewrite Hlen. now apply Hin.
  - rewrite Hc. symmetry.
    apply (ownedCollected_ext h h' m); [reflexivity |].
    intros a _. apply Hcol.
  - exact Ht.
Qed.

(** [collectItem] keeps the counters right when the collectible it is
    handed is one the manager owns. *)
Lemma wellFormed_collectItem (now : R) (a : ref) (w : world) :
  wellFormed w ->
  In a (collectibles (snd w)) ->
  wellFormed (collectItem now a w).
Proof.
  destruct w as [h m]. intros (Hnd & Hin & Hc & Ht) Ha. simpl in *.
  destruct (deref_allocated h a (Hin a Ha)) as [c Hd].
  unfold collectItem. rewrite Hd. unfold Collectible.collect.
  destruct (negb (Collectible.active c) || Collectible.collected c)%bool
    eqn:Hguard.
  - (* refused: the collectible is written back unchanged *)
    unfold wellFormed, countsAgree. simpl.
    repeat split.
    + exact Hnd.
    + intros a' Ha'. rewrite length_store. now apply Hin.
    + rewrite Hc. symmetry.
      apply (ownedCollected_ext h _ m); [reflexivity |].
      intros a' _. now apply (isCollected_store h a a' c c).
    + exact Ht.
  - (* collected now: exactly one more owned collectible is marked *)
    apply orb_false_iff in Hguard. destruct Hguard as [_ Hfresh].
    unfold wellFormed, countsAgree, ownedCollected, owned. simpl.
    repeat split.
    + exact Hnd.
    + intros a' Ha'. rewrite length_store. now apply Hin.
    + rewrite Hc. unfold ownedCollected; simpl.
      match goal with
      | |- _ = Z.of_nat (List.length (filter ?g _)) =>
          rewrite (count_one_more (isCollected h) g _ a Hnd Ha)
      end.
      * lia.
      * unfold isCollected. rewrite Hd. exact Hfresh.
      * unfold isCollected.
        rewrite (deref_store_same h a c _ Hd). reflexivity.
      * intros a' Hne. unfold isCollected.
        rewrite deref_store_other by congruence. reflexivity.
    + exact Ht.
Qed.

Lemma wellFormed_reset (w : world) :
  wellFormed w -> wellFormed (reset w).
Proof.
  destruct w as [h m]. intros (Hnd & Hin & Hc & Ht). simpl in *.
  unfold wellFormed, countsAgree, ownedCollected, owned, reset. simpl.
  repeat split.
  - exact Hnd.
  - intros a Ha. rewrite forEach_length. now apply Hin.
  - rewrite count_none; [reflexivity |].
    intros a Ha. now apply forEach_clears.
  - exact Ht.
Qed.

Lemma wellFormed_clear (w : world) : wellFormed (clear w).
Proof.
  destruct w as [h m].
  unfold wellFormed, countsAgree, ownedCollected, owned, clear. simpl.
  repeat split; [constructor | intros a [] ].
Qed.

Lemma wellFormed_run (cs : list call) (w : world) :
  wellFormed w -> collectsOwned cs w -> wellFormed (run cs w).
Proof.
  unfold run. revert w.
  induction cs as [| c cs IH]; intros w Hw Hown; [exact Hw |].
  cbn [fold_left]. destruct Hown as [Hc Hown].
  apply IH; [| exact Hown].
  destruct c; simpl.
  - now apply wellFormed_addCollectible.
  - now apply wellFormed_addCollectibles.
  - now apply wellFormed_update.
  - now apply wellFormed_checkPlayerCollision.
  - now apply wellFormed_collectItem.
  - now apply wellFormed_reset.
  - apply wellFormed_clear.
Qed.

(** Counters that agree with the owned collectibles are ordered, and the
    progress they yield is a percentage. *)
Lemma countsAgree_bounds (w : world) :
  countsAgree w ->
  (0 <= collectedCount (snd w) <= totalCount (snd w))%Z /\
  0 <= percentage (getCollectionProgress (snd w)) <= 100.
Proof.
  intros [Hc Ht]. unfold ownedCollected, owned in *.
  pose proof (filter_length_le (isCollected (fst w))
                (collectibles (snd w))) as Hle.
  assert (Hz : (0 <= collectedCount (snd w) <= totalCount (snd w))%Z)
    by lia.
  split; [exact Hz |].
  unfold getCollectionProgress; simpl.
  destruct (0 <? totalCount (snd w))%Z eqn:E; [| lra].
  apply Z.ltb_lt in E.
  assert (Ht0 : 0 < IZR (totalCount (snd w))) by (apply IZR_lt; exact E).
  assert (Hc0 : 0 <= IZR (collectedCount (snd w)))
    by (apply IZR_le; lia).
  assert (Hct : IZR (collectedCount (snd w)) <= IZR (totalCount (snd w)))
    by (apply IZR_le; lia).
  assert (Hfrac : 0 <= IZR (collectedCount (snd w)) /
                       IZR (totalCount (snd w)) <= 1).
  { split.
    - apply Rmult_le_pos; [exact Hc0 |].
      left. now apply Rinv_0_lt_compat.
    - apply (Rmult_le_reg_r (IZR (totalCount (snd w)))); [exact Ht0 |].
      unfold Rdiv. rewrite Rmult_assoc, Rinv_l by lra. lra. }
  lra.
Qed.

(** C10, as the code has it. In every state reached from the
    constructor by calls of [addCollectible], [addCollectibles], [update],
    [checkPlayerCollision], [collectItem], [reset] and [clear] in which
    each [collectItem] is handed a collectible the manager owns at that
    moment, the collected count is the number of owned collectibles whose
    [collected] flag is set and the total count is the number of owned
    collectibles; so the collected count is at most the total count and
    [getCollectionProgress] reports at most 100 percent. *)
Theorem counters_agree_when_collecting_owned (cs : list call) :
  collectsOwned cs initial ->
  let w := run cs initial in
  collectedCount (snd w) = ownedCollected w /\
  totalCount (snd w) = owned w /\
  (collectedCount (snd w) <= totalCount (snd w))%Z /\
  percentage (getCollectionProgress (snd w)) <= 100.
Proof.
  intros Hown w.
  destruct (wellFormed_run cs initial wellFormed_initial Hown)
    as (_ & _ & Hagree).
  fold w in Hagree.
  destruct (countsAgree_bounds w Hagree) as [Hz Hp].
  destruct Hagree as [Hc Ht].
  repeat split; [exact Hc | exact Ht | lia | lra].
Qed.

End CounterProperties.

Lemma counters_agree_when_collecting_owned_witness :
  let w := run Scenario.ownedCollect initial in
  collectedCount (snd w) = 1%Z /\
  totalCount (snd w) = 2%Z /\
  percentage (getCollectionProgress (snd w)) <= 100.
Proof.
  assert (Hown : collectsOwned Scenario.ownedCollect initial)
    by (simpl; repeat split; left; reflexivity).
  pose proof (counters_agree_when_collecting_owned Scenario.ownedCollect
                Hown) as H.
  cbv zeta in H |- *.
  destruct H as (Hc & Ht & _ & Hp).
  split; [rewrite Hc; reflexivity |].
  split; [rewrite Ht; reflexivity | exact Hp].
Defined.

(** C10, as stated, fails. A collectible is added and the manager cleared,
    a second collectible is added, and both are handed to [collectItem]:
    each exists, but the manager owns only the second.  The collected count
    is then 2 although one owned collectible is collected, it exceeds the
    total count of 1, and the reported progress is 200 percent. *)
Lemma stale_collect_breaks_counters :
  let w := run Scenario.staleCollect initial in
  collectsAllocated Scenario.staleCollect initial /\
  collectibles (snd w) = [1%nat] /\
  collectedCount (snd w) = 2%Z /\
  totalCount (snd w) = 1%Z /\
  ownedCollected w = 1%Z /\
  ~ countsAgree w /\
  ~ (collectedCount (snd w) <= totalCount (snd w))%Z /\
  percentage (getCollectionProgress (snd w)) = 200 /\
  ~ percentage (getCollectionProgress (snd w)) <= 100.
Proof.
  cbv zeta.
  assert (Hc : collectedCount (snd (run Scenario.staleCollect initial))
               = 2%Z) by reflexivity.
  assert (Ht : totalCount (snd (run Scenario.staleCollect initial))
               = 1%Z) by reflexivity.
  assert (Ho : ownedCollected (run Scenario.staleCollect initial) = 1%Z)
    by reflexivity.
  assert (Hp : percentage
                 (getCollectionProgress
                    (snd (run Scenario.staleCollect initial))) = 200).
  { unfold getCollectionProgress. rewrite Hc, Ht. simpl. lra. }
  split; [simpl; repeat split; lia |].
  split; [reflexivity |].
  split; [exact Hc |].
  split; [exact Ht |].
  split; [exact Ho |].
  split; [intros [Hagree _]; rewrite Hc, Ho in Hagree; discriminate |].
  split; [rewrite Hc, Ht; lia |].
  split; [exact Hp | rewrite Hp; lra].
Qed.

(** ** The game state machine *)

Section GameStateProperties.

Lemma ascii_of_nat_of (a : ascii) (n : nat) :
  nat_of_ascii a = n -> a = ascii_of_nat n.
Proof. intros <-. symmetry. apply ascii_nat_embedding. Qed.

Lemma upper_char_lower (a : ascii) :
  (97 <= nat_of_ascii a <= 122)%nat ->
  Js.upper_char a = ascii_of_nat (nat_of_ascii a - 32).
Proof.
  intros [H1 H2]. unfold Js.upper_char.
  rewrite (proj2 (Nat.leb_le _ _) H1), (proj2 (Nat.leb_le _ _) H2).
  reflexivity.
Qed.

Lemma upper_char_other (a : ascii) :
  (nat_of_ascii a < 97 \/ 122 < nat_of_ascii a)%nat ->
  Js.upper_char a = a.
Proof.
  intros [H | H]; unfold Js.upper_char.
  - rewrite (proj2 (Nat.leb_gt _ _) H). reflexivity.
  - rewrite (proj2 (Nat.leb_gt _ _) H), andb_false_r. reflexivity.
Qed.

Lemma sameLetter_true_iff (a b : ascii) :
  GameState.sameLetter a b = true <->
  a = b \/
  ((97 <= nat_of_ascii a <= 122)%nat /\
   nat_of_ascii b = (nat_of_ascii a - 32)%nat) \/
  ((65 <= nat_of_ascii a <= 90)%nat /\
   nat_of_ascii b = (nat_of_ascii a + 32)%nat).
Proof.
  unfold GameState.sameLetter, GameState.isLower, GameState.isUpper.
  rewrite !orb_true_iff, !andb_true_iff, Ascii.eqb_eq, !Nat.eqb_eq,
    !Nat.leb_le.
  tauto.
Qed.

(** The same letter in either case has the same capital. *)
Lemma upper_char_sameLetter (a b : ascii) :
  GameState.sameLetter a b = true -> Js.upper_char a = Js.upper_char b.
Proof.
  intros H. apply sameLetter_true_iff in H.
  destruct H as [-> | [[Ha Hb] | [Ha Hb]]]; [reflexivity | |].
  - rewrite (upper_char_lower a Ha).
    rewrite (upper_char_other b) by lia.
    symmetry. now apply ascii_of_nat_of.
  - rewrite (upper_char_other a) by lia.
    rewrite (upper_char_lower b) by lia.
    apply ascii_of_nat_of. lia.
Qed.

(** Characters with the same capital are the same letter. *)
Lemma sameLetter_upper_char (a b : ascii) :
  Js.upper_char a = Js.upper_char b -> GameState.sameLetter a b = true.
Proof.
  intros H. apply sameLetter_true_iff.
  pose proof (nat_ascii_bounded a) as Ba.
  pose proof (nat_ascii_bounded b) as Bb.
  assert (La : (97 <= nat_of_ascii a <= 122)%nat \/
               (nat_of_ascii a < 97 \/ 122 < nat_of_ascii a)%nat) by lia.
  assert (Lb : (97 <= nat_of_ascii b <= 122)%nat \/
               (nat_of_ascii b < 97 \/ 122 < nat_of_ascii b)%nat) by lia.
  destruct La as [La | La], Lb as [Lb | Lb].
  - rewrite (upper_char_lower a La), (upper_char_lower b Lb) in H.
    apply (f_equal nat_of_ascii) in H.
    rewrite !nat_ascii_embedding in H by lia.
    left.
    rewrite <- (ascii_nat_embedding a), <- (ascii_nat_embedding b).
    f_equal. lia.
  - rewrite (upper_char_lower a La), (upper_char_other b Lb) in H.
    apply (f_equal nat_of_ascii) in H.
    rewrite nat_ascii_embedding in H by lia.
    right; left. split; [exact La | now symmetry].
  - rewrite (upper_char_other a La), (upper_char_lower b Lb) in H.
    apply (f_equal nat_of_ascii) in H.
    rewrite nat_ascii_embedding in H by lia.
    right; right. lia.
  - rewrite (upper_char_other a La), (upper_char_other b Lb) in H.
    now left.
Qed.

(** Two strings are case variants of each other exactly when
    [toUpperCase] maps them to the same string. *)
Lemma caseVariant_iff_upper (s k : string) :
  GameState.caseVariant s k = true <->
  Js.toUpperCase s = Js.toUpperCase k.
Proof.
  revert k; induction s as [| a s IH]; intros [| b k]; simpl;
    split; intros H; try reflexivity; try discriminate.
  - apply andb_true_iff in H. destruct H as [Hc Hs].
    rewrite (upper_char_sameLetter a b Hc).
    f_equal. now apply IH.
  - inversion H as [[Hc Hs]].
    apply andb_true_iff. split.
    + now apply sameLetter_upper_char.
    + now apply IH.
Qed.

(** The enumeration names are upper case already, each is bound once,
    and each value is a non-empty string. *)
Lemma states_entry (k v : string) :
  In (k, v) GameState.states ->
  Js.toUpperCase k = k /\
  Js.get GameState.states k = Some v /\
  GameState.truthy v = true.
Proof.
  unfold GameState.states. intros H.
  repeat (destruct H as [H | H];
          [inversion H; subst; repeat split; reflexivity |]).
  destruct H.
Qed.

Lemma get_In (A : Type) (o : list (string * A)) (k : string) (v : A) :
  Js.get o k = Some v -> In (k, v) o.
Proof.
  induction o as [| [k' v'] o IH]; simpl; [discriminate |].
  destruct (String.eqb k k') eqn:E.
  - apply String.eqb_eq in E. intros H; inversion H; subst. now left.
  - intros H. right. now apply IH.
Qed.

(** The hook never writes [currentState]. *)
Lemma handleStateChange_keeps_state (now : R) (g : GameState.t) :
  GameState.currentState (GameState.handleStateChange now g) =
  GameState.currentState g.
Proof.
  unfold GameState.handleStateChange.
  repeat match goal with
    | |- context [if ?b then _ else _] => destruct b
    end; reflexivity.
Qed.

(** The strings the game itself passes are the enumerated values, in
    their exact spelling; each ends up in [currentState], by the lookup for
    the one-word states and verbatim for the others. *)
Lemma setGameState_exact_value (now : R) (k v : string) (g : GameState.t) :
  In (k, v) GameState.states ->
  GameState.currentState (GameState.setGameState now v g) = v.
Proof.
  unfold GameState.states. intros H.
  repeat (destruct H as [H | H]; [inversion H; subst; reflexivity |]).
  destruct H.
Qed.

(** C7, as the code has it.  For an ASCII string [s]: if [s] is a
    letter-case variant of an enumeration name (the keys [MAIN_MENU],
    [PLAYING], ... of [this.states]), [setGameState] stores that name's
    enumerated value in [currentState]; if it is a case variant of no
    enumeration name, the string itself is stored.  So an enumerated value
    spelled exactly ends in [currentState], and any case variant of the
    value of a two-word state (whose name has an underscore the value
    lacks) is stored as given.  In every case the state afterwards is the
    result of one run of [handleStateChange] on the state with
    [currentState] so set; for [DEAD] that is one increment of each death
    counter. *)
Theorem setGameState_canonical_then_hook
    (now : R) (s : string) (g : GameState.t) :
  Js.isAscii s = true ->
  (forall k v,
      In (k, v) GameState.states ->
      GameState.caseVariant s k = true ->
      GameState.currentState (GameState.setGameState now s g) = v /\
      GameState.setGameState now s g =
        GameState.handleStateChange now
          (GameState.set_currentState v g)) /\
  ((forall k v,
       In (k, v) GameState.states ->
       GameState.caseVariant s k = false) ->
      GameState.currentState (GameState.setGameState now s g) = s /\
      GameState.setGameState now s g =
        GameState.handleStateChange now
          (GameState.set_currentState s g)) /\
  (forall k v,
      In (k, v) GameState.states -> s = v ->
      GameState.currentState (GameState.setGameState now s g) = v) /\
  (forall k v,
      In (k, v) GameState.states ->
      Js.toUpperCase v <> k ->
      GameState.caseVariant s v = true ->
      GameState.currentState (GameState.setGameState now s g) = s /\
      GameState.setGameState now s g =
        GameState.handleStateChange now
          (GameState.set_currentState s g)) /\
  (GameState.caseVariant s "DEAD" = true ->
      GameState.stats (GameState.setGameState now s g) =
        GameState.countDeath (GameState.stats g) /\
      GameState.timeScaleTarget (GameState.setGameState now s g) =
        GameState.timeScaleTarget g).
Proof.
  intros _.
  assert (Hcanon : forall k v,
             In (k, v) GameState.states ->
             GameState.caseVariant s k = true ->
             GameState.setGameState now s g =
               GameState.handleStateChange now
                 (GameState.set_currentState v g)).
  { intros k v Hin Hvar.
    destruct (states_entry k v Hin) as (Hup & Hget & Htruthy).
    apply caseVariant_iff_upper in Hvar. rewrite Hup in Hvar.
    unfold GameState.setGameState. rewrite Hvar, Hget, Htruthy.
    reflexivity. }
  assert (Hverb : Js.get GameState.states (Js.toUpperCase s) = None ->
             GameState.currentState (GameState.setGameState now s g) = s /\
             GameState.setGameState now s g =
               GameState.handleStateChange now
                 (GameState.set_currentState s g)).
  { intros Hget. unfold GameState.setGameState. rewrite Hget.
    split; [| reflexivity].
    now rewrite handleStateChange_keeps_state. }
  split; [| split; [| split; [| split]]].
  - intros k v Hin Hvar. rewrite (Hcanon k v Hin Hvar).
    split; [| reflexivity].
    now rewrite handleStateChange_keeps_state.
  - intros Hout. apply Hverb.
    destruct (Js.get GameState.states (Js.toUpperCase s)) as [v |]
      eqn:E; [| reflexivity].
    apply get_In in E.
    destruct (states_entry _ v E) as (Hup & _ & _).
    assert (Hvar : GameState.caseVariant s (Js.toUpperCase s) = true)
      by (apply caseVariant_iff_upper; now rewrite Hup).
    rewrite (Hout _ v E) in Hvar. discriminate.
  - intros k v Hin ->. apply (setGameState_exact_value now k v g Hin).
  - intros k v Hin Htwo Hvar. apply Hverb.
    apply caseVariant_iff_upper in Hvar. rewrite Hvar.
    unfold GameState.states in Hin.
    repeat (destruct Hin as [Hin | Hin];
            [inversion Hin; subst;
             first [reflexivity | exfalso; apply Htwo; reflexivity] |]).
    destruct Hin.
  - intros Hvar.
    rewrite (Hcanon "DEAD"%string GameState.DEAD); [| | exact Hvar].
    + split; reflexivity.
    + unfold GameState.states. simpl. tauto.
Qed.

(** What the hook does on entering each state. *)
Lemma handleStateChange_effects (now : R) (g : GameState.t) :
  (GameState.currentState g = GameState.PLAYING ->
     GameState.timeScaleTarget (GameState.handleStateChange now g) = 1) /\
  (GameState.currentState g = GameState.PAUSED ->
     GameState.timeScaleTarget (GameState.handleStateChange now g) = 0) /\
  (GameState.currentState g = GameState.LEVEL_COMPLETE ->
     GameState.timeScaleTarget (GameState.handleStateChange now g) = 0) /\
  (GameState.currentState g = GameState.LEVEL_READY ->
     GameState.timeScaleTarget (GameState.handleStateChange now g) = 1 /\
     GameState.levelStartTime
       (GameState.stats (GameState.handleStateChange now g)) = now).
Proof.
  unfold GameState.handleStateChange.
  split; [| split; [| split]]; intros H; rewrite H;
    [reflexivity | reflexivity | reflexivity | split; reflexivity].
Qed.

(** The camel-case values of the enumeration are not its names: a case
    variant of the value of a two-word state is stored as it is given and
    the hook finds no case for it. *)
Remark value_variant_is_verbatim (now : R) (g : GameState.t) :
  GameState.setGameState now "LevelComplete" g =
  GameState.set_currentState "LevelComplete" g.
Proof. reflexivity. Qed.

End GameStateProperties.

Lemma setGameState_canonical_then_hook_witness :
  GameState.currentState
    (GameState.setGameState 0 "pLaYiNg" GameState.new) = GameState.PLAYING /\
  GameState.currentState
    (GameState.setGameState 0 "level_Complete" GameState.new) =
    GameState.LEVEL_COMPLETE /\
  GameState.currentState
    (GameState.setGameState 0 "MainMenu" GameState.new) = "MainMenu"%string.
Proof.
  split; [| split].
  - destruct (setGameState_canonical_then_hook 0 "pLaYiNg" GameState.new
                eq_refl) as [H _].
    apply (H "PLAYING"%string).
    + unfold GameState.states. simpl. tauto.
    + reflexivity.
  - destruct (setGameState_canonical_then_hook 0 "level_Complete"
                GameState.new eq_refl) as [H _].
    apply (H "LEVEL_COMPLETE"%string).
    + unfold GameState.states. simpl. tauto.
    + reflexivity.
  - destruct (setGameState_canonical_then_hook 0 "MainMenu"
                GameState.new eq_refl) as (_ & _ & _ & H & _).
    apply (H "MAIN_MENU"%string GameState.MAIN_MENU).
    + unfold GameState.states. simpl. tauto.
    + discriminate.
    + reflexivity.
Defined.

(** C7, as stated, fails.  [LevelComplete] is an ASCII letter-case
    variant of the state name [levelComplete], yet after
    [setGameState('LevelComplete')] in a playing game [currentState] is the
    string as given and not the enumerated value, [isLevelComplete()] is
    false, and the time-scale target is still 1: the hook found no case for
    it. *)
Lemma value_variant_is_not_canonical :
  let g := GameState.setGameState 0 "LevelComplete"
             (GameState.setGameState 0 "playing" GameState.new) in
  Js.isAscii "LevelComplete" = true /\
  GameState.caseVariant "LevelComplete" GameState.LEVEL_COMPLETE = true /\
  GameState.currentState g = "LevelComplete"%string /\
  GameState.currentState g <> GameState.LEVEL_COMPLETE /\
  GameState.isLevelComplete g = false /\
  GameState.timeScaleTarget g = 1 /\
  GameState.timeScaleTarget
    (GameState.handleStateChange 0
       (GameState.set_currentState GameState.LEVEL_COMPLETE
          (GameState.setGameState 0 "playing" GameState.new))) = 0.
Proof.
  cbv zeta.
  split; [reflexivity |]. split; [reflexivity |].
  split; [reflexivity |]. split; [discriminate |].
  split; [reflexivity |]. split; reflexivity.
Qed.

(** * Further properties *)

(** ** Platform collisions *)

Section CollisionResolution.

Lemma landing_true_iff (p : Player.t) (pl : Platform.t) :
  Player.landing p pl = true <->
  0 <= Player.dy p /\
  Platform.y pl <= Player.y p + Player.height p /\
  Player.y p + Player.height p < Platform.y pl + Platform.height pl.
Proof.
  unfold Player.landing, Js.geb.
  rewrite !andb_true_iff, !leb_true_iff, ltb_true_iff. tauto.
Qed.

Lemma ceiling_true_iff (p : Player.t) (pl : Platform.t) :
  Player.ceiling p pl = true <->
  Player.dy p < 0 /\
  Player.y p < Platform.y pl + Platform.height pl /\
  Platform.y pl < Player.y p.
Proof.
  unfold Player.ceiling, Js.gtb.
  rewrite !andb_true_iff, !ltb_true_iff. tauto.
Qed.

(** The landing branch, spelled out. *)
Lemma landing_result (rnd : nat -> R) (pl : Platform.t) (p : Player.t) :
  Player.landing p pl = true ->
  Player.handlePlatformCollision rnd pl p =
    (true,
     Player.set_lastSafePlatform (Some pl)
       (Player.set_onGround true
          (Player.set_dy 0
             (Player.set_y (Platform.y pl - Player.height p) p)))).
Proof.
  intros H. unfold Player.handlePlatformCollision. rewrite H. reflexivity.
Qed.

(** Landing is idempotent: when a call lands the player on a platform,
    calling again for the same platform returns true once more and changes
    nothing, whatever random numbers are on offer. *)
Theorem landing_is_idempotent
    (rnd rnd' : nat -> R) (pl : Platform.t) (p : Player.t) :
  Player.landing p pl = true ->
  let landed := snd (Player.handlePlatformCollision rnd pl p) in
  fst (Player.handlePlatformCollision rnd pl p) = true /\
  Player.handlePlatformCollision rnd' pl landed = (true, landed).
Proof.
  intros H landed; subst landed.
  rewrite (landing_result rnd pl p H). simpl.
  split; [reflexivity |].
  apply landing_true_iff in H. destruct H as (Hdy & Hlo & Hhi).
  rewrite landing_result.
  - simpl. f_equal.
  - apply landing_true_iff. simpl. lra.
Qed.

(** A player standing on a platform (not rising, bottom edge exactly on the
    top of a platform of positive height) is kept where it is: the call
    returns true, the player is grounded with [dy = 0] at the same height,
    and the platform becomes its last safe platform. *)
Theorem standing_player_is_supported
    (rnd : nat -> R) (pl : Platform.t) (p : Player.t) :
  0 <= Player.dy p ->
  Player.y p + Player.height p = Platform.y pl ->
  0 < Platform.height pl ->
  let r := Player.handlePlatformCollision rnd pl p in
  fst r = true /\
  Player.y (snd r) = Player.y p /\
  Player.dy (snd r) = 0 /\
  Player.onGround (snd r) = true /\
  Player.lastSafePlatform (snd r) = Some pl /\
  Player.isDead (snd r) = Player.isDead p.
Proof.
  intros Hdy Hy Hh r; subst r.
  rewrite landing_result by (apply landing_true_iff; lra).
  simpl. repeat split. lra.
Qed.

(** What a call can do.  A call that returns true has either put the
    player on top of the platform (grounded, platform recorded, [dy] 0 or
    the bounce -120) or put its top edge at the platform's bottom with
    [dy = 0] and the grounded flag untouched; it has not killed the player.
    A call that returns false has left the player untouched or is [die()].
    No call moves the player sideways or changes its speed or size. *)
Theorem collision_outcomes
    (rnd : nat -> R) (pl : Platform.t) (p : Player.t) :
  let r := Player.handlePlatformCollision rnd pl p in
  (fst r = true ->
     Player.isDead (snd r) = Player.isDead p /\
     ((Player.y (snd r) + Player.height (snd r) = Platform.y pl /\
       Player.onGround (snd r) = true /\
       Player.lastSafePlatform (snd r) = Some pl /\
       (Player.dy (snd r) = 0 \/ Player.dy (snd r) = -120)) \/
      (Player.y (snd r) = Platform.y pl + Platform.height pl /\
       Player.dy (snd r) = 0 /\
       Player.onGround (snd r) = Player.onGround p /\
       Player.lastSafePlatform (snd r) = Player.lastSafePlatform p))) /\
  (fst r = false -> snd r = p \/ snd r = Player.die rnd p) /\
  Player.x (snd r) = Player.x p /\
  Player.dx (snd r) = Player.dx p /\
  Player.width (snd r) = Player.width p /\
  Player.height (snd r) = Player.height p.
Proof.
  assert (Hdie : forall q,
             Player.x (Player.die rnd q) = Player.x q /\
             Player.dx (Player.die rnd q) = Player.dx q /\
             Player.width (Player.die rnd q) = Player.width q /\
             Player.height (Player.die rnd q) = Player.height q).
  { intros q. unfold Player.die.
    destruct (Player.isDead q); [repeat split |]. simpl.
    destruct (Player.lastSafePlatform q) as [pl0 |]; simpl;
      [destruct (Platform.id pl0 =? Player.lastDeathPlatformId q)%Z |];
      repeat split. }
  unfold Player.handlePlatformCollision.
  destruct (Player.landing p pl).
  { simpl. split; [intros _ | split; [discriminate | repeat split]].
    split; [reflexivity | left].
    split; [lra | repeat split]. now left. }
  destruct (Player.ceiling p pl).
  { simpl. split; [intros _ | split; [discriminate | repeat split]].
    split; [reflexivity | right]. repeat split. }
  destruct (Player.horizontalOverlap p pl && Player.sideContact p pl)%bool.
  - match goal with
    | |- context [if ?b then _ else _] => destruct b
    end.
    + simpl. split; [intros _ | split; [discriminate | repeat split]].
      split; [reflexivity | left].
      split; [lra | repeat split]. now right.
    + simpl. split; [discriminate |].
      split; [intros _; now right | apply Hdie].
  - simpl. split; [discriminate |].
    split; [intros _; now left | repeat split].
Qed.

End CollisionResolution.

Lemma landing_is_idempotent_witness :
  let landed :=
    snd (Player.handlePlatformCollision (fun _ => 0)
           Scenario.thinPlatform Scenario.fallingPlayer) in
  Player.handlePlatformCollision (fun _ => 1 / 2)
    Scenario.thinPlatform landed = (true, landed).
Proof.
  assert (H : Player.landing Scenario.fallingPlayer Scenario.thinPlatform
              = true)
    by (unfold Player.landing; simpl; js_compare; reflexivity).
  apply (landing_is_idempotent (fun _ => 0) (fun _ => 1 / 2)
           Scenario.thinPlatform Scenario.fallingPlayer H).
Defined.

Lemma standing_player_is_supported_witness :
  let r := Player.handlePlatformCollision (fun _ => 0)
             Scenario.thinPlatform Scenario.standingPlayer in
  fst r = true /\ Player.y (snd r) = 60 /\ Player.onGround (snd r) = true.
Proof.
  assert (Hdy : 0 <= Player.dy Scenario.standingPlayer) by (simpl; lra).
  assert (Hy : Player.y Scenario.standingPlayer +
               Player.height Scenario.standingPlayer =
               Platform.y Scenario.thinPlatform) by (simpl; lra).
  assert (Hh : 0 < Platform.height Scenario.thinPlatform) by (simpl; lra).
  pose proof (standing_player_is_supported (fun _ => 0)
                Scenario.thinPlatform Scenario.standingPlayer Hdy Hy Hh)
    as H.
  cbv zeta in H |- *.
  destruct H as (H1 & H2 & _ & H4 & _).
  split; [exact H1 |]. split; [rewrite H2; reflexivity | exact H4].
Defined.

(** ** The death and respawn cycle *)

Section Lifecycle.

(** The particles after an effective [die()] are those of
    [createExplosion]. *)
Lemma die_particles (rnd : nat -> R) (p : Player.t) :
  Player.isDead p = false ->
  Player.particles (Player.die rnd p) =
  Player.particles (Player.createExplosion rnd p).
Proof.
  intros H. unfold Player.die. rewrite H. simpl.
  destruct (Player.lastSafePlatform p) as [pl |]; simpl;
    [destruct (Platform.id pl =? Player.lastDeathPlatformId p)%Z |];
    reflexivity.
Qed.

(** One particle of the explosion grid. *)
Lemma explosionParticle_bounded
    (rnd : nat -> R) (p : Player.t) (i j : nat) :
  (forall n, 0 <= rnd n < 1) ->
  (i <= 2)%nat -> (j <= 2)%nat ->
  let q := Player.explosionParticle rnd p i j in
  Particle.life q = 1 /\ Particle.angle q = 0 /\
  Particle.width q = Player.width p / 3 /\
  Particle.height q = Player.width p / 3 /\
  -275 <= Particle.dx q < 275 /\
  -525 <= Particle.dy q < 25 /\
  -10 <= Particle.angleV q < 10.
Proof.
  intros Hrnd Hi Hj q; subst q.
  assert (Bi : 0 <= INR i <= 2)
    by (split; [apply pos_INR | apply (le_INR i 2 Hi)]).
  assert (Bj : 0 <= INR j <= 2)
    by (split; [apply pos_INR | apply (le_INR j 2 Hj)]).
  unfold Player.explosionParticle.
  cbn [Particle.life Particle.angle Particle.width Particle.height
       Particle.dx Particle.dy Particle.angleV].
  pose proof (Hrnd (3 * (3 * i + j))%nat).
  pose proof (Hrnd (3 * (3 * i + j) + 1)%nat).
  pose proof (Hrnd (3 * (3 * i + j) + 2)%nat).
  repeat split; try reflexivity; lra.
Qed.

(** The explosion.  When [die()] takes effect and [Math.random()] returns
    values in [0,1), there are nine particles; each has unit life, no
    rotation yet, a side of a third of the player's width, a horizontal
    speed in [-275, 275), a vertical speed in [-525, 25) and a spin in
    [-10, 10). *)
Theorem explosion_is_bounded (rnd : nat -> R) (p : Player.t) :
  (forall n, 0 <= rnd n < 1) ->
  Player.isDead p = false ->
  let ps := Player.particles (Player.die rnd p) in
  List.length ps = 9%nat /\
  Forall
    (fun q =>
       Particle.life q = 1 /\ Particle.angle q = 0 /\
       Particle.width q = Player.width p / 3 /\
       Particle.height q = Player.width p / 3 /\
       -275 <= Particle.dx q < 275 /\
       -525 <= Particle.dy q < 25 /\
       -10 <= Particle.angleV q < 10)
    ps.
Proof.
  intros Hrnd Halive ps; subst ps.
  rewrite (die_particles rnd p Halive).
  unfold Player.createExplosion.
  cbn [Player.particles Player.set_particles flat_map map app].
  split; [reflexivity |].
  repeat (constructor;
          [apply (explosionParticle_bounded rnd p); [exact Hrnd | lia | lia]
          |]).
  constructor.
Qed.

(** [update] never writes the dead flag, the respawning flag or the
    consecutive-death counter. *)
Lemma update_keeps_flags (dt : R) (p : Player.t) :
  Player.isDead (Player.update dt p) = Player.isDead p /\
  Player.isRespawning (Player.update dt p) = Player.isRespawning p /\
  Player.consecutiveDeaths (Player.update dt p) =
    Player.consecutiveDeaths p.
Proof.
  unfold Player.update.
  destruct (Player.isDead p || Player.isRespawning p)%bool;
    [repeat split |].
  simpl. destruct (Player.onGround p); simpl;
    destruct (Js.gtb (Player.flashTime p) 0); repeat split.
Qed.

(** While the player is down, a frame ages every particle by the step and
    keeps the ones with life left. *)
Lemma update_ages_particles (dt L : R) (p : Player.t) :
  Player.isDead p = true ->
  Forall (fun q => Particle.life q <= L) (Player.particles p) ->
  Forall (fun q => 0 < Particle.life q <= L - dt)
    (Player.particles (Player.update dt p)).
Proof.
  intros Hd Hall.
  rewrite update_when_down by (now left).
  unfold Player.updateParticles. simpl.
  induction Hall as [| q qs Hq _ IH]; simpl; [constructor |].
  unfold Js.gtb.
  destruct (Js.ltb 0 (Particle.life q - dt)) eqn:E; [| exact IH].
  apply ltb_true_iff in E.
  constructor; [simpl; lra | exact IH].
Qed.

Lemma updates_age_particles (dts : list R) (L : R) (p : Player.t) :
  Player.isDead p = true ->
  Forall (fun q => Particle.life q <= L) (Player.particles p) ->
  dts <> [] ->
  Forall (fun q => 0 < Particle.life q <= L - Player.elapsed dts)
    (Player.particles (Player.updates dts p)).
Proof.
  revert L p. induction dts as [| dt dts IH]; intros L p Hd Hall Hne;
    [congruence |].
  unfold Player.updates. cbn [fold_left].
  pose proof (update_ages_particles dt L p Hd Hall) as Hstep.
  assert (Hd' : Player.isDead (Player.update dt p) = true)
    by (rewrite (proj1 (update_keeps_flags dt p)); exact Hd).
  destruct dts as [| dt' dts].
  - simpl. replace (L - (dt + 0)) with (L - dt) by ring. exact Hstep.
  - replace (L - Player.elapsed (dt :: dt' :: dts))
      with ((L - dt) - Player.elapsed (dt' :: dts))
      by (simpl; ring).
    apply (IH (L - dt) (Player.update dt p) Hd'); [| discriminate].
    eapply Forall_impl; [| exact Hstep]. simpl. intros q Hq. lra.
Qed.

(** The explosion is over within a second: once the frames after an
    effective [die()] add up to one second or more, no particle is left. *)
Theorem explosion_lasts_one_second
    (rnd : nat -> R) (p : Player.t) (dts : list R) :
  Player.isDead p = false ->
  1 <= Player.elapsed dts ->
  Player.particles (Player.updates dts (Player.die rnd p)) = [].
Proof.
  intros Halive Hsum.
  assert (Hne : dts <> []) by (intros ->; simpl in Hsum; lra).
  assert (Hall : Forall (fun q => Particle.life q <= 1)
                   (Player.particles (Player.die rnd p))).
  { destruct (die_explodes rnd p Halive) as [_ H].
    eapply Forall_impl; [| exact H]. simpl. intros q ->. lra. }
  pose proof (updates_age_particles dts 1 (Player.die rnd p)
                (die_sets_dead rnd p) Hall Hne) as H.
  destruct (Player.particles (Player.updates dts (Player.die rnd p)))
    as [| q qs]; [reflexivity |].
  inversion H as [| ? ? Hq _]; subst. lra.
Qed.

End Lifecycle.

Lemma explosion_is_bounded_witness :
  List.length
    (Player.particles (Player.die (fun _ => 1 / 2) Player.new)) = 9%nat.
Proof.
  assert (Hrnd : forall n : nat, 0 <= (fun _ : nat => 1 / 2) n < 1)
    by (intros n; simpl; lra).
  assert (Halive : Player.isDead Player.new = false) by reflexivity.
  apply (explosion_is_bounded (fun _ => 1 / 2) Player.new Hrnd Halive).
Defined.

Lemma explosion_lasts_one_second_witness :
  Player.particles
    (Player.updates [1 / 2; 1 / 2] (Player.die (fun _ => 0) Player.new))
  = [].
Proof.
  apply (explosion_lasts_one_second (fun _ => 0) Player.new [1 / 2; 1 / 2]).
  - reflexivity.
  - simpl. lra.
Defined.

Section DeathCounter.

Lemma die_keeps_bound (rnd : nat -> R) (p : Player.t) :
  Player.deathsBounded p -> Player.deathsBounded (Player.die rnd p).
Proof.
  unfold Player.deathsBounded. intros [Hr Ha].
  rewrite (die_sets_dead rnd p).
  split; [| discriminate].
  unfold Player.die.
  destruct (Player.isDead p) eqn:E; [exact Hr |].
  specialize (Ha eq_refl). simpl.
  destruct (Player.lastSafePlatform p) as [pl |]; simpl;
    [destruct (Platform.id pl =? Player.lastDeathPlatformId p)%Z |];
    simpl; lia.
Qed.

Lemma respawn_keeps_bound (p : Player.t) :
  Player.deathsBounded p -> Player.deathsBounded (Player.respawn p).
Proof.
  unfold Player.deathsBounded. intros [Hr _].
  assert (E : Player.consecutiveDeaths (Player.respawn p) =
              if (6 <? Player.consecutiveDeaths p)%Z then 0%Z
              else Player.consecutiveDeaths p).
  { unfold Player.respawn. simpl.
    destruct (6 <? Player.consecutiveDeaths p)%Z;
      destruct (Player.lastSafePlatform p); reflexivity. }
  rewrite E.
  destruct (6 <? Player.consecutiveDeaths p)%Z eqn:C.
  - split; [lia | intros _; lia].
  - apply Z.ltb_ge in C. split; [lia | intros _; lia].
Qed.

Lemma handlePlatformCollision_keeps_bound
    (rnd : nat -> R) (pl : Platform.t) (p : Player.t) :
  Player.deathsBounded p ->
  Player.deathsBounded (snd (Player.handlePlatformCollision rnd pl p)).
Proof.
  intros Hb. unfold Player.handlePlatformCollision.
  destruct (Player.landing p pl); [exact Hb |].
  destruct (Player.ceiling p pl); [exact Hb |].
  destruct (Player.horizontalOverlap p pl && Player.sideContact p pl)%bool;
    [| exact Hb].
  match goal with
  | |- context [if ?b then _ else _] => destruct b
  end; [exact Hb | now apply die_keeps_bound].
Qed.

(** The consecutive-death counter stays small.  Whatever methods are
    called on a new player, in whatever order and with whatever arguments,
    the counter is between 0 and 7, and at most 6 while the player is
    alive: [respawn()] clears it once it has passed 6. *)
Theorem consecutive_deaths_bounded (cs : list Player.call) :
  let p := Player.run cs Player.new in
  (0 <= Player.consecutiveDeaths p <= 7)%Z /\
  (Player.isDead p = false -> (Player.consecutiveDeaths p <= 6)%Z).
Proof.
  assert (Hrun : forall cs p,
             Player.deathsBounded p ->
             Player.deathsBounded (Player.run cs p)).
  { clear cs. unfold Player.run.
    induction cs as [| c cs IH]; intros p Hb; [exact Hb |].
    cbn [fold_left]. apply IH.
    destruct c; cbn [Player.exec].
    - unfold Player.deathsBounded.
      destruct (update_keeps_flags dt p) as (-> & _ & ->). exact Hb.
    - unfold Player.jump.
      match goal with
      | |- context [if ?b then _ else _] => destruct b
      end; exact Hb.
    - now apply handlePlatformCollision_keeps_bound.
    - unfold Player.handleCollectibleCollision.
      destruct (negb (Collectible.active c)); [exact Hb |].
      match goal with
      | |- context [if ?b then _ else _] => destruct b
      end; exact Hb.
    - now apply die_keeps_bound.
    - now apply respawn_keeps_bound.
    - unfold Player.deathsBounded. simpl. split; [lia | intros _; lia].
    - exact Hb.
    - exact Hb.
    - exact Hb.
    - exact Hb. }
  apply Hrun. unfold Player.deathsBounded. simpl. split; [lia | intros _; lia].
Qed.

End DeathCounter.

Section Respawn.

(** Respawning at a checkpoint.  With a last safe platform, [respawn()]
    leaves the player alive, without particles, at cruise speed, 20 units
    in from the platform's left edge with its bottom edge 20 units above
    the platform's top; a collision call for that platform then reports no
    contact and changes nothing.  Without one, the player is put at the
    respawn anchor. *)
Theorem respawn_clears_checkpoint (p : Player.t) :
  (forall pl,
      Player.lastSafePlatform p = Some pl ->
      let q := Player.respawn p in
      Player.isDead q = false /\ Player.isRespawning q = false /\
      Player.particles q = [] /\
      Player.dx q = Player.maxSpeed p /\ Player.dy q = 0 /\
      Player.x q = Platform.x pl + 20 /\
      Player.y q + Player.height q = Platform.y pl - 20 /\
      forall rnd,
        Player.handlePlatformCollision rnd pl q = (false, q)) /\
  (Player.lastSafePlatform p = None ->
      let q := Player.respawn p in
      Player.isDead q = false /\ Player.isRespawning q = false /\
      Player.particles q = [] /\
      Player.dx q = Player.maxSpeed p /\ Player.dy q = 0 /\
      Player.x q = Player.respawnX p /\ Player.y q = Player.respawnY p).
Proof.
  split.
  - intros pl Hpl q; subst q.
    assert (Hy : Player.y (Player.respawn p) =
                 Platform.y pl - Player.height p - 20)
      by (unfold Player.respawn; simpl; rewrite Hpl;
          destruct (6 <? Player.consecutiveDeaths p)%Z; reflexivity).
    assert (Hh : Player.height (Player.respawn p) = Player.height p)
      by (unfold Player.respawn; simpl; rewrite Hpl;
          destruct (6 <? Player.consecutiveDeaths p)%Z; reflexivity).
    assert (Hdy : Player.dy (Player.respawn p) = 0) by reflexivity.
    repeat split;
      try (unfold Player.respawn; simpl; rewrite Hpl;
           destruct (6 <? Player.consecutiveDeaths p)%Z; reflexivity).
    + rewrite Hy, Hh. lra.
    + intros rnd. unfold Player.handlePlatformCollision.
      assert (L : Player.landing (Player.respawn p) pl = false).
      { destruct (Player.landing (Player.respawn p) pl) eqn:E;
          [| reflexivity].
        apply landing_true_iff in E. rewrite Hy, Hh in E. lra. }
      assert (C : Player.ceiling (Player.respawn p) pl = false).
      { destruct (Player.ceiling (Player.respawn p) pl) eqn:E;
          [| reflexivity].
        apply ceiling_true_iff in E. rewrite Hdy in E. lra. }
      assert (S : Player.sideContact (Player.respawn p) pl = false).
      { unfold Player.sideContact, Js.gtb. rewrite Hy, Hh.
        rewrite (proj2 (ltb_false_iff (Platform.y pl)
                          (Platform.y pl - Player.height p - 20 +
                           Player.height p))) by lra.
        rewrite andb_false_r. reflexivity. }
      rewrite L, C, S, andb_false_r. reflexivity.
  - intros Hnone q; subst q.
    repeat split;
      unfold Player.respawn; simpl; rewrite Hnone;
      destruct (6 <? Player.consecutiveDeaths p)%Z; reflexivity.
Qed.

End Respawn.

Lemma respawn_clears_checkpoint_witness :
  Player.x (Player.respawn Scenario.checkpointPlayer) = 180 + 20 /\
  Player.handlePlatformCollision (fun _ => 0) Scenario.thinPlatform
    (Player.respawn Scenario.checkpointPlayer) =
    (false, Player.respawn Scenario.checkpointPlayer).
Proof.
  destruct (respawn_clears_checkpoint Scenario.checkpointPlayer)
    as [H _].
  specialize (H Scenario.thinPlatform eq_refl). cbv zeta in H.
  destruct H as (_ & _ & _ & _ & _ & Hx & _ & Hc).
  split; [exact Hx | apply Hc].
Defined.

(** ** A frame of a living player *)

Section Frame.

(** One physics step of a living player: gravity is added to [dy] first
    and the new [dy] moves the player, [dx] moves it sideways and is kept,
    the grounded flag is copied to [wasOnGround] and cleared, and the
    player is still alive.  A step of zero length moves nothing. *)
Theorem update_integrates (dt : R) (p : Player.t) :
  Player.isDead p = false ->
  Player.isRespawning p = false ->
  let q := Player.update dt p in
  Player.dy q = Player.dy p + Player.gravity p * dt /\
  Player.x q = Player.x p + Player.dx p * dt /\
  Player.y q = Player.y p + (Player.dy p + Player.gravity p * dt) * dt /\
  Player.dx q = Player.dx p /\
  Player.onGround q = false /\
  Player.wasOnGround q = Player.onGround p /\
  Player.isDead q = false /\
  (dt = 0 ->
     Player.x q = Player.x p /\ Player.y q = Player.y p /\
     Player.dy q = Player.dy p /\
     Player.flashTime q = Player.flashTime p).
Proof.
  intros Hd Hr q; subst q.
  unfold Player.update. rewrite Hd, Hr. simpl.
  destruct (Player.onGround p) eqn:G; simpl;
    destruct (Js.gtb (Player.flashTime p) 0); simpl;
    rewrite ?G;
    repeat split; try exact Hd; try (subst dt; lra).
Qed.

(** [Math.round] is within a half of its argument. *)
Lemma round_is_near (r : R) : - (1 / 2) < Js.round r - r <= 1 / 2.
Proof.
  unfold Js.round.
  destruct (base_Int_part (r + / 2)) as [Hle Hgt]. lra.
Qed.

(** On the ground the square is squared up: a step of a living, grounded
    player turns its angle into a whole number of quarter turns, the one
    nearest to where it was, so by at most an eighth of a turn.  In the
    air the angle grows by [rotationSpeed * dt]. *)
Theorem update_snaps_angle (dt : R) (p : Player.t) :
  Player.isDead p = false ->
  Player.isRespawning p = false ->
  (Player.onGround p = true ->
     (exists k : Z, Player.angle (Player.update dt p) = IZR k * (PI / 2)) /\
     Rabs (Player.angle (Player.update dt p) - Player.angle p) <= PI / 4) /\
  (Player.onGround p = false ->
     Player.angle (Player.update dt p) =
     Player.angle p + Player.rotationSpeed p * dt).
Proof.
  intros Hd Hr.
  pose proof PI_RGT_0 as Hpi.
  split; intros Hg.
  - assert (E : Player.angle (Player.update dt p) =
                Js.round (Player.angle p / (PI / 2)) * (PI / 2)).
    { unfold Player.update. rewrite Hd, Hr. simpl. rewrite Hg. simpl.
      destruct (Js.gtb (Player.flashTime p) 0); reflexivity. }
    rewrite E. split.
    + exists (Int_part (Player.angle p / (PI / 2) + / 2)). reflexivity.
    + pose proof (round_is_near (Player.angle p / (PI / 2))) as Hn.
      set (k := Js.round (Player.angle p / (PI / 2))) in *.
      replace (k * (PI / 2) - Player.angle p)
        with ((k - Player.angle p / (PI / 2)) * (PI / 2))
        by (field; lra).
      apply Rabs_le. split; nra.
  - unfold Player.update. rewrite Hd, Hr. simpl. rewrite Hg. simpl.
    destruct (Js.gtb (Player.flashTime p) 0); reflexivity.
Qed.

(** No jump without fresh ground contact.  A second [jump()] right after
    a first fails, and so does a [jump()] right after [update]: only a
    collision call can ground the player again.  After a landing a living
    player can jump, and leaves with the jump force. *)
Theorem jump_needs_ground_contact (p : Player.t) :
  fst (Player.jump (snd (Player.jump p))) = false /\
  (forall dt, fst (Player.jump (Player.update dt p)) = false) /\
  (forall rnd pl,
      Player.isDead p = false -> Player.isRespawning p = false ->
      Player.landing p pl = true ->
      let landed := snd (Player.handlePlatformCollision rnd pl p) in
      fst (Player.jump landed) = true /\
      Player.dy (snd (Player.jump landed)) = Player.jumpForce p).
Proof.
  split; [| split].
  - unfold Player.jump.
    destruct (Player.onGround p) eqn:G, (Player.isDead p) eqn:D,
      (Player.isRespawning p) eqn:Rs; simpl;
      rewrite ?G, ?D, ?Rs; reflexivity.
  - intros dt. unfold Player.jump.
    destruct (update_keeps_flags dt p) as (Hd & Hr & _).
    rewrite Hd, Hr.
    destruct (Player.isDead p) eqn:D;
      [rewrite andb_false_r; reflexivity |].
    destruct (Player.isRespawning p) eqn:Rs;
      [rewrite andb_false_r; reflexivity |].
    destruct (update_integrates dt p D Rs) as (_ & _ & _ & _ & -> & _).
    reflexivity.
  - intros rnd pl D Rs L landed; subst landed.
    rewrite (landing_result rnd pl p L). simpl.
    unfold Player.jump. simpl. rewrite D, Rs. simpl.
    split; reflexivity.
Qed.

(** Landing is seen once.  After a step of a living player and a landing
    in the same frame, [justLanded()] is true exactly when the player was
    not grounded before the step. *)
Theorem justLanded_after_frame
    (rnd : nat -> R) (dt : R) (pl : Platform.t) (p : Player.t) :
  Player.isDead p = false ->
  Player.isRespawning p = false ->
  Player.landing (Player.update dt p) pl = true ->
  Player.justLanded
    (snd (Player.handlePlatformCollision rnd pl (Player.update dt p))) =
  negb (Player.onGround p).
Proof.
  intros D Rs L.
  rewrite (landing_result rnd pl _ L).
  unfold Player.justLanded. simpl.
  destruct (update_integrates dt p D Rs) as (_ & _ & _ & _ & _ & -> & _).
  reflexivity.
Qed.

End Frame.

(** ** Overlap tests *)

Section Overlap.

(** Two intervals of positive length overlap in a point exactly when each
    starts before the other ends. *)
Lemma intervals_meet (a w b v : R) :
  0 < w -> 0 < v ->
  (b < a + w /\ a < b + v <->
   exists t, a < t < a + w /\ b < t < b + v).
Proof.
  intros Hw Hv. split.
  - intros [H1 H2].
    exists ((Rmax a b + Rmin (a + w) (b + v)) / 2).
    unfold Rmax, Rmin.
    destruct (Rle_dec a b), (Rle_dec (a + w) (b + v)); lra.
  - intros (t & H1 & H2). lra.
Qed.

(** The teleport test is exact: for a player and a teleport of positive
    size, [handleTeleportCollision] returns true exactly when some point
    lies strictly inside both rectangles. *)
Theorem teleport_test_is_overlap (tp : Rect.t) (p : Player.t) :
  0 < Player.width p -> 0 < Player.height p ->
  0 < Rect.width tp -> 0 < Rect.height tp ->
  (Player.handleTeleportCollision tp p = true <->
   exists px py,
     Rect.inside (Player.getBounds p) px py /\ Rect.inside tp px py).
Proof.
  intros Hw Hh Htw Hth.
  unfold Player.handleTeleportCollision, Js.gtb, Rect.inside.
  rewrite !andb_true_iff, !ltb_true_iff. simpl.
  pose proof (intervals_meet (Player.x p) (Player.width p)
                (Rect.x tp) (Rect.width tp) Hw Htw) as Hx.
  pose proof (intervals_meet (Player.y p) (Player.height p)
                (Rect.y tp) (Rect.height tp) Hh Hth) as Hy.
  split.
  - intros [[[H1 H2] H3] H4].
    destruct (proj1 Hx (conj H1 H2)) as (px & Hpx).
    destruct (proj1 Hy (conj H3 H4)) as (py & Hpy).
    exists px, py. tauto.
  - intros (px & py & [Hpx Hpy] & [Htx Hty]).
    assert (Hx' : Rect.x tp < Player.x p + Player.width p /\
                  Player.x p < Rect.x tp + Rect.width tp)
      by (apply Hx; exists px; tauto).
    assert (Hy' : Rect.y tp < Player.y p + Player.height p /\
                  Player.y p < Rect.y tp + Rect.height tp)
      by (apply Hy; exists py; tauto).
    tauto.
Qed.

(** The camera never culls what is on screen: with a render buffer that is
    not negative, an object of positive size that shares a point with the
    viewport is visible. *)
Theorem on_screen_is_visible (object : Rect.t) (c : Camera.t) :
  0 <= Camera.renderBuffer c ->
  (exists px py,
      Rect.inside object px py /\ Rect.inside (Camera.viewport c) px py) ->
  Camera.isVisible object c = true.
Proof.
  intros Hb (px & py & [Hox Hoy] & [Hvx Hvy]).
  simpl in Hvx, Hvy.
  unfold Camera.isVisible, Js.gtb. simpl.
  rewrite !andb_true_iff, !ltb_true_iff. lra.
Qed.

(** After [init] the render buffer is half the canvas width, so the
    culling box reaches half a screen beyond the viewport on every side. *)
Lemma init_bounds (w h : R) (c : Camera.t) :
  let b := Camera.getBounds (Camera.init w h c) in
  CameraBounds.left b = Camera.x c - w / 2 /\
  CameraBounds.right b = Camera.x c + w + w / 2 /\
  CameraBounds.top b = Camera.y c - w / 2 /\
  CameraBounds.bottom b = Camera.y c + h + w / 2.
Proof. simpl. repeat split; lra. Qed.

(** A collectible is visible exactly when its square shares a point with
    the box of the camera bounds (both of positive extent). *)
Theorem collectible_visible_iff_overlap
    (b : CameraBounds.t) (c : Collectible.t) :
  0 < Collectible.size c ->
  CameraBounds.left b < CameraBounds.right b ->
  CameraBounds.top b < CameraBounds.bottom b ->
  (Collectible.isVisible b c = true <->
   exists px py,
     Rect.inside (Collectible.getBounds c) px py /\
     CameraBounds.inside b px py).
Proof.
  intros Hs Hlr Htb.
  unfold Collectible.isVisible, Js.gtb, Rect.inside, CameraBounds.inside.
  rewrite !andb_true_iff, !ltb_true_iff. simpl.
  pose proof (intervals_meet
                (Collectible.x c - Collectible.size c / 2)
                (Collectible.size c)
                (CameraBounds.left b)
                (CameraBounds.right b - CameraBounds.left b)
                Hs ltac:(lra)) as Hx.
  pose proof (intervals_meet
                (Collectible.y c - Collectible.size c / 2)
                (Collectible.size c)
                (CameraBounds.top b)
                (CameraBounds.bottom b - CameraBounds.top b)
                Hs ltac:(lra)) as Hy.
  split.
  - intros [[[H1 H2] H3] H4].
    destruct (proj1 Hx ltac:(lra)) as (px & Hpx).
    destruct (proj1 Hy ltac:(lra)) as (py & Hpy).
    exists px, py. repeat split; lra.
  - intros (px & py & [Hpx Hpy] & [Hbx Hby]).
    assert (Hx' : CameraBounds.left b <
                  Collectible.x c - Collectible.size c / 2 +
                  Collectible.size c /\
                  Collectible.x c - Collectible.size c / 2 <
                  CameraBounds.left b +
                  (CameraBounds.right b - CameraBounds.left b))
      by (apply Hx; exists px; lra).
    assert (Hy' : CameraBounds.top b <
                  Collectible.y c - Collectible.size c / 2 +
                  Collectible.size c /\
                  Collectible.y c - Collectible.size c / 2 <
                  CameraBounds.top b +
                  (CameraBounds.bottom b - CameraBounds.top b))
      by (apply Hy; exists py; lra).
    repeat split; lra.
Qed.

End Overlap.

(** ** Collectibles *)

Section CollectibleProperties.

(** A successful [collect()] leaves the collectible inactive with a pulse
    of 1. *)
Lemma collect_true (now : R) (c : Collectible.t) :
  fst (Collectible.collect now c) = true ->
  Collectible.active (snd (Collectible.collect now c)) = false /\
  Collectible.pulseEffect (snd (Collectible.collect now c)) = 1.
Proof.
  unfold Collectible.collect.
  destruct (negb (Collectible.active c) || Collectible.collected c)%bool;
    simpl; [discriminate | auto].
Qed.

(** [collect()] succeeds at most once.  It returns true exactly on an
    active collectible that is not collected yet, which it deactivates,
    marks collected, stamps with the time and gives a pulse of 1; otherwise
    it changes nothing.  Whatever the first call did, a second call returns
    false and changes nothing. *)
Theorem collect_succeeds_once (now now' : R) (c : Collectible.t) :
  let r := Collectible.collect now c in
  (fst r = true <->
     Collectible.active c = true /\ Collectible.collected c = false) /\
  (fst r = true ->
     Collectible.active (snd r) = false /\
     Collectible.collected (snd r) = true /\
     Collectible.collectionTime (snd r) = now /\
     Collectible.pulseEffect (snd r) = 1 /\
     Collectible.x (snd r) = Collectible.x c /\
     Collectible.y (snd r) = Collectible.y c /\
     Collectible.value (snd r) = Collectible.value c) /\
  (fst r = false -> snd r = c) /\
  Collectible.collect now' (snd r) = (false, snd r).
Proof.
  unfold Collectible.collect.
  destruct (Collectible.active c) eqn:A, (Collectible.collected c) eqn:C;
    simpl; rewrite ?A, ?C; simpl;
    (split; [split; [intros H; try discriminate; tauto
                    | intros [H1 H2]; try discriminate; reflexivity] |]);
    (split; [intros H; try discriminate; repeat split |]);
    (split; [intros H; try discriminate; reflexivity | reflexivity]).
Qed.

(** A collected collectible is inactive, from construction on and through
    [update], [collect] and the player's collision check. *)
Theorem collected_implies_inactive
    (now dt x0 y0 : R) (ty : string) (p : Player.t) (c : Collectible.t) :
  let ok c := Collectible.collected c = true ->
              Collectible.active c = false in
  ok (Collectible.new x0 y0 ty) /\
  (ok c -> ok (Collectible.update dt c)) /\
  (ok c -> ok (snd (Collectible.collect now c))) /\
  (ok c -> ok (snd (Player.handleCollectibleCollision c p))).
Proof.
  cbv zeta. split; [simpl; discriminate |].
  split; [| split].
  - unfold Collectible.update.
    destruct (negb (Collectible.active c)) eqn:E; [tauto |].
    simpl. tauto.
  - unfold Collectible.collect.
    destruct (negb (Collectible.active c) || Collectible.collected c)%bool;
      simpl; tauto.
  - unfold Player.handleCollectibleCollision.
    destruct (negb (Collectible.active c)); [simpl; tauto |].
    destruct (Js.ltb _ _); simpl; tauto.
Qed.

(** [update] animates only active collectibles.  An inactive one is left
    exactly as it is, so the pulse that [collect()] starts never decays.
    An active one keeps its position, size and flags, and ends with a bob
    offset within [-2, 2], so that it is drawn within 2 units of its
    position, and a glow within [0.2, 0.8]. *)
Theorem collectible_update_animates (now dt : R) (c : Collectible.t) :
  (Collectible.active c = false -> Collectible.update dt c = c) /\
  (fst (Collectible.collect now c) = true ->
     Collectible.update dt (snd (Collectible.collect now c)) =
       snd (Collectible.collect now c) /\
     Collectible.pulseEffect
       (Collectible.update dt (snd (Collectible.collect now c))) = 1) /\
  (Collectible.active c = true ->
     let c' := Collectible.update dt c in
     Collectible.x c' = Collectible.x c /\
     Collectible.y c' = Collectible.y c /\
     Collectible.size c' = Collectible.size c /\
     Collectible.active c' = true /\
     Collectible.collected c' = Collectible.collected c /\
     -2 <= Collectible.bobOffset c' <= 2 /\
     Rabs (Collectible.rdY (Collectible.getRenderData c') - Collectible.y c)
       <= 2 /\
     2 / 10 <= Collectible.glowIntensity c' <= 8 / 10).
Proof.
  split; [| split].
  - intros A. unfold Collectible.update. rewrite A. reflexivity.
  - intros H.
    destruct (collect_true now c H) as (A & P).
    unfold Collectible.update. rewrite A. simpl. split; [reflexivity |].
    exact P.
  - intros A c'; subst c'. unfold Collectible.update. rewrite A. simpl.
    pose proof (SIN_bound
                  ((Collectible.animationFrame c +
                    dt * Collectible.animationSpeed c) *
                   Collectible.bobSpeed c)) as Hb.
    pose proof (SIN_bound
                  ((Collectible.animationFrame c +
                    dt * Collectible.animationSpeed c) * 3)) as Hg.
    repeat split; try exact A; try lra.
    apply Rabs_le. lra.
Qed.

(** Every entry of the catalogue is within these bounds. *)
Lemma catalogue_bounds (k : string) (cfg : Collectible.Config) :
  In (k, cfg) Collectible.typeConfigs ->
  8 <= Collectible.cfgSize cfg <= 16 /\
  10 <= Collectible.cfgValue cfg <= 100 /\
  0 <= Collectible.cfgRotationSpeed cfg <= 4.
Proof.
  unfold Collectible.typeConfigs. intros H.
  repeat (destruct H as [H | H];
          [inversion H; subst; simpl; repeat split; lra |]).
  destruct H.
Qed.

(** Whatever type tag it is given (other than the name of an inherited
    property), the constructor yields an active,
    uncollected collectible that keeps the tag, with a size from 8 to 16, a
    value from 10 to 100 and an animation speed from 0.1 to 0.3.  A tag
    that is not in the catalogue gets the pixel's size 8, value 10, name
    and empty effect list. *)
Theorem new_collectible_is_catalogued (x0 y0 : R) (ty : string) :
  ~ In ty Js.inherited ->
  let c := Collectible.new x0 y0 ty in
  Collectible.x c = x0 /\ Collectible.y c = y0 /\
  Collectible.type c = ty /\
  Collectible.active c = true /\ Collectible.collected c = false /\
  8 <= Collectible.size c <= 16 /\
  10 <= Collectible.value c <= 100 /\
  1 / 10 <= Collectible.animationSpeed c <= 3 / 10 /\
  (Js.get Collectible.typeConfigs ty = None ->
     Collectible.size c = 8 /\ Collectible.value c = 10 /\
     Collectible.name c = "Pixel"%string /\ Collectible.effects c = []).
Proof.
  intros _. unfold Collectible.new.
  destruct (Js.get Collectible.typeConfigs ty) as [cfg |] eqn:E.
  - apply get_In in E.
    destruct (catalogue_bounds ty cfg E) as (Hs & Hv & Hr).
    cbv zeta. simpl.
    repeat split; try lra; discriminate.
  - cbv zeta. simpl. repeat split; lra.
Qed.

(** A collectible is picked up at most once by the player: when a
    collision check succeeds, it hands back the collectible inactive and the
    player flashing for 10, and any further check of that collectible, by a
    player in any state, returns false and changes nothing.  A check that
    fails changes nothing either. *)
Theorem collectible_is_hit_once
    (c : Collectible.t) (p p2 : Player.t) :
  let r := Player.handleCollectibleCollision c p in
  (fst (fst r) = true ->
     Collectible.active (snd r) = false /\
     Player.flashTime (snd (fst r)) = 10 /\
     snd r = Collectible.set_active false c /\
     snd (fst r) = Player.set_flashTime 10 p) /\
  (fst (fst r) = false -> snd (fst r) = p /\ snd r = c) /\
  (fst (fst r) = true ->
     Player.handleCollectibleCollision (snd r) p2 = (false, p2, snd r)).
Proof.
  unfold Player.handleCollectibleCollision.
  destruct (negb (Collectible.active c)) eqn:A.
  - simpl. split; [discriminate |]. split; [auto | discriminate].
  - destruct (Js.ltb _ _); simpl.
    + split; [intros _; repeat split |].
      split; [discriminate | reflexivity].
    + split; [discriminate |]. split; [auto | discriminate].
Qed.

End CollectibleProperties.

(** ** More on the collectible manager *)

Section ManagerProperties.

Lemma forEach_cons (f : Collectible.t -> Collectible.t)
    (a : ref) (l : list ref) (h : heap) :
  forEach f (a :: l) h =
  forEach f l
    match deref h a with
    | Some c => store h a (f c)
    | None => h
    end.
Proof. reflexivity. Qed.

Lemma forEach_elsewhere (f : Collectible.t -> Collectible.t)
    (l : list ref) (h : heap) (a : ref) :
  ~ In a l -> deref (forEach f l h) a = deref h a.
Proof.
  revert h; induction l as [| b l IH]; intros h Hn; [reflexivity |].
  rewrite forEach_cons, IH by (intros H; apply Hn; now right).
  destruct (deref h b) as [c |]; [| reflexivity].
  apply deref_store_other. intros ->. apply Hn. now left.
Qed.

(** The loop applies its body once to each collectible of a list without
    repetition. *)
Lemma forEach_at (f : Collectible.t -> Collectible.t)
    (l : list ref) (h : heap) (a : ref) (c : Collectible.t) :
  NoDup l -> In a l -> deref h a = Some c ->
  deref (forEach f l h) a = Some (f c).
Proof.
  intros Hnd. revert h; induction Hnd as [| b l Hb Hnd IH];
    intros h Hin Hd; [destruct Hin |].
  rewrite forEach_cons.
  destruct Hin as [-> | Hin].
  - rewrite forEach_elsewhere by exact Hb.
    rewrite Hd. now apply (deref_store_same h a c).
  - assert (Hne : b <> a) by (intros ->; contradiction).
    apply IH; [exact Hin |].
    destruct (deref h b) as [cb |]; [| exact Hd].
    rewrite deref_store_other by exact Hne. exact Hd.
Qed.

(** [reset()] re-arms the level.  In a state reached by the manager's own
    methods, [reset()] zeroes the collected count, drops the effects and
    keeps the total; every owned collectible is active and uncollected
    again, so a [collectItem] of any of them is credited: the count becomes
    1 and one effect with the collectible's position, value and type and a
    life of 1 is recorded. *)
Theorem reset_rearms (now : R) (a : ref) (w : world) :
  wellFormed w ->
  In a (collectibles (snd w)) ->
  let w1 := reset w in
  let w2 := collectItem now a w1 in
  collectedCount (snd w1) = 0%Z /\
  collectionEffects (snd w1) = [] /\
  totalCount (snd w1) = totalCount (snd w) /\
  collectibles (snd w1) = collectibles (snd w) /\
  collectedCount (snd w2) = 1%Z /\
  exists c,
    deref (fst w) a = Some c /\
    collectionEffects (snd w2) =
      [ {| x := Collectible.x c; y := Collectible.y c;
           value := Collectible.value c; life := 1;
           type := Collectible.type c |} ].
Proof.
  destruct w as [h m]. intros (Hnd & Hin & _) Ha w1 w2.
  subst w2 w1. simpl in *.
  destruct (deref_allocated h a (Hin a Ha)) as [c Hd].
  pose proof (forEach_at
                (fun c => Collectible.set_collected false
                            (Collectible.set_active true c))
                (collectibles m) h a c Hnd Ha Hd) as Hcell.
  unfold reset, collectItem. rewrite Hcell. simpl.
  do 5 (split; [reflexivity |]).
  exists c. split; [exact Hd | reflexivity].
Qed.

(** [addCollectibles] in closed form: one new collectible per position, in
    order, of the given type, appended to the heap and to the manager's
    list; the total grows by the number of positions and the collected
    count and the effects are untouched.  The i-th new reference points at
    a fresh collectible placed at the i-th position. *)
Theorem addCollectibles_appends
    (positions : list (R * R)) (ty : string) (w : world) :
  let w' := addCollectibles positions ty w in
  fst w' =
    fst w ++
    map (fun pos => Collectible.new (fst pos) (snd pos) ty) positions /\
  collectibles (snd w') =
    collectibles (snd w) ++
    seq (List.length (fst w)) (List.length positions) /\
  totalCount (snd w') =
    (totalCount (snd w) + Z.of_nat (List.length positions))%Z /\
  collectedCount (snd w') = collectedCount (snd w) /\
  collectionEffects (snd w') = collectionEffects (snd w) /\
  forall i pos,
    nth_error positions i = Some pos ->
    deref (fst w') (List.length (fst w) + i)%nat =
      Some (Collectible.new (fst pos) (snd pos) ty).
Proof.
  assert (Hmain : forall positions w,
             let w' := addCollectibles positions ty w in
             fst w' =
               fst w ++
               map (fun pos => Collectible.new (fst pos) (snd pos) ty)
                 positions /\
             collectibles (snd w') =
               collectibles (snd w) ++
               seq (List.length (fst w)) (List.length positions) /\
             totalCount (snd w') =
               (totalCount (snd w) + Z.of_nat (List.length positions))%Z /\
             collectedCount (snd w') = collectedCount (snd w) /\
             collectionEffects (snd w') = collectionEffects (snd w)).
  { clear. intros positions.
    induction positions as [| pos positions IH]; intros [h m].
    - simpl. rewrite !app_nil_r. repeat split. lia.
    - unfold addCollectibles. cbn [fold_left].
      fold (addCollectibles positions ty
              (snd (addCollectible (fst pos) (snd pos) ty (h, m)))).
      specialize (IH (snd (addCollectible (fst pos) (snd pos) ty (h, m)))).
      cbv zeta in IH |- *.
      destruct IH as (H1 & H2 & H3 & H4 & H5).
      rewrite H1, H2, H3, H4, H5. simpl.
      rewrite length_app. simpl. rewrite Nat.add_1_r.
      rewrite <- !app_assoc. simpl.
      repeat split. lia. }
  intros w'. destruct (Hmain positions w) as (H1 & H2 & H3 & H4 & H5).
  fold w' in H1, H2, H3, H4, H5.
  repeat split; try assumption.
  intros i pos Hi. unfold deref. rewrite H1.
  rewrite nth_error_app2 by lia.
  replace (List.length (fst w) + i - List.length (fst w))%nat with i by lia.
  rewrite nth_error_map, Hi. reflexivity.
Qed.

(** [getCollectionProgress] on its own: with no collectibles the
    percentage is 0 rather than a division by zero; otherwise it is 100
    exactly when the collected count equals the total count, and it is the
    collected share of the total. *)
Theorem progress_percentage (m : t) :
  collected (getCollectionProgress m) = collectedCount m /\
  total (getCollectionProgress m) = totalCount m /\
  ((totalCount m <= 0)%Z -> percentage (getCollectionProgress m) = 0) /\
  ((0 < totalCount m)%Z ->
     percentage (getCollectionProgress m) * IZR (totalCount m) =
       100 * IZR (collectedCount m) /\
     (percentage (getCollectionProgress m) = 100 <->
        collectedCount m = totalCount m)).
Proof.
  unfold getCollectionProgress. simpl.
  split; [reflexivity |]. split; [reflexivity |]. split.
  - intros H. rewrite (proj2 (Z.ltb_ge _ _) H). reflexivity.
  - intros H. rewrite (proj2 (Z.ltb_lt _ _) H).
    assert (Ht : 0 < IZR (totalCount m)) by (apply IZR_lt; exact H).
    split; [field; lra |].
    split.
    + intros E. apply eq_IZR.
      apply (Rmult_eq_compat_r (IZR (totalCount m))) in E.
      field_simplify in E; lra.
    + intros ->. field. lra.
Qed.

End ManagerProperties.

Lemma reset_rearms_witness :
  let w := run Scenario.ownedCollect initial in
  collectedCount (snd (reset w)) = 0%Z /\
  collectedCount (snd (collectItem 5 0%nat (reset w))) = 1%Z.
Proof.
  assert (Hw : wellFormed (run Scenario.ownedCollect initial)).
  { apply wellFormed_run; [apply wellFormed_initial |].
    simpl. repeat split. left. reflexivity. }
  assert (Ha : In 0%nat
                 (collectibles (snd (run Scenario.ownedCollect initial))))
    by (left; reflexivity).
  pose proof (reset_rearms 5 0%nat _ Hw Ha) as H.
  cbv zeta in H |- *.
  destruct H as (H1 & _ & _ & _ & H5 & _).
  split; [exact H1 | exact H5].
Defined.

Section EffectsAndTypes.

Lemma addCollectible_keeps_effects (x0 y0 : R) (ty : string) (w : world) :
  collectionEffects (snd (snd (addCollectible x0 y0 ty w))) =
  collectionEffects (snd w).
Proof. destruct w as [h m]. reflexivity. Qed.

Lemma addCollectibles_keeps_effects
    (positions : list (R * R)) (ty : string) (w : world) :
  collectionEffects (snd (addCollectibles positions ty w)) =
  collectionEffects (snd w).
Proof.
  unfold addCollectibles. revert w.
  induction positions as [| pos positions IH]; intros w; [reflexivity |].
  cbn [fold_left]. rewrite IH. apply addCollectible_keeps_effects.
Qed.

(** A frame ages the effects and drops the spent ones. *)
Lemma update_ages_effects (dt L : R) (w : world) :
  Forall (fun e => life e <= L) (collectionEffects (snd w)) ->
  Forall (fun e => 0 < life e <= L - dt)
    (collectionEffects (snd (update dt w))).
Proof.
  destruct w as [h m]. unfold update. simpl.
  induction 1 as [| e es He _ IH]; simpl; [constructor |].
  unfold Js.gtb.
  destruct (Js.ltb 0 (life e - dt)) eqn:E; [| exact IH].
  apply ltb_true_iff in E.
  constructor; [simpl; lra | exact IH].
Qed.

Lemma collectItem_effects (now : R) (a : ref) (w : world) :
  Forall (fun e => 0 < life e <= 1) (collectionEffects (snd w)) ->
  Forall (fun e => 0 < life e <= 1)
    (collectionEffects (snd (collectItem now a w))).
Proof.
  destruct w as [h m]. intros H. unfold collectItem.
  destruct (deref h a) as [c |]; [| exact H].
  destruct (Collectible.collect now c) as [[|] c']; [| exact H].
  simpl. apply Forall_app. split; [exact H |].
  constructor; [simpl; lra | constructor].
Qed.

(** A collection effect lasts at most a second.  In every state the
    manager reaches when time never runs backwards, each effect has a life
    in (0, 1]; a frame of a second or more therefore leaves no effect. *)
Theorem effects_last_one_second (cs : list call) :
  stepsForward cs ->
  let w := run cs initial in
  Forall (fun e => 0 < life e <= 1) (collectionEffects (snd w)) /\
  forall dt, 1 <= dt -> collectionEffects (snd (update dt w)) = [].
Proof.
  assert (Hrun : forall cs w,
             stepsForward cs ->
             Forall (fun e => 0 < life e <= 1) (collectionEffects (snd w)) ->
             Forall (fun e => 0 < life e <= 1)
               (collectionEffects (snd (run cs w)))).
  { clear cs. unfold run.
    induction cs as [| c cs IH]; intros w Hfw Hw; [exact Hw |].
    cbn [fold_left]. destruct Hfw as [Hc Hfw].
    apply IH; [exact Hfw |].
    destruct c; cbn [exec].
    - rewrite addCollectible_keeps_effects. exact Hw.
    - rewrite addCollectibles_keeps_effects. exact Hw.
    - eapply Forall_impl;
        [| apply (update_ages_effects dt 1 w);
           eapply Forall_impl; [| exact Hw]; simpl; intros e He; lra].
      simpl. intros e He. lra.
    - destruct (checkPlayerCollision_keeps_manager now p w) as (-> & _).
      exact Hw.
    - now apply collectItem_effects.
    - destruct w as [h m]. constructor.
    - destruct w as [h m]. constructor. }
  intros Hfw w.
  assert (Hw : Forall (fun e => 0 < life e <= 1) (collectionEffects (snd w)))
    by (apply Hrun; [exact Hfw | constructor]).
  split; [exact Hw |].
  intros dt Hdt.
  assert (Hle : Forall (fun e => life e <= 1) (collectionEffects (snd w)))
    by (eapply Forall_impl; [| exact Hw]; simpl; intros e He; lra).
  pose proof (update_ages_effects dt 1 w Hle) as H.
  destruct (collectionEffects (snd (update dt w))) as [| e es];
    [reflexivity |].
  inversion H as [| ? ? He _]; subst. lra.
Qed.

(** The random type generator.  Whatever [Math.random()] returns, the type
    is one of the eight listed ones, each of which is in the catalogue, so
    never an invincibility or a magnet.  Up to 0.4 it is a pixel, then up
    to 0.6 a gem, up to 0.7 a star, up to 0.8 a power-up, and the four
    remaining types share the rest in steps of 0.05. *)
Theorem random_type_distribution (random : R) :
  In (generateRandomType random) randomTypes /\
  (exists cfg,
      Js.get Collectible.typeConfigs (generateRandomType random) = Some cfg) /\
  generateRandomType random <> "invincibility"%string /\
  generateRandomType random <> "magnet"%string /\
  (random <= 4 / 10 -> generateRandomType random = "pixel"%string) /\
  (4 / 10 < random <= 6 / 10 ->
     generateRandomType random = "gem"%string) /\
  (6 / 10 < random <= 7 / 10 ->
     generateRandomType random = "star"%string) /\
  (7 / 10 < random <= 8 / 10 ->
     generateRandomType random = "powerUp"%string) /\
  (8 / 10 < random <= 85 / 100 ->
     generateRandomType random = "formChange"%string) /\
  (85 / 100 < random <= 9 / 10 ->
     generateRandomType random = "health"%string) /\
  (9 / 10 < random <= 95 / 100 ->
     generateRandomType random = "speedBoost"%string) /\
  (95 / 100 < random <= 1 ->
     generateRandomType random = "jumpBoost"%string).
Proof.
  assert (Hlisted : In (generateRandomType random) randomTypes).
  { unfold generateRandomType, randomTypes, randomWeights, pickType.
    repeat match goal with
      | |- context [Js.leb ?a ?b] => destruct (Js.leb a b)
      end; simpl; tauto. }
  split; [exact Hlisted |].
  split; [| split; [| split]].
  - unfold randomTypes in Hlisted. simpl in Hlisted.
    repeat (destruct Hlisted as [<- | Hlisted];
            [eexists; reflexivity |]).
    destruct Hlisted.
  - intros E. rewrite E in Hlisted.
    unfold randomTypes in Hlisted. simpl in Hlisted.
    repeat (destruct Hlisted as [H | Hlisted]; [discriminate |]).
    destruct Hlisted.
  - intros E. rewrite E in Hlisted.
    unfold randomTypes in Hlisted. simpl in Hlisted.
    repeat (destruct Hlisted as [H | Hlisted]; [discriminate |]).
    destruct Hlisted.
  - unfold generateRandomType, randomTypes, randomWeights, pickType.
    repeat split; intros; js_compare; reflexivity.
Qed.

End EffectsAndTypes.

Lemma effects_last_one_second_witness :
  collectionEffects
    (snd (update 1 (run Scenario.collectThenWait initial))) = [].
Proof.
  assert (Hfw : stepsForward Scenario.collectThenWait)
    by (simpl; repeat split; lra).
  pose proof (effects_last_one_second Scenario.collectThenWait Hfw) as H.
  cbv zeta in H. destruct H as [_ H].
  apply H. lra.
Defined.

(** ** More on the camera *)

Section CameraFrames.

(** Powers of one base multiply as their exponents add. *)
Lemma pow_plus (b e1 e2 : R) :
  0 <= b -> 0 < e1 -> 0 < e2 ->
  Js.pow b (e1 + e2) = Js.pow b e1 * Js.pow b e2.
Proof.
  intros Hb H1 H2. unfold Js.pow.
  destruct (Req_dec_T (e1 + e2) 0); [lra |].
  destruct (Req_dec_T e1 0); [lra |].
  destruct (Req_dec_T e2 0); [lra |].
  destruct (Req_dec_T b 0); [lra |].
  apply Rpower_plus.
Qed.



Lemma pow_one_base (e : R) : Js.pow 1 e = 1.
Proof.
  unfold Js.pow.
  destruct (Req_dec_T e 0); [reflexivity |].
  destruct (Req_dec_T 1 0); [lra |].
  unfold Rpower. rewrite ln_1, Rmult_0_r. apply exp_0.
Qed.

(** The smoothing does not depend on the frame rate: with a smoothness in
    [0,1] and a target that is not moved, two frames of positive durations
    leave the camera exactly where one frame of their total duration
    would. *)
Theorem smoothing_is_frame_rate_independent (dt1 dt2 : R) (c : Camera.t) :
  0 <= Camera.smoothness c <= 1 ->
  0 < dt1 -> 0 < dt2 ->
  Camera.update dt2 (Camera.update dt1 c) = Camera.update (dt1 + dt2) c.
Proof.
  intros Hs H1 H2. unfold Camera.update. simpl.
  replace ((dt1 + dt2) * 60) with (dt1 * 60 + dt2 * 60) by ring.
  rewrite (pow_plus (1 - Camera.smoothness c) (dt1 * 60) (dt2 * 60))
    by lra.
  f_equal; ring.
Qed.


(** Screen and world coordinates are inverse to each other, and
    [getTransform] is the translation from world to screen. *)
Theorem screen_world_round_trip (a b : R) (c : Camera.t) :
  (let '(wx, wy) := Camera.screenToWorld a b c in
   Camera.worldToScreen wx wy c = (a, b)) /\
  (let '(sx, sy) := Camera.worldToScreen a b c in
   Camera.screenToWorld sx sy c = (a, b)) /\
  Camera.worldToScreen a b c =
    (a + fst (Camera.getTransform c), b + snd (Camera.getTransform c)).
Proof.
  unfold Camera.screenToWorld, Camera.worldToScreen, Camera.getTransform.
  simpl. repeat split; f_equal; ring.
Qed.


(** Parallax.  For a layer name that is not the name of an inherited
    property: an unknown layer and the sky do not scroll at all, and no
    layer scrolls by more than a twentieth of the camera's position. *)
Theorem parallax_is_slow (layerName : string) (c : Camera.t) :
  ~ In layerName Js.inherited ->
  let o := Camera.getParallaxOffset layerName c in
  (Js.get Camera.parallaxLayers layerName = None -> o = (0, 0)) /\
  (layerName = "sky"%string -> o = (0, 0)) /\
  Rabs (fst o) <= Rabs (Camera.x c) / 20 /\
  Rabs (snd o) <= Rabs (Camera.y c) / 20.
Proof.
  intros _. unfold Camera.getParallaxOffset.
  split; [intros ->; reflexivity |].
  split; [intros ->; simpl; f_equal; ring |].
  pose proof (Rabs_pos (Camera.x c)) as Hx.
  pose proof (Rabs_pos (Camera.y c)) as Hy.
  destruct (Js.get Camera.parallaxLayers layerName) as [speed |] eqn:E.
  - apply get_In in E.
    assert (Hs : 0 <= speed <= 1 / 20).
    { unfold Camera.parallaxLayers in E.
      repeat (destruct E as [E | E]; [inversion E; subst; lra |]).
      destruct E. }
    simpl. rewrite !Rabs_mult, (Rabs_pos_eq speed) by lra.
    split; nra.
  - simpl. rewrite Rabs_R0. lra.
Qed.

(** [setSmoothness] clamps into [0,1] and changes nothing else: a value in
    the range is stored as given, a smaller one as 0, a larger one as 1. *)
Theorem setSmoothness_clamps (s : R) (c : Camera.t) :
  let c' := Camera.setSmoothness s c in
  0 <= Camera.smoothness c' <= 1 /\
  (0 <= s <= 1 -> Camera.smoothness c' = s) /\
  (s < 0 -> Camera.smoothness c' = 0) /\
  (1 < s -> Camera.smoothness c' = 1) /\
  Camera.x c' = Camera.x c /\ Camera.y c' = Camera.y c /\
  Camera.targetX c' = Camera.targetX c /\
  Camera.targetY c' = Camera.targetY c.
Proof.
  simpl. unfold Rmax, Rmin.
  destruct (Rle_dec 1 s); destruct (Rle_dec 0 _);
    repeat split; intros; lra.
Qed.

End CameraFrames.

(** ** More on the game state machine *)

Section TimeScale.

Lemma update_gap (dt : R) (g : GameState.t) :
  GameState.timeScaleTarget (GameState.update dt g) =
    GameState.timeScaleTarget g /\
  GameState.currentState (GameState.update dt g) =
    GameState.currentState g /\
  GameState.stats (GameState.update dt g) = GameState.stats g /\
  (1 / 100 < Rabs (GameState.gap g) ->
     GameState.gap (GameState.update dt g) = 9 / 10 * GameState.gap g) /\
  (Rabs (GameState.gap g) <= 1 / 100 ->
     GameState.gap (GameState.update dt g) = 0).
Proof.
  unfold GameState.gap, GameState.update, Js.gtb.
  destruct (Js.ltb (1 / 100)
              (Rabs (GameState.timeScaleTarget g - GameState.timeScale g)))
    eqn:E.
  - apply ltb_true_iff in E. simpl.
    repeat split; intros; lra.
  - apply ltb_false_iff in E.
    destruct (Req_dec_T (GameState.timeScale g)
                (GameState.timeScaleTarget g)) as [Heq | Hne]; simpl;
      repeat split; intros; lra.
Qed.

(** One frame of easing: [update] touches nothing but the time scale,
    which ends between its old value and the target.  While the GameState.gap is
    above 0.01 the frame closes a tenth of it; once it is at most 0.01 the
    frame puts the time scale on the target. *)
Theorem timeScale_eases (dt : R) (g : GameState.t) :
  let g' := GameState.update dt g in
  GameState.timeScaleTarget g' = GameState.timeScaleTarget g /\
  GameState.currentState g' = GameState.currentState g /\
  GameState.stats g' = GameState.stats g /\
  Camera.between (GameState.timeScale g) (GameState.timeScale g')
    (GameState.timeScaleTarget g) /\
  (1 / 100 <
   Rabs (GameState.timeScaleTarget g - GameState.timeScale g) ->
     GameState.timeScaleTarget g - GameState.timeScale g' =
     9 / 10 * (GameState.timeScaleTarget g - GameState.timeScale g)) /\
  (Rabs (GameState.timeScaleTarget g - GameState.timeScale g) <= 1 / 100 ->
     GameState.timeScale g' = GameState.timeScaleTarget g).
Proof.
  intros g'; subst g'.
  destruct (update_gap dt g) as (Ht & Hc & Hs & Hfar & Hnear).
  unfold GameState.gap in Hfar, Hnear. rewrite Ht in Hfar, Hnear.
  split; [exact Ht |]. split; [exact Hc |]. split; [exact Hs |].
  split; [| split].
  - unfold Camera.between.
    destruct (Rle_dec
                (Rabs (GameState.timeScaleTarget g - GameState.timeScale g))
                (1 / 100)) as [Hn | Hf].
    + specialize (Hnear Hn).
      destruct (Rle_dec (GameState.timeScale g)
                  (GameState.timeScaleTarget g)); [left | right]; lra.
    + assert (Hf' : 1 / 100 <
                    Rabs (GameState.timeScaleTarget g -
                          GameState.timeScale g)) by lra.
      specialize (Hfar Hf').
      destruct (Rle_dec (GameState.timeScale g)
                  (GameState.timeScaleTarget g)); [left | right]; lra.
  - exact Hfar.
  - intros Hn. specialize (Hnear Hn). lra.
Qed.

Lemma updates_gap (dts : list R) (g : GameState.t) :
  GameState.timeScaleTarget (GameState.updates dts g) =
    GameState.timeScaleTarget g /\
  Rabs (GameState.gap (GameState.updates dts g)) <=
    (9 / 10) ^ List.length dts * Rabs (GameState.gap g).
Proof.
  unfold GameState.updates. revert g.
  induction dts as [| dt dts IH]; intros g.
  - simpl. split; [reflexivity | lra].
  - cbn [fold_left List.length].
    destruct (IH (GameState.update dt g)) as [Ht Hg].
    destruct (update_gap dt g) as (Ht1 & _ & _ & Hfar & Hnear).
    split; [now rewrite Ht |].
    assert (Hstep : Rabs (GameState.gap (GameState.update dt g)) <=
                    9 / 10 * Rabs (GameState.gap g)).
    { pose proof (Rabs_pos (GameState.gap g)) as Hp.
      destruct (Rle_dec (Rabs (GameState.gap g)) (1 / 100)) as [Hn | Hf].
      - rewrite (Hnear Hn), Rabs_R0. lra.
      - rewrite Hfar by lra.
        rewrite Rabs_mult, (Rabs_pos_eq (9 / 10)) by lra. lra. }
    assert (Hpow : 0 <= (9 / 10) ^ List.length dts)
      by (apply pow_le; lra).
    simpl. nra.
Qed.

(** Easing ends: for every state there is a number of frames after which
    the time scale is exactly on its target, and stays there for any
    further frames. *)
Theorem timeScale_settles (g : GameState.t) :
  exists n : nat,
    forall dts : list R,
      (n <= List.length dts)%nat ->
      GameState.timeScale (GameState.updates dts g) =
      GameState.timeScaleTarget g.
Proof.
  pose proof (Rabs_pos (GameState.gap g)) as Hp.
  destruct (pow_lt_1_zero (9 / 10))
    with (y := 1 / 100 / (Rabs (GameState.gap g) + 1))
    as [N HN].
  { rewrite Rabs_pos_eq; lra. }
  { apply Rdiv_lt_0_compat; lra. }
  exists (S N). intros dts Hlen.
  rewrite <- (firstn_skipn N dts).
  assert (Hl1 : List.length (firstn N dts) = N)
    by (apply firstn_length_le; lia).
  destruct (skipn N dts) as [| dt rest] eqn:Hs.
  { pose proof (length_skipn N dts) as Hk. rewrite Hs in Hk.
    simpl in Hk. lia. }
  unfold GameState.updates. rewrite fold_left_app. cbn [fold_left].
  fold (GameState.updates (firstn N dts) g).
  set (g1 := GameState.updates (firstn N dts) g).
  fold (GameState.updates rest (GameState.update dt g1)).
  destruct (updates_gap (firstn N dts) g) as [Ht1 Hg1].
  fold g1 in Ht1, Hg1. rewrite Hl1 in Hg1.
  assert (Hnear : Rabs (GameState.gap g1) <= 1 / 100).
  { specialize (HN N (Nat.le_refl N)).
    rewrite Rabs_pos_eq in HN by (apply pow_le; lra).
    apply (Rmult_lt_compat_r (Rabs (GameState.gap g) + 1)) in HN; [| lra].
    replace (1 / 100 / (Rabs (GameState.gap g) + 1) *
             (Rabs (GameState.gap g) + 1))
      with (1 / 100) in HN by (field; lra).
    assert (0 <= (9 / 10) ^ N) by (apply pow_le; lra).
    nra. }
  destruct (update_gap dt g1) as (Ht2 & _ & _ & _ & Hzero).
  specialize (Hzero Hnear).
  destruct (updates_gap rest (GameState.update dt g1)) as [Ht3 Hg3].
  rewrite Hzero, Rabs_R0, Rmult_0_r in Hg3.
  assert (Hz : GameState.gap
                 (GameState.updates rest (GameState.update dt g1)) = 0).
  { pose proof (Rabs_pos
                  (GameState.gap
                     (GameState.updates rest (GameState.update dt g1)))).
    destruct (Req_dec_T
                (GameState.gap
                   (GameState.updates rest (GameState.update dt g1))) 0)
      as [E | E]; [exact E |].
    apply Rabs_pos_lt in E. lra. }
  unfold GameState.gap in Hz. rewrite Ht3, Ht2, Ht1 in Hz. lra.
Qed.

End TimeScale.

Section GameStateHistories.

(** [setGameState] with a case variant of an enumeration name is the hook
    run on the state with that name's value. *)
Lemma setGameState_variant
    (now : R) (s k v : string) (g : GameState.t) :
  In (k, v) GameState.states ->
  GameState.caseVariant s k = true ->
  GameState.setGameState now s g =
    GameState.handleStateChange now (GameState.set_currentState v g).
Proof.
  intros Hin Hvar.
  destruct (states_entry k v Hin) as (Hup & Hget & Htruthy).
  apply caseVariant_iff_upper in Hvar. rewrite Hup in Hvar.
  unfold GameState.setGameState. rewrite Hvar, Hget, Htruthy. reflexivity.
Qed.

Lemma handleStateChange_consistent (now : R) (g : GameState.t) :
  GameState.consistent g ->
  GameState.consistent (GameState.handleStateChange now g).
Proof.
  unfold GameState.consistent, GameState.handleStateChange.
  intros (Ht & Hs & Hc & Hl & Hp).
  repeat match goal with
    | |- context [if ?b then _ else _] => destruct b
    end; simpl; repeat split; try tauto; try lia; try lra.
Qed.

Lemma setGameState_consistent (now : R) (s : string) (g : GameState.t) :
  GameState.consistent g ->
  GameState.consistent (GameState.setGameState now s g).
Proof.
  intros H. unfold GameState.setGameState.
  apply handleStateChange_consistent.
  destruct (Js.get GameState.states (Js.toUpperCase s)) as [v |];
    [destruct (GameState.truthy v) |]; exact H.
Qed.

Lemma update_consistent (dt : R) (g : GameState.t) :
  GameState.consistent g -> GameState.consistent (GameState.update dt g).
Proof.
  unfold GameState.consistent. intros (Ht & Hs & Hc & Hl & Hp).
  destruct (update_gap dt g) as (Et & _ & Es & Hfar & Hnear).
  rewrite Et, Es. unfold GameState.gap in Hfar, Hnear.
  rewrite Et in Hfar, Hnear.
  repeat split; try tauto; try lia.
  - destruct (Rle_dec
                (Rabs (GameState.timeScaleTarget g - GameState.timeScale g))
                (1 / 100)) as [Hn | Hf].
    + specialize (Hnear Hn). destruct Ht; lra.
    + assert (Hf' : 1 / 100 <
                    Rabs (GameState.timeScaleTarget g -
                          GameState.timeScale g)) by lra.
      specialize (Hfar Hf'). destruct Ht; lra.
  - destruct (Rle_dec
                (Rabs (GameState.timeScaleTarget g - GameState.timeScale g))
                (1 / 100)) as [Hn | Hf].
    + specialize (Hnear Hn). destruct Ht; lra.
    + assert (Hf' : 1 / 100 <
                    Rabs (GameState.timeScaleTarget g -
                          GameState.timeScale g)) by lra.
      specialize (Hfar Hf'). destruct Ht; lra.
Qed.

(** What always holds of a game state.  Whatever methods are called on a
    new [GameState], with whatever arguments: the time-scale target is 0 or
    1 and the time scale lies in [0,1], so a scaled time step is never
    negative and never longer than the raw step; consecutive deaths never
    exceed the level's deaths, which never exceed the total; and the pixel
    count is not negative. *)
Theorem game_state_stays_consistent (cs : list GameState.call) :
  let g := GameState.run cs GameState.new in
  (GameState.timeScaleTarget g = 0 \/ GameState.timeScaleTarget g = 1) /\
  0 <= GameState.timeScale g <= 1 /\
  (0 <= GameState.consecutiveDeaths (GameState.stats g)
     <= GameState.levelDeaths (GameState.stats g))%Z /\
  (GameState.levelDeaths (GameState.stats g)
     <= GameState.totalDeaths (GameState.stats g))%Z /\
  (0 <= GameState.pixelsCollected (GameState.stats g))%Z /\
  forall dt, 0 <= dt -> 0 <= GameState.getScaledDeltaTime dt g <= dt.
Proof.
  assert (Hrun : forall cs g,
             GameState.consistent g ->
             GameState.consistent (GameState.run cs g)).
  { clear cs. unfold GameState.run.
    induction cs as [| c cs IH]; intros g Hg; [exact Hg |].
    cbn [fold_left]. apply IH.
    destruct c; cbn [GameState.exec];
      try (now apply setGameState_consistent);
      try (now apply update_consistent);
      unfold GameState.consistent in *; simpl;
      destruct Hg as (Ht & Hs & Hc & Hl & Hp);
      repeat split; try tauto; try lia; try lra. }
  intros g.
  assert (Hg : GameState.consistent g).
  { apply Hrun. unfold GameState.consistent. simpl.
    repeat split; try lia; try lra. }
  destruct Hg as (Ht & Hs & Hc & Hl & Hp).
  repeat split; try tauto; try lia; try lra;
    unfold GameState.getScaledDeltaTime; nra.
Qed.

(** Every call that enters the dead state counts.  [setGameState] with a
    case variant of [DEAD] adds one to the level's, the total and the
    consecutive deaths, even when the state is dead already, so two such
    calls add two; it leaves score, level and pixel counts alone.  A call
    that ends in another state leaves all the statistics but the level
    start time as they were. *)
Theorem every_dead_call_counts
    (now now' : R) (s s' : string) (g : GameState.t) :
  (GameState.caseVariant s "DEAD" = true ->
     let g1 := GameState.setGameState now s g in
     GameState.isDead g1 = true /\
     GameState.stats g1 = GameState.countDeath (GameState.stats g) /\
     (GameState.caseVariant s' "DEAD" = true ->
        let g2 := GameState.setGameState now' s' g1 in
        GameState.totalDeaths (GameState.stats g2) =
          (GameState.totalDeaths (GameState.stats g) + 2)%Z /\
        GameState.levelDeaths (GameState.stats g2) =
          (GameState.levelDeaths (GameState.stats g) + 2)%Z /\
        GameState.consecutiveDeaths (GameState.stats g2) =
          (GameState.consecutiveDeaths (GameState.stats g) + 2)%Z /\
        GameState.score (GameState.stats g2) =
          GameState.score (GameState.stats g))) /\
  (GameState.isDead (GameState.setGameState now s g) = false ->
     GameState.stats (GameState.setGameState now s g) =
       GameState.stats g \/
     GameState.stats (GameState.setGameState now s g) =
       GameState.set_levelStartTime now (GameState.stats g)).
Proof.
  assert (Hdead : In ("DEAD"%string, GameState.DEAD) GameState.states)
    by (unfold GameState.states; simpl; tauto).
  split.
  - intros Hs g1; subst g1.
    rewrite (setGameState_variant now s _ _ g Hdead Hs).
    split; [reflexivity |]. split; [reflexivity |].
    intros Hs' g2; subst g2.
    rewrite (setGameState_variant now' s' _ _ _ Hdead Hs').
    simpl. repeat split; lia.
  - unfold GameState.setGameState.
    set (g0 := match Js.get GameState.states (Js.toUpperCase s) with
               | Some v =>
                   if GameState.truthy v
                   then GameState.set_currentState v g
                   else GameState.set_currentState s g
               | None => GameState.set_currentState s g
               end).
    assert (Hst : GameState.stats g0 = GameState.stats g).
    { subst g0.
      destruct (Js.get GameState.states (Js.toUpperCase s)) as [v |];
        [destruct (GameState.truthy v) |]; reflexivity. }
    unfold GameState.isDead. rewrite handleStateChange_keeps_state.
    intros Hnd. unfold GameState.handleStateChange. rewrite Hnd.
    repeat match goal with
      | |- context [if ?b then _ else _] => destruct b
      end; simpl; rewrite ?Hst; auto.
Qed.

End GameStateHistories.

(** *** Instances *)

Lemma update_snaps_angle_witness :
  Rabs (Player.angle (Player.update (1 / 60) Scenario.groundedPlayer) -
        Player.angle Scenario.groundedPlayer) <= PI / 4.
Proof.
  destruct (update_snaps_angle (1 / 60) Scenario.groundedPlayer
              eq_refl eq_refl) as [H _].
  apply (H eq_refl).
Defined.

Lemma justLanded_after_frame_witness :
  Player.justLanded
    (snd (Player.handlePlatformCollision (fun _ => 0) Scenario.thinPlatform
            (Player.update 0 Scenario.standingPlayer))) = true.
Proof.
  assert (L : Player.landing (Player.update 0 Scenario.standingPlayer)
                Scenario.thinPlatform = true).
  { unfold Player.landing, Player.update. simpl. js_compare. simpl.
    js_compare. reflexivity. }
  apply (justLanded_after_frame (fun _ => 0) 0 Scenario.thinPlatform
           Scenario.standingPlayer eq_refl eq_refl L).
Defined.

Lemma teleport_test_is_overlap_witness :
  Player.handleTeleportCollision Scenario.nearTeleport Player.new = true.
Proof.
  apply (teleport_test_is_overlap Scenario.nearTeleport Player.new);
    try (simpl; lra).
  exists 180, 130. unfold Rect.inside. simpl. lra.
Defined.

Lemma on_screen_is_visible_witness :
  Camera.isVisible (Player.getBounds Player.new) Scenario.landscapeCamera
  = true.
Proof.
  apply (on_screen_is_visible (Player.getBounds Player.new)
           Scenario.landscapeCamera).
  - simpl. lra.
  - exists 160, 110. unfold Rect.inside. simpl. lra.
Defined.

Lemma collectible_visible_iff_overlap_witness :
  Collectible.isVisible (Camera.getBounds Scenario.landscapeCamera)
    (Collectible.new 170 120 "pixel") = true.
Proof.
  apply (collectible_visible_iff_overlap
           (Camera.getBounds Scenario.landscapeCamera)
           (Collectible.new 170 120 "pixel"));
    try (simpl; lra).
  exists 170, 120. unfold Rect.inside, CameraBounds.inside. simpl. lra.
Defined.

Lemma smoothing_is_frame_rate_independent_witness :
  Camera.update (1 / 30) (Camera.update (1 / 60) Scenario.chasingCamera) =
  Camera.update (1 / 60 + 1 / 30) Scenario.chasingCamera.
Proof.
  apply (smoothing_is_frame_rate_independent (1 / 60) (1 / 30)
           Scenario.chasingCamera); simpl; lra.
Defined.


Lemma new_collectible_is_catalogued_witness :
  Collectible.size (Collectible.new 0 0 "coin") = 8 /\
  10 <= Collectible.value (Collectible.new 0 0 "star") <= 100.
Proof.
  assert (Hcoin : ~ In "coin"%string Js.inherited).
  { unfold Js.inherited. simpl. intros H.
    repeat (destruct H as [H | H]; [discriminate |]). exact H. }
  assert (Hstar : ~ In "star"%string Js.inherited).
  { unfold Js.inherited. simpl. intros H.
    repeat (destruct H as [H | H]; [discriminate |]). exact H. }
  split.
  - apply (new_collectible_is_catalogued 0 0 "coin" Hcoin). reflexivity.
  - apply (new_collectible_is_catalogued 0 0 "star" Hstar).
Defined.

Lemma parallax_is_slow_witness :
  Camera.getParallaxOffset "fog" Scenario.chasingCamera = (0, 0) /\
  Rabs (fst (Camera.getParallaxOffset "mountains" Scenario.chasingCamera))
    <= Rabs (Camera.x Scenario.chasingCamera) / 20.
Proof.
  assert (Hfog : ~ In "fog"%string Js.inherited).
  { unfold Js.inherited. simpl. intros H.
    repeat (destruct H as [H | H]; [discriminate |]). exact H. }
  assert (Hm : ~ In "mountains"%string Js.inherited).
  { unfold Js.inherited. simpl. intros H.
    repeat (destruct H as [H | H]; [discriminate |]). exact H. }
  split.
  - destruct (parallax_is_slow "fog" Scenario.chasingCamera Hfog)
      as [H _].
    apply H. reflexivity.
  - destruct (parallax_is_slow "mountains" Scenario.chasingCamera Hm)
      as (_ & _ & H & _).
    exact H.
Defined.

(** ** The camera's approach to its target *)

Section CameraApproach.

(** For a base in [0,1] a larger positive exponent gives a smaller
    power. *)
Lemma pow_antitone (b e e' : R) :
  0 <= b <= 1 -> 0 < e' <= e -> Js.pow b e <= Js.pow b e'.
Proof.
  intros [Hb0 Hb1] [He' He]. unfold Js.pow.
  destruct (Req_dec_T e 0); [lra |].
  destruct (Req_dec_T e' 0); [lra |].
  destruct (Req_dec_T b 0); [lra |].
  assert (Hln : ln b <= 0).
  { destruct (Req_dec_T b 1) as [-> | Hne].
    - rewrite ln_1; lra.
    - left. rewrite <- ln_1. apply ln_increasing; lra. }
  unfold Rpower.
  destruct (Req_dec_T (e * ln b) (e' * ln b)) as [-> | Hne]; [lra |].
  left. apply exp_increasing. nra.
Qed.

Lemma frames_S (dts : nat -> R) (k : nat) (c : Camera.t) :
  Camera.frames dts (S k) c =
  Camera.update (dts k) (Camera.frames dts k c).
Proof.
  unfold Camera.frames. rewrite seq_S, map_app. simpl.
  apply updates_snoc.
Qed.

Lemma frames_positive (dts : nat -> R) (d : R) (k : nat) :
  0 < d -> (forall i, d <= dts i) ->
  Forall (fun dt => 0 < dt) (map dts (seq 0 k)).
Proof.
  intros Hd Hdts. apply Forall_forall. intros dt Hin.
  apply in_map_iff in Hin. destruct Hin as (i & <- & _).
  specialize (Hdts i). lra.
Qed.

(** One frame scales the remaining distance by the frame's factor. *)
Lemma frames_gap (dts : nat -> R) (d : R) (k : nat) (c : Camera.t) :
  0 <= Camera.smoothness c <= 1 ->
  0 < d -> (forall i, d <= dts i) ->
  let q := Js.pow (1 - Camera.smoothness c) (dts k * 60) in
  Camera.targetX c - Camera.x (Camera.frames dts (S k) c) =
    (Camera.targetX c - Camera.x (Camera.frames dts k c)) * q /\
  Camera.targetY c - Camera.y (Camera.frames dts (S k) c) =
    (Camera.targetY c - Camera.y (Camera.frames dts k c)) * q.
Proof.
  intros Hs Hd Hdts q; subst q.
  destruct (updates_stay_between (map dts (seq 0 k)) c Hs
              (frames_positive dts d k Hd Hdts))
    as (Htx & Hty & Hsm & _).
  fold (Camera.frames dts k c) in Htx, Hty, Hsm.
  rewrite frames_S. simpl. rewrite Htx, Hty, Hsm. split; ring.
Qed.

(** The remaining distance is at most the initial one times the [k]-th
    power of the factor of the shortest frame. *)
Lemma frames_gap_bound (dts : nat -> R) (d : R) (k : nat) (c : Camera.t) :
  0 <= Camera.smoothness c <= 1 ->
  0 < d -> (forall i, d <= dts i) ->
  let Q := Js.pow (1 - Camera.smoothness c) (d * 60) in
  Rabs (Camera.targetX c - Camera.x (Camera.frames dts k c)) <=
    Rabs (Camera.targetX c - Camera.x c) * Q ^ k /\
  Rabs (Camera.targetY c - Camera.y (Camera.frames dts k c)) <=
    Rabs (Camera.targetY c - Camera.y c) * Q ^ k.
Proof.
  intros Hs Hd Hdts Q.
  assert (HQ : 0 <= Q <= 1) by (apply pow_unit_interval; lra).
  induction k as [| k IH].
  - unfold Camera.frames. simpl. split; lra.
  - destruct (frames_gap dts d k c Hs Hd Hdts) as [Ex Ey].
    cbv zeta in Ex, Ey. rewrite Ex, Ey.
    set (q := Js.pow (1 - Camera.smoothness c) (dts k * 60)) in *.
    assert (Hq : 0 <= q <= Q).
    { split.
      - apply pow_unit_interval; [lra |]. specialize (Hdts k). lra.
      - apply pow_antitone; [lra |]. specialize (Hdts k). lra. }
    destruct IH as [IHx IHy].
    assert (Hpow : 0 <= Q ^ k) by (apply pow_le; lra).
    pose proof (Rabs_pos (Camera.targetX c - Camera.x c)).
    pose proof (Rabs_pos (Camera.targetY c - Camera.y c)).
    pose proof (Rabs_pos
                  (Camera.targetX c - Camera.x (Camera.frames dts k c))).
    pose proof (Rabs_pos
                  (Camera.targetY c - Camera.y (Camera.frames dts k c))).
    rewrite !Rabs_mult, (Rabs_pos_eq q) by lra.
    simpl. split; nra.
Qed.

(** A sequence within a geometrically shrinking distance of a point tends
    to it. *)
Lemma geometric_tends (u : nat -> R) (l A Q : R) :
  0 <= Q < 1 ->
  (forall k, Rabs (l - u k) <= A * Q ^ k) ->
  Un_cv u l.
Proof.
  intros HQ Hu eps Heps.
  assert (HA : 0 <= A).
  { specialize (Hu 0%nat). simpl in Hu.
    pose proof (Rabs_pos (l - u 0%nat)). lra. }
  destruct (pow_lt_1_zero Q) with (y := eps / (A + 1)) as [N HN].
  { rewrite Rabs_pos_eq; lra. }
  { apply Rdiv_lt_0_compat; lra. }
  exists N. intros k Hk. unfold R_dist. rewrite Rabs_minus_sym.
  specialize (HN k Hk).
  assert (Hpow : 0 <= Q ^ k) by (apply pow_le; lra).
  rewrite Rabs_pos_eq in HN by exact Hpow.
  apply (Rmult_lt_compat_r (A + 1)) in HN; [| lra].
  replace (eps / (A + 1) * (A + 1)) with eps in HN by (field; lra).
  specialize (Hu k). nra.
Qed.

(** A camera with smoothness 0 stays where it is. *)
Lemma frames_frozen (dts : nat -> R) (k : nat) (c : Camera.t) :
  Camera.smoothness c = 0 ->
  Camera.x (Camera.frames dts k c) = Camera.x c /\
  Camera.y (Camera.frames dts k c) = Camera.y c /\
  Camera.smoothness (Camera.frames dts k c) = 0.
Proof.
  intros Hs. induction k as [| k (IHx & IHy & IHs)].
  - unfold Camera.frames. simpl. auto.
  - rewrite frames_S. simpl. rewrite IHs, IHx, IHy.
    replace (1 - 0) with 1 by ring. rewrite pow_one_base.
    repeat split; ring.
Qed.

(** C8, as the code has it.  Take a camera with smoothness [s] in [0,1], a
    target that is not moved, and an unending run of frames each lasting
    at least some [d > 0].  The target stays put, and on each axis every
    frame leaves the position between the previous position and the
    target, with the distance to the target not grown: the camera never
    passes the target.  If [s > 0], a frame that starts off the target ends
    strictly closer to it, and the positions converge to the target.  If
    [s = 0], the camera does not move at all. *)
Theorem camera_approaches_target
    (c : Camera.t) (dts : nat -> R) (d : R) (k : nat) :
  0 <= Camera.smoothness c <= 1 ->
  0 < d ->
  (forall i, d <= dts i) ->
  let c1 := Camera.frames dts k c in
  let c2 := Camera.frames dts (S k) c in
  c2 = Camera.update (dts k) c1 /\
  Camera.targetX c2 = Camera.targetX c /\
  Camera.targetY c2 = Camera.targetY c /\
  Camera.between (Camera.x c1) (Camera.x c2) (Camera.targetX c) /\
  Camera.between (Camera.y c1) (Camera.y c2) (Camera.targetY c) /\
  Rabs (Camera.targetX c - Camera.x c2) <=
    Rabs (Camera.targetX c - Camera.x c1) /\
  Rabs (Camera.targetY c - Camera.y c2) <=
    Rabs (Camera.targetY c - Camera.y c1) /\
  (0 < Camera.smoothness c ->
     (Camera.x c1 <> Camera.targetX c ->
        Rabs (Camera.targetX c - Camera.x c2) <
        Rabs (Camera.targetX c - Camera.x c1)) /\
     (Camera.y c1 <> Camera.targetY c ->
        Rabs (Camera.targetY c - Camera.y c2) <
        Rabs (Camera.targetY c - Camera.y c1)) /\
     Un_cv (fun n => Camera.x (Camera.frames dts n c)) (Camera.targetX c) /\
     Un_cv (fun n => Camera.y (Camera.frames dts n c)) (Camera.targetY c)) /\
  (Camera.smoothness c = 0 ->
     forall n,
       Camera.x (Camera.frames dts n c) = Camera.x c /\
       Camera.y (Camera.frames dts n c) = Camera.y c).
Proof.
  intros Hs Hd Hdts c1 c2.
  assert (Hdk : 0 < dts k) by (specialize (Hdts k); lra).
  pose proof (camera_never_overshoots c (map dts (seq 0 k)) (dts k) Hs
                (frames_positive dts d k Hd Hdts) Hdk) as Hno.
  cbv zeta in Hno.
  fold (Camera.frames dts k c) in Hno. fold c1 in Hno.
  assert (E : c2 = Camera.update (dts k) c1) by apply frames_S.
  rewrite <- E in Hno.
  destruct Hno as (Htx & Hty & Hbx & Hby & _ & _ & Hdx & Hdy).
  do 7 (split; [assumption |]).
  split.
  - intros Hpos.
    destruct (frames_gap dts d k c Hs Hd Hdts) as [Ex Ey].
    cbv zeta in Ex, Ey. fold c1 c2 in Ex, Ey.
    set (q := Js.pow (1 - Camera.smoothness c) (dts k * 60)) in *.
    assert (Hq0 : 0 <= q <= 1) by (apply pow_unit_interval; lra).
    assert (Hq1 : q < 1) by (apply pow_below_one; lra).
    split; [| split; [| split]].
    + intros Hne. rewrite Ex, Rabs_mult, (Rabs_pos_eq q) by lra.
      assert (0 < Rabs (Camera.targetX c - Camera.x c1))
        by (apply Rabs_pos_lt; lra).
      nra.
    + intros Hne. rewrite Ey, Rabs_mult, (Rabs_pos_eq q) by lra.
      assert (0 < Rabs (Camera.targetY c - Camera.y c1))
        by (apply Rabs_pos_lt; lra).
      nra.
    + apply (geometric_tends _ _
               (Rabs (Camera.targetX c - Camera.x c))
               (Js.pow (1 - Camera.smoothness c) (d * 60))).
      * split; [apply pow_unit_interval | apply pow_below_one]; lra.
      * intros n. apply (frames_gap_bound dts d n c Hs Hd Hdts).
    + apply (geometric_tends _ _
               (Rabs (Camera.targetY c - Camera.y c))
               (Js.pow (1 - Camera.smoothness c) (d * 60))).
      * split; [apply pow_unit_interval | apply pow_below_one]; lra.
      * intros n. apply (frames_gap_bound dts d n c Hs Hd Hdts).
  - intros Hz n.
    destruct (frames_frozen dts n c Hz) as (Hx & Hy & _). auto.
Qed.

End CameraApproach.

Lemma camera_approaches_target_witness :
  let c1 := Camera.frames (fun _ => 1 / 60) 1 Scenario.chasingCamera in
  let c2 := Camera.frames (fun _ => 1 / 60) 2 Scenario.chasingCamera in
  Camera.between (Camera.x c1) (Camera.x c2) 100 /\
  Un_cv
    (fun n =>
       Camera.x (Camera.frames (fun _ => 1 / 60) n Scenario.chasingCamera))
    100.
Proof.
  assert (Hs : 0 <= Camera.smoothness Scenario.chasingCamera <= 1)
    by (simpl; lra).
  assert (Hd : 0 < 1 / 60) by lra.
  assert (Hdts : forall i : nat, 1 / 60 <= (fun _ : nat => 1 / 60) i)
    by (intros i; simpl; lra).
  pose proof (camera_approaches_target Scenario.chasingCamera
                (fun _ => 1 / 60) (1 / 60) 1 Hs Hd Hdts) as H.
  cbv zeta in H |- *.
  destruct H as (_ & _ & _ & Hb & _ & _ & _ & Hconv & _).
  assert (E : Camera.targetX Scenario.chasingCamera = 100)
    by (simpl; lra).
  rewrite E in Hb, Hconv.
  assert (Hpos : 0 < Camera.smoothness Scenario.chasingCamera)
    by (simpl; lra).
  destruct (Hconv Hpos) as (_ & _ & Hx & _).
  split; [exact Hb | exact Hx].
Defined.

(** C8, as stated, fails.  A camera with smoothness 0, which is in [0,1],
    that is off its target is not moved by an update with [dt = 1/60], and
    however many such updates follow it stays at 0 while the target is at
    100: it does not move toward the target and its positions do not
    converge to it. *)
Lemma frozen_camera_never_arrives :
  0 <= Camera.smoothness Scenario.frozenCamera <= 1 /\
  0 < 1 / 60 /\
  Camera.x Scenario.frozenCamera = 0 /\
  Camera.targetX Scenario.frozenCamera = 100 /\
  Camera.x (Camera.update (1 / 60) Scenario.frozenCamera) = 0 /\
  (forall n,
      Camera.x (Camera.updates (repeat (1 / 60) n) Scenario.frozenCamera)
      = 0) /\
  ~ Un_cv
      (fun n =>
         Camera.x
           (Camera.updates (repeat (1 / 60) n) Scenario.frozenCamera))
      (Camera.targetX Scenario.frozenCamera).
Proof.
  assert (Hs : Camera.smoothness Scenario.frozenCamera = 0).
  { simpl. unfold Rmax, Rmin.
    destruct (Rle_dec 1 0); [lra |].
    destruct (Rle_dec 0 0); lra. }
  assert (Hx : Camera.x Scenario.frozenCamera = 0) by reflexivity.
  assert (Ht : Camera.targetX Scenario.frozenCamera = 100)
    by (simpl; lra).
  assert (Hall : forall n,
             Camera.x
               (Camera.updates (repeat (1 / 60) n) Scenario.frozenCamera)
             = 0).
  { intros n.
    destruct (updates_closed_form Scenario.frozenCamera (1 / 60) n)
      as (_ & _ & _ & E & _).
    rewrite Hs in E. replace (1 - 0) with 1 in E by ring.
    rewrite pow_one_base, pow1, Hx, Ht in E. lra. }
  split; [rewrite Hs; lra |]. split; [lra |].
  split; [exact Hx |]. split; [exact Ht |].
  split; [apply (Hall 1%nat) |]. split; [exact Hall |].
  intros Hcv. destruct (Hcv 1) as [N HN]; [lra |].
  specialize (HN N (Nat.le_refl N)).
  rewrite Hall, Ht in HN. unfold R_dist in HN.
  rewrite Rabs_left in HN; lra.
Qed.
